(** * Resume matcher: the matching pipeline of [resume_matcher_enhanced.py]

    A shallow embedding of the text normaliser, the model loader, the
    ranker and the background worker of the folder-based screen, with the
    properties of the pipeline proved over it.

    Conventions of the embedding.
    - A Python [str] is a list of Unicode code points ([N]); literals are
      written with [s "..."].
    - The two regular expressions of the normaliser are values of [regex],
      run by a backtracking matcher that tries alternatives in the order of
      Python's [re]; each substitution is then shown to be a direct scan of
      the text, on which the properties are proved.
    - A Python [float] is the rational it denotes ([Q]); NaN does not occur
      (progress fractions are quotients of small integers, scores are
      cosine similarities).
    - External collaborators (PyMuPDF, sentence-transformers, the file
      system) are fields of an environment record; each of their calls is
      recorded in the trace of the run.
    - A raised exception is a value of [exn]; the GUI calls made from the
      worker are events of the trace.
    - The worker runs in a thread of its own and hands its result to the
      main loop with [root.after]. The one place where the order of the
      two threads shows is the callback of the [except] block, which reads
      the exception variable; which thread is first there is a field of
      the environment. *)

From Stdlib Require Import List NArith ZArith QArith Bool Arith Lia.
From Stdlib Require Import Strings.String Strings.Ascii Numbers.DecimalString.
From Stdlib Require Import Sorting.Permutation Sorting.Sorted.
Import ListNotations.

Close Scope Q_scope.
Close Scope Z_scope.

(** ** Python strings *)

Module Py.

Definition char := N.
Definition str := list char.

(** A literal: the code points of an ASCII (Latin-1) string. *)
Definition s (x : string) : str := List.map N_of_ascii (list_ascii_of_string x).
Arguments s x%_string.

Definition space : char := 32%N.

(** [Py_UNICODE_ISSPACE]: the set used by [str.strip], [str.isspace] and
    by [\s] in a [str] pattern. *)
Definition isspace (c : char) : bool :=
  ((9 <=? c) && (c <=? 13) || (28 <=? c) && (c <=? 32)
   || (c =? 133) || (c =? 160) || (c =? 5760)
   || (8192 <=? c) && (c <=? 8202)
   || (c =? 8232) || (c =? 8233) || (c =? 8239) || (c =? 8287)
   || (c =? 12288))%N.

(** The class [[A-Z]] (no flag is given: ASCII capitals only). *)
Definition is_AZ (c : char) : bool := ((65 <=? c) && (c <=? 90))%N.

(** Line boundaries of [str.splitlines]. *)
Definition is_linebreak (c : char) : bool :=
  ((10 <=? c) && (c <=? 13) || (28 <=? c) && (c <=? 30)
   || (c =? 133) || (c =? 8232) || (c =? 8233))%N.

Fixpoint lstrip (x : str) : str :=
  match x with
  | c :: t => if isspace c then lstrip t else x
  | [] => []
  end.

Definition rstrip (x : str) : str := rev (lstrip (rev x)).

(** [str.strip()] *)
Definition strip (x : str) : str := rstrip (lstrip x).

(** [str.replace(" ", "")] *)
Definition remove_spaces (x : str) : str :=
  filter (fun c => negb (c =? space)%N) x.

(** [str.splitlines()]: [cur] is the line being read, reversed. A carriage
    return followed by a line feed is one boundary; a boundary at the very
    end opens no further line. *)
Fixpoint splitlines_from (cur : str) (x : str) : list str :=
  match x with
  | [] => match cur with [] => [] | _ => [rev cur] end
  | c :: t =>
      if is_linebreak c then
        rev cur ::
          (if (c =? 13)%N then
             match t with
             | c' :: t' => if (c' =? 10)%N then splitlines_from [] t'
                           else splitlines_from [] t
             | [] => splitlines_from [] t
             end
           else splitlines_from [] t)
      else splitlines_from (c :: cur) t
  end.

Definition splitlines (x : str) : list str := splitlines_from [] x.

(** Decimal rendering of a number inside an f-string. *)
Definition str_of_nat (n : nat) : str := s (NilZero.string_of_uint (Nat.to_uint n)).

(** [os.path.basename] (POSIX): what follows the last slash. *)
Fixpoint basename_from (cur : str) (x : str) : str :=
  match x with
  | [] => rev cur
  | c :: t => if (c =? 47)%N then basename_from [] t else basename_from (c :: cur) t
  end.

Definition basename (x : str) : str := basename_from [] x.

Definition nl : str := [10%N].
Definition tab : str := [9%N].

End Py.

Import Py.

(** ** Regular expressions

    The part of Python's [re] the normaliser uses: character classes,
    sequences, the greedy repetition [+], the negative look-ahead and the
    negative look-behind of one character. *)

Inductive regex : Type :=
| Class (p : char -> bool)          (* [A-Z], \s, \S *)
| Cat (r1 r2 : regex)               (* r1 r2 *)
| Plus (r : regex)                  (* r+ *)
| NotAhead (r : regex)              (* (?!r) *)
| NotBehind (p : char -> bool).     (* (?<!c), c a class *)

(** What remains to be matched after an expression: it receives the
    character before the current position and the rest of the text, and
    returns the rest of the text after the whole match. *)
Definition cont := option char -> str -> option str.

(** The backtracking matcher. [rmatch r fuel prev x k] matches [r] at the
    head of [x], [prev] being the character before it, and goes on with
    [k]; alternatives are tried in the order of [re]: a repetition first
    tries one more round and gives up rounds only when what follows fails.
    [fuel] bounds the rounds of a repetition; each round of the patterns
    below consumes a character. *)
Fixpoint rmatch (r : regex) : nat -> option char -> str -> cont -> option str :=
  match r with
  | Class p => fun _ _ x k =>
      match x with
      | c :: t => if p c then k (Some c) t else None
      | [] => None
      end
  | Cat r1 r2 => fun fuel prev x k =>
      rmatch r1 fuel prev x (fun prev' x' => rmatch r2 fuel prev' x' k)
  | Plus r' =>
      fix again (fuel : nat) (prev : option char) (x : str) (k : cont) : option str :=
        match fuel with
        | O => None
        | S fuel' =>
            rmatch r' fuel' prev x (fun prev' x' =>
              match again fuel' prev' x' k with
              | Some rest => Some rest
              | None => k prev' x'
              end)
        end
  | NotAhead r' => fun fuel prev x k =>
      match rmatch r' fuel prev x (fun _ x' => Some x') with
      | Some _ => None
      | None => k prev x
      end
  | NotBehind p => fun _ prev x k =>
      match prev with
      | Some c => if p c then None else k prev x
      | None => k prev x
      end
  end.

Definition done : cont := fun _ rest => Some rest.

(** A match of [r] starting exactly here: what follows the matched text. *)
Definition search_here (r : regex) (prev : option char) (x : str) : option str :=
  rmatch r (S (List.length x)) prev x done.

Definition last_char (prev : option char) (x : str) : option char :=
  match rev x with
  | c :: _ => Some c
  | [] => prev
  end.

(** [re.sub(r, repl, text)] from a position on: the leftmost match is
    replaced by [repl] of the matched text and the scan resumes after it;
    where nothing matches, one character is copied. After an empty match
    the replacement is inserted and one character is copied (neither
    pattern below matches the empty text). *)
Fixpoint sub_from (fuel : nat) (r : regex) (repl : str -> str)
    (prev : option char) (x : str) : str :=
  match fuel with
  | O => x
  | S fuel' =>
      match search_here r prev x with
      | Some rest =>
          match firstn (List.length x - List.length rest) x with
          | [] =>
              match x with
              | [] => repl []
              | c :: t => repl [] ++ c :: sub_from fuel' r repl (Some c) t
              end
          | (_ :: _) as matched =>
              repl matched ++ sub_from fuel' r repl (last_char prev matched) rest
          end
      | None =>
          match x with
          | [] => []
          | c :: t => c :: sub_from fuel' r repl (Some c) t
          end
      end
  end.

Definition re_sub (r : regex) (repl : str -> str) (text : str) : str :=
  sub_from (S (List.length text)) r repl None text.

(** ** Text normaliser *)

Definition not_space (c : char) : bool := negb (isspace c).

(** [r'(?<!\S)(?:[A-Z]\s)+(?:[A-Z])(?!\S)'] *)
Definition spaced_out : regex :=
  Cat (NotBehind not_space)
    (Cat (Plus (Cat (Class is_AZ) (Class isspace)))
       (Cat (Class is_AZ) (NotAhead (Class not_space)))).

(** [r'\s+'] *)
Definition whitespace_run : regex := Plus (Class isspace).

Definition remove_spaced_out_words (text : str) : str :=
  re_sub spaced_out (fun m => remove_spaces m) text.

Definition normalize_text (text : str) : str :=
  let text := remove_spaced_out_words text in
  let text := strip text in
  re_sub whitespace_run (fun _ => [space]) text.

Fixpoint first_stripped_line (lines : list str) : str :=
  match lines with
  | [] => []
  | line :: rest =>
      let stripped_line := strip line in
      match stripped_line with
      | [] => first_stripped_line rest
      | _ :: _ => stripped_line
      end
  end.

(** The loop over [text.splitlines()] returns at the first line that is
    not blank once stripped, and [""] when there is none. *)
Definition extract_candidate_name (text : str) : str :=
  first_stripped_line (splitlines text).

(** ** Ranking order: [sorted(..., key=..., reverse=True)]

    [list.sort] compares keys with [<] only and is stable; with
    [reverse=True] it reverses the list, sorts it in ascending order and
    reverses the result, which keeps equal keys in their input order. *)

Definition Qlt_bool (a b : Q) : bool := negb (Qle_bool b a).

Section Sorted.
Context {A : Type}.
Variable key : A -> Q.

Fixpoint insert (x : A) (l : list A) : list A :=
  match l with
  | [] => [x]
  | y :: l' => if Qlt_bool (key y) (key x) then y :: insert x l' else x :: l
  end.

Fixpoint sort_ascending (l : list A) : list A :=
  match l with
  | [] => []
  | x :: l' => insert x (sort_ascending l')
  end.

Definition sorted (reverse : bool) (l : list A) : list A :=
  if reverse then rev (sort_ascending (rev l)) else sort_ascending l.

(** Orders on records by their keys, and the records of a given key. *)
Definition key_le (a b : A) : Prop := (key a <= key b)%Q.
Definition key_ge (a b : A) : Prop := (key b <= key a)%Q.
Definition has_key (q : Q) (a : A) : bool := Qeq_bool (key a) q.
End Sorted.

(** ** The pipeline and its collaborators *)

(** The dictionary built for each resume. *)
Record resume : Type := {
  file_name : str;
  candidate_name : str;
  text : str;
  full_path : str
}.

(** Exceptions: the [ValueError] the worker raises itself, the [NameError]
    of a variable read while unbound, and whatever a library call raises.
    Only [str(e)] is ever looked at. *)
Inductive exn : Type :=
| ValueError (msg : str)
| NameError (msg : str)
| LibraryError (msg : str).

Definition str_of_exn (e : exn) : str :=
  match e with
  | ValueError msg => msg
  | NameError msg => msg
  | LibraryError msg => msg
  end.

(** What a run does to the outside, in order. *)
Inductive event : Type :=
| Progress (value : Q) (message : str)    (* self.update_progress *)
| Print (line : str)                      (* print *)
| Fetch (name : str)                      (* SentenceTransformer(name) *)
| Save (path : str)                       (* model.save *)
| Load (path : str)                       (* SentenceTransformer(path) *)
| EncodeText (text : str)                 (* model.encode(text) *)
| EncodeBatch (texts : list str)          (* model.encode(texts) *)
| CosSim                                  (* util.pytorch_cos_sim *)
| Display (ranked : list (resume * Q))    (* self.update_results_display *)
| ShowError (msg : str)                   (* messagebox.showerror *)
| CallbackError (msg : str).              (* Tk reports an exception of a callback *)

Definition trace := list event.

(** The state the worker reads and writes besides the trace: whether the
    model directory exists. *)
Definition fs := bool.

(** Computations: a trace, the file system afterwards, and a value or the
    exception raised. *)
Definition M (A : Type) : Type := fs -> trace * fs * (exn + A).

Definition ret {A} (a : A) : M A := fun st => ([], st, inr a).

Definition bind {A B} (c : M A) (k : A -> M B) : M B :=
  fun st =>
    match c st with
    | (t1, st1, inl e) => (t1, st1, inl e)
    | (t1, st1, inr a) =>
        match k a st1 with
        | (t2, st2, r) => (t1 ++ t2, st2, r)
        end
    end.

Definition raise {A} (e : exn) : M A := fun st => ([], st, inl e).

Definition try_except {A} (c : M A) (handler : exn -> M A) : M A :=
  fun st =>
    match c st with
    | (t1, st1, inl e) =>
        match handler e st1 with
        | (t2, st2, r) => (t1 ++ t2, st2, r)
        end
    | (t1, st1, inr a) => (t1, st1, inr a)
    end.

Definition emit (e : event) : M unit := fun st => ([e], st, inr tt).

Definition call {A} (e : event) (result : exn + A) : M A :=
  fun st => ([e], st, result).

Definition path_exists : M bool := fun st => ([], st, inr st).

Definition set_path_exists (b : bool) : M unit := fun _ => ([], b, inr tt).

Declare Scope py_scope.
Delimit Scope py_scope with py.
Notation "x <- c ;; k" := (bind c (fun x => k))
  (at level 61, c at next level, right associativity) : py_scope.
Notation "c ;; k" := (bind c (fun _ => k))
  (at level 61, right associativity) : py_scope.
Local Open Scope py_scope.

Fixpoint for_each {A} (l : list A) (body : A -> M unit) : M unit :=
  match l with
  | [] => ret tt
  | x :: l' => body x ;; for_each l' body
  end.

(** A loop that appends to a list: the list is threaded through. *)
Fixpoint for_append {A B} (l : list A) (acc : list B)
    (body : A -> list B -> M (list B)) : M (list B) :=
  match l with
  | [] => ret acc
  | x :: l' => acc' <- body x acc ;; for_append l' acc' body
  end.

Definition callback := Q -> str -> M unit.

(** [if progress_callback: progress_callback(value, message)] *)
Definition report (progress_callback : option callback) (value : Q) (message : str) : M unit :=
  match progress_callback with
  | Some cb => cb value message
  | None => ret tt
  end.

Definition Q_of_nat (n : nat) : Q := inject_Z (Z.of_nat n).

Definition model_name : str := s "all-MiniLM-L6-v2".

Section Pipeline.
(** The loaded model, an embedding, a batch of embeddings. *)
Context {Model Embedding Tensor : Type}.

Record env : Type := {
  (* fitz.open: the pages of the document, each with the outcome of get_text *)
  fitz_open : str -> exn + list (exn + str);
  (* os.path.join(MODEL_DIR, "all-MiniLM-L6-v2") *)
  model_path : str;
  (* SentenceTransformer('all-MiniLM-L6-v2'): fetch from the hub *)
  st_fetch : str -> exn + Model;
  (* model.save(model_path), and whether a failed save leaves the directory *)
  st_save : Model -> str -> exn + unit;
  failed_save_leaves_path : bool;
  (* SentenceTransformer(model_path): load from disk *)
  st_load : str -> exn + Model;
  (* model.encode(text, convert_to_tensor=True) *)
  encode : Model -> str -> exn + Embedding;
  (* model.encode(texts, convert_to_tensor=True, show_progress_bar=False) *)
  encode_batch : Model -> list str -> exn + Tensor;
  (* util.pytorch_cos_sim(a, b)[0].cpu().numpy() *)
  pytorch_cos_sim : Embedding -> Tensor -> exn + list Q;
  (* scheduling: the main loop calls a callback scheduled inside an except
     block before the worker thread leaves that block *)
  main_loop_first : bool
}.

Variable E : env.

Fixpoint get_texts (pages : list (exn + str)) (text : str) : exn + str :=
  match pages with
  | [] => inr text
  | inl e :: _ => inl e
  | inr page_text :: rest => get_texts rest (text ++ page_text)
  end.

(** [extract_text] has no effect of its own: it returns the text of the
    pages, or raises what PyMuPDF raises. *)
Definition extraction (pdf_path : str) : exn + str :=
  match fitz_open E pdf_path with
  | inl e => inl e
  | inr doc => get_texts doc []
  end.

Definition extract_text (pdf_path : str) : M str :=
  fun st => ([], st, extraction pdf_path).

Definition load_model (progress_callback : option callback) : M Model :=
  exists_ <- path_exists ;;
  if negb exists_ then
    report progress_callback 0.0
      (s "Downloading model for first use. This may take a few minutes...") ;;
    model <- call (Fetch model_name) (st_fetch E model_name) ;;
    try_except
      (call (Save (model_path E)) (st_save E model (model_path E)) ;;
       set_path_exists true)
      (fun e => set_path_exists (failed_save_leaves_path E) ;; raise e) ;;
    report progress_callback 1.0 (s "Model downloaded successfully") ;;
    ret model
  else
    match progress_callback with
    | Some cb =>
        cb 0.0%Q (s "Loading model from disk...") ;;
        for_each (seq 1 10) (fun i =>
          cb (Q_of_nat i / 10)%Q
             (s "Loading model components (" ++ str_of_nat (i * 10) ++ s "%)..."))
    | None => ret tt
    end ;;
    model <- call (Load (model_path E)) (st_load E (model_path E)) ;;
    report progress_callback 1.0 (s "Model loaded successfully") ;;
    ret model.

Definition rank_resumes (resumes : list resume) (job_description : str)
    (model : Model) (progress_callback : option callback)
    : M (list (resume * Q)) :=
  report progress_callback 0.0 (s "Encoding job description...") ;;
  job_embedding <- call (EncodeText job_description) (encode E model job_description) ;;
  report progress_callback 0.2 (s "Encoding resumes...") ;;
  let resume_texts := List.map text resumes in
  resume_embeddings <- call (EncodeBatch resume_texts) (encode_batch E model resume_texts) ;;
  report progress_callback 0.7 (s "Computing similarity scores...") ;;
  cosine_scores <- call CosSim (pytorch_cos_sim E job_embedding resume_embeddings) ;;
  report progress_callback 0.9 (s "Ranking resumes...") ;;
  let ranked_resumes := sorted (@snd resume Q) true (combine resumes cosine_scores) in
  report progress_callback 1.0 (s "Ranking complete") ;;
  ret ranked_resumes.

(** The fields of [EnhancedResumeRankerGUI] the worker reads. *)
Record gui : Type := {
  selected_files : list str;
  preloaded_resume_data : option (list resume)
}.

Definition update_progress (value : Q) (message : str) : M unit :=
  emit (Progress value message).

(** [update_results_display], which shows the first page through
    [update_results_page]. *)
Definition update_results_display (ranked_resumes_data : list (resume * Q)) : M unit :=
  emit (Display ranked_resumes_data) ;;
  match ranked_resumes_data with
  | _ :: _ => update_progress 1.0 (s "Analysis complete.")
  | [] => update_progress 1.0 (s "No results found.")
  end.

Definition handle_error (error_msg : str) : M unit :=
  update_progress 0 (s "Error occurred.") ;;
  emit (ShowError (s "An error occurred during analysis:" ++ nl ++ nl ++ error_msg)).

(** [self.root.after(0, f)]: the main loop calls [f] once; the worker does
    nothing after scheduling it, so the effects of [f] follow the
    worker's in the trace. *)
Definition root_after (f : M unit) : M unit := f.

(** An exception raised by a callback is reported by Tk and goes no
    further. *)
Definition tk_callback (f : M unit) : M unit :=
  try_except f (fun err => emit (CallbackError (str_of_exn err))).

Definition unbound_e : exn :=
  NameError (s "cannot access free variable 'e' where it is not associated with a value in enclosing scope").

(** [self.root.after(0, lambda: f(e))] inside [except Exception as e]: the
    lambda reads [e] when the main loop calls it, and [e] is unbound as
    soon as the worker leaves the except block; the callback finds the
    exception only when the main loop is first. *)
Definition root_after_reading (e : exn) (f : exn -> M unit) : M unit :=
  tk_callback (if main_loop_first E then f e else raise unbound_e).

(** The dictionary appended for a document whose text was extracted. *)
Definition resume_record (pdf_path text : str) : resume :=
  let candidate_name := extract_candidate_name text in
  let normalized_text := normalize_text text in
  {| file_name := basename pdf_path;
     candidate_name :=
       match candidate_name with
       | _ :: _ => candidate_name
       | [] => s "Unknown Name"
       end;
     text := normalized_text;
     full_path := pdf_path |}.

(** One turn of the loop over [enumerate(self.selected_files)]. *)
Definition process_one (total_files : nat) (item : nat * str)
    (resumes : list resume) : M (list resume) :=
  let '(i, pdf_path) := item in
  update_progress (Q_of_nat (i + 1) / Q_of_nat total_files * 0.5)
    (s "Extracting text (" ++ str_of_nat (i + 1) ++ s "/" ++ str_of_nat total_files
       ++ s "): " ++ basename pdf_path) ;;
  try_except
    (text <- extract_text pdf_path ;;
     ret (resumes ++ [resume_record pdf_path text]))
    (fun e =>
       emit (Print (s "Warning: Could not process " ++ basename pdf_path ++ s ": "
                      ++ str_of_exn e)) ;;
       ret resumes).

Definition enumerate {A} (l : list A) : list (nat * A) :=
  combine (seq 0 (List.length l)) l.

(** [f"Job Role: {role}\n\n{description}"] *)
Definition full_job_desc (role description : str) : str :=
  s "Job Role: " ++ role ++ nl ++ nl ++ description.

Definition ranking_progress_callback : callback :=
  fun value message => update_progress (0.5 + value * 0.5) message.

(** The [if]/[else] of the worker that builds [resumes]. *)
Definition gather (self : gui) : M (list resume) :=
  match preloaded_resume_data self with
  | Some ((_ :: _) as data) =>
      update_progress 0.5 (s "Using pre-processed resume data...") ;;
      ret data
  | _ =>
      let total_files := List.length (selected_files self) in
      update_progress 0
        (s "Extracting text (0/" ++ str_of_nat total_files ++ s ")...") ;;
      for_append (enumerate (selected_files self)) [] (process_one total_files)
  end.

(** The body of the [try] of the worker. *)
Definition attempt (self : gui) (role description : str) : M unit :=
  model <- load_model (Some update_progress) ;;
  resumes <- gather self ;;
  match resumes with
  | [] => raise (ValueError (s "No valid resumes could be processed."))
  | _ :: _ =>
      let full_job_desc := full_job_desc role description in
      ranked_resumes_data <-
        rank_resumes resumes full_job_desc model (Some ranking_progress_callback) ;;
      root_after (update_results_display ranked_resumes_data)
  end.

Definition process_resumes_worker (self : gui) (role description : str) : M unit :=
  try_except
    (attempt self role description)
    (fun e => root_after_reading e (fun e => handle_error (str_of_exn e))).
End Pipeline.

Arguments env : clear implicits.

(** ** The two substitutions as direct scans

    What the matcher does on the two patterns of the normaliser, written
    out; the properties are proved on these scans, which are shown to be
    the substitutions above. *)

(** The look-ahead [(?!\S)]. *)
Definition lookahead_not_S (x : str) : bool :=
  match x with
  | [] => true
  | c :: _ => isspace c
  end.

(** The look-behind [(?<!\S)]. *)
Definition start_ok (prev : option char) : bool :=
  match prev with
  | Some c => isspace c
  | None => true
  end.

(** [(?:[A-Z]\s)+(?:[A-Z])(?!\S)] tried at the head of [x]: one pair
    [[A-Z]\s], then greedily the rest of the repetition, and only when no
    longer repetition leads to a match, the closing [[A-Z]] with its
    look-ahead. The result is the matched text and what follows it. *)
Fixpoint match_spaced (x : str) : option (str * str) :=
  match x with
  | u :: w :: t =>
      if is_AZ u && isspace w then
        match match_spaced t with
        | Some (m, r) => Some (u :: w :: m, r)
        | None =>
            match t with
            | u' :: r =>
                if is_AZ u' && lookahead_not_S r then Some ([u; w; u'], r)
                else None
            | [] => None
            end
        end
      else None
  | _ => None
  end.

(** The scan of [remove_spaced_out_words]; [start] is the look-behind at
    the current position. Every step consumes a character, so [length x]
    steps of fuel are enough. *)
Fixpoint sub_spaced (fuel : nat) (start : bool) (x : str) : str :=
  match fuel with
  | O => x
  | S fuel' =>
      match x with
      | [] => []
      | c :: t =>
          match (if start then match_spaced x else None) with
          | Some (m, r) => remove_spaces m ++ sub_spaced fuel' false r
          | None => c :: sub_spaced fuel' (isspace c) t
          end
      end
  end.

Definition despace (start : bool) (x : str) : str :=
  sub_spaced (List.length x) start x.

(** The scan of [re.sub(r'\s+', ' ', text)]; [in_run] tells that the
    previous character was white space, already replaced. *)
Fixpoint sub_whitespace (in_run : bool) (x : str) : str :=
  match x with
  | [] => []
  | c :: t =>
      if isspace c then
        if in_run then sub_whitespace true t else space :: sub_whitespace true t
      else c :: sub_whitespace false t
  end.

(** The two halves of the pattern of spaced-out words. *)
Definition pair_re : regex := Cat (Class is_AZ) (Class isspace).
Definition closing_re : regex := Cat (Class is_AZ) (NotAhead (Class not_space)).

(** ** Notions used in the statements: texts *)

(** Only white space (or nothing). *)
Definition blank (x : str) : bool := forallb isspace x.

Definition ends_in_space (x : str) : bool :=
  match rev x with
  | c :: _ => isspace c
  | [] => false
  end.

(** Every white-space character of [x] is an ASCII space with no white
    space next to it; [after_space] tells that white space precedes [x]. *)
Fixpoint single_spaced (after_space : bool) (x : str) : bool :=
  match x with
  | [] => true
  | c :: t =>
      if isspace c then (c =? space)%N && negb after_space && single_spaced true t
      else single_spaced false t
  end.

(** White space already collapsed: words separated by single ASCII spaces,
    nothing before the first word or after the last. *)
Definition collapsed (x : str) : bool :=
  single_spaced true x && negb (ends_in_space x).

(** Every white-space character of [x] is the ASCII space. *)
Definition space_if_white (c : char) : bool := implb (isspace c) (c =? space)%N.

Definition only_spaces (x : str) : bool := forallb space_if_white x.

(** The pieces between white-space characters, empty ones included. *)
Fixpoint fields (x : str) : list str :=
  match x with
  | [] => [[]]
  | c :: t =>
      if isspace c then [] :: fields t
      else match fields t with
           | w :: ws => (c :: w) :: ws
           | [] => [[c]]
           end
  end.

Definition nonempty (x : str) : bool :=
  match x with [] => false | _ :: _ => true end.

(** [str.split()]: the maximal runs of characters that are not white space. *)
Definition split (x : str) : list str := filter nonempty (fields x).

(** [sep.join(parts)] *)
Fixpoint join (sep : str) (parts : list str) : str :=
  match parts with
  | [] => []
  | p :: ps =>
      match ps with
      | [] => p
      | _ :: _ => p ++ sep ++ join sep ps
      end
  end.

(** Single capitals separated by one white-space character each: the texts
    [(?:[A-Z]\s)+[A-Z]] matches. *)
Inductive spaced_run : str -> Prop :=
| run_end (u w v : char) :
    is_AZ u = true -> isspace w = true -> is_AZ v = true -> spaced_run [u; w; v]
| run_step (u w : char) (m : str) :
    is_AZ u = true -> isspace w = true -> spaced_run m -> spaced_run (u :: w :: m).

(** A spaced run that stops before [r] cannot take one more letter. *)
Definition run_is_maximal (r : str) : Prop :=
  forall w v r', r = w :: v :: r' -> isspace w = true -> is_AZ v = true ->
                 lookahead_not_S r' = false.

(** No spaced run followed by white space or the end starts [x]. *)
Definition no_run_at (x : str) : Prop :=
  forall m r, spaced_run m -> x = m ++ r -> lookahead_not_S r = false.

(** De-spacing as a relation: the text is read from the left; where a word
    may start ([at_start]) and a maximal spaced run stands, bounded by white
    space or the end, the run loses its ASCII spaces; elsewhere the
    character is copied. *)
Inductive despaced : bool -> str -> str -> Prop :=
| ds_nil (at_start : bool) : despaced at_start [] []
| ds_run (m r out : str) :
    spaced_run m -> lookahead_not_S r = true -> run_is_maximal r ->
    despaced false r out ->
    despaced true (m ++ r) (remove_spaces m ++ out)
| ds_copy (at_start : bool) (c : char) (t out : str) :
    (at_start = true -> no_run_at (c :: t)) ->
    despaced (isspace c) t out ->
    despaced at_start (c :: t) (c :: out).

(** ** Notions used in the statements: runs *)

(** The parts of a run. *)
Definition trace_of {A} (run : trace * fs * (exn + A)) : trace := fst (fst run).
Definition state_of {A} (run : trace * fs * (exn + A)) : fs := snd (fst run).
Definition result_of {A} (run : trace * fs * (exn + A)) : exn + A := snd run.

Definition succeeds {A} (r : exn + A) : bool :=
  match r with inr _ => true | inl _ => false end.

(** Kinds of events. *)
Definition is_progress (e : event) : bool :=
  match e with Progress _ _ => true | _ => false end.

Definition is_print (e : event) : bool :=
  match e with Print _ => true | _ => false end.

Definition is_fetch (e : event) : bool :=
  match e with Fetch _ => true | _ => false end.

Definition is_save (e : event) : bool :=
  match e with Save _ => true | _ => false end.

Definition is_load (e : event) : bool :=
  match e with Load _ => true | _ => false end.

Definition is_encode (e : event) : bool :=
  match e with EncodeText _ | EncodeBatch _ => true | _ => false end.

Definition is_cos_sim (e : event) : bool :=
  match e with CosSim => true | _ => false end.

Definition is_display (e : event) : bool :=
  match e with Display _ => true | _ => false end.

Definition is_show_error (e : event) : bool :=
  match e with ShowError _ => true | _ => false end.

Definition is_callback_error (e : event) : bool :=
  match e with CallbackError _ => true | _ => false end.

(** The events of each stage. *)
Definition provisioning_event (e : event) : bool :=
  is_progress e || is_fetch e || is_save e || is_load e.

Definition extraction_event (e : event) : bool := is_progress e || is_print e.

Definition ranking_event (e : event) : bool :=
  is_progress e || is_encode e || is_cos_sim e.


(** Every record of every displayed ranking has a name. *)
Definition displays_names (e : event) : bool :=
  match e with
  | Display ranked => forallb (fun p => nonempty (candidate_name (fst p))) ranked
  | _ => true
  end.

(** The fractions of the progress calls of a trace, in order. *)
Fixpoint fractions (t : trace) : list Q :=
  match t with
  | [] => []
  | Progress value _ :: t' => value :: fractions t'
  | _ :: t' => fractions t'
  end.

Fixpoint nondecreasing (l : list Q) : bool :=
  match l with
  | a :: (b :: _) as l' => Qle_bool a b && nondecreasing l'
  | _ => true
  end.

(** Two sequences of fractions with equal values. *)
Fixpoint same_fractions (l l' : list Q) : bool :=
  match l, l' with
  | [], [] => true
  | a :: l, b :: l' => Qeq_bool a b && same_fractions l l'
  | _, _ => false
  end.

Definition last_is (q : Q) (l : list Q) : bool :=
  match rev l with
  | a :: _ => Qeq_bool a q
  | [] => false
  end.

(** The fractions reported while the model is read from disk, and while
    the files are read. *)
Definition loading_fractions : list Q :=
  0.0%Q :: List.map (fun i => (Q_of_nat i / 10)%Q) (seq 1 10).

Definition extraction_fractions (total_files first count : nat) : list Q :=
  List.map (fun i => (Q_of_nat (i + 1) / Q_of_nat total_files * 0.5)%Q) (seq first count).

(** What the failure sink and the completion sink do. *)
Definition error_events (e : exn) : trace :=
  [Progress 0 (s "Error occurred.");
   ShowError (s "An error occurred during analysis:" ++ nl ++ nl ++ str_of_exn e)].

(** What follows an exception of the worker: the failure sink, or the
    report of the callback that found no exception to read. *)
Definition failure_events {Model Embedding Tensor} (E : env Model Embedding Tensor)
    (e : exn) : trace :=
  if main_loop_first E then error_events e
  else [CallbackError (str_of_exn unbound_e)].

Definition success_events (ranked : list (resume * Q)) : trace :=
  [Display ranked;
   Progress 1.0 (match ranked with
                 | _ :: _ => s "Analysis complete."
                 | [] => s "No results found."
                 end)].

Definition no_valid_resumes : exn :=
  ValueError (s "No valid resumes could be processed.").

(** The documents whose text could be extracted, as records and as raw
    texts, in order, and those that could not. *)
Definition extracted {Model Embedding Tensor} (E : env Model Embedding Tensor)
    (files : list str) : list resume :=
  flat_map (fun pdf_path =>
              match extraction E pdf_path with
              | inr text => [resume_record pdf_path text]
              | inl _ => []
              end) files.


Definition failed {Model Embedding Tensor} (E : env Model Embedding Tensor)
    (files : list str) : list str :=
  filter (fun pdf_path => negb (succeeds (extraction E pdf_path))) files.

(** What [rank_resumes] returns, or raises. *)
Definition ranking {Model Embedding Tensor} (E : env Model Embedding Tensor)
    (resumes : list resume) (job_description : str) (model : Model)
    : exn + list (resume * Q) :=
  match encode E model job_description with
  | inl e => inl e
  | inr job_embedding =>
      match encode_batch E model (List.map text resumes) with
      | inl e => inl e
      | inr resume_embeddings =>
          match pytorch_cos_sim E job_embedding resume_embeddings with
          | inl e => inl e
          | inr cosine_scores =>
              inr (sorted (@snd resume Q) true (combine resumes cosine_scores))
          end
      end
  end.

(** The model scores this batch: both encodings and the similarity return,
    with one score for each record. *)
Definition scored {Model Embedding Tensor} (E : env Model Embedding Tensor)
    (model : Model) (job_description : str) (resumes : list resume) : bool :=
  match encode E model job_description with
  | inl _ => false
  | inr job_embedding =>
      match encode_batch E model (List.map text resumes) with
      | inl _ => false
      | inr resume_embeddings =>
          match pytorch_cos_sim E job_embedding resume_embeddings with
          | inl _ => false
          | inr cosine_scores => List.length cosine_scores =? List.length resumes
          end
      end
  end.

(** ** Data used in the examples *)

Fixpoint str_eqb (x y : str) : bool :=
  match x, y with
  | [], [] => true
  | c :: x', d :: y' => (c =? d)%N && str_eqb x' y'
  | _, _ => false
  end.

Definition cannot_open : exn := LibraryError (s "cannot open broken document").

(** Four documents that can be read (one of them a scan without text) and,
    for any other path, a failure. *)
Definition sample_files (pdf_path : str) : exn + list (exn + str) :=
  if str_eqb pdf_path (s "/cv/ada.pdf") then
    inr [inr (s "A D A   Lovelace" ++ nl ++ s "Analyst")]
  else if str_eqb pdf_path (s "/cv/grace.pdf") then
    inr [inr (s "Grace Hopper"); inr (nl ++ s "Rear admiral")]
  else if str_eqb pdf_path (s "/cv/linus.pdf") then
    inr [inr (nl ++ s "  " ++ nl ++ s "Linus")]
  else if str_eqb pdf_path (s "/cv/scan.pdf") then
    inr [inr []]
  else inl cannot_open.

(** A model whose batch encoding keeps the texts; the similarity of a text
    is its length over 100. *)
Definition sample_env : env unit unit (list str) :=
  {| fitz_open := sample_files;
     model_path := s "/home/user/.resume_ranker/model/all-MiniLM-L6-v2";
     st_fetch := fun _ => inr tt;
     st_save := fun _ _ => inr tt;
     failed_save_leaves_path := false;
     st_load := fun _ => inr tt;
     encode := fun _ _ => inr tt;
     encode_batch := fun _ texts => inr texts;
     pytorch_cos_sim :=
       fun _ texts => inr (List.map (fun x => (Q_of_nat (List.length x) / 100)%Q) texts);
     main_loop_first := true |}.

(** The same with a model directory that cannot be read and a main loop
    that comes late. *)
Definition unlucky_env : env unit unit (list str) :=
  {| fitz_open := sample_files;
     model_path := model_path sample_env;
     st_fetch := fun _ => inr tt;
     st_save := fun _ _ => inr tt;
     failed_save_leaves_path := false;
     st_load := fun _ => inl (LibraryError (s "config.json not found"));
     encode := fun _ _ => inr tt;
     encode_batch := fun _ texts => inr texts;
     pytorch_cos_sim := pytorch_cos_sim sample_env;
     main_loop_first := false |}.

Definition folder (files : list str) : gui :=
  {| selected_files := files; preloaded_resume_data := None |}.

Definition five_files : list str :=
  [s "/cv/ada.pdf"; s "/cv/missing.pdf"; s "/cv/grace.pdf"; s "/cv/broken.pdf";
   s "/cv/linus.pdf"].

Definition sample_role : str := s "Analyst".
Definition sample_description : str := s "Writes programs for the engine.".

Definition named (name : str) : resume :=
  {| file_name := name ++ s ".pdf"; candidate_name := name; text := name;
     full_path := s "/cv/" ++ name ++ s ".pdf" |}.

(** ** The screens

    The two screens of the application keep the ranking, the page shown
    and their inputs in attributes, and show them through widgets. A
    screen is a record of those attributes and of the state of the widgets
    the methods write: the text of a label, whether a button is enabled,
    the children of the frame that lists the results. A method is a
    function on that record; the message boxes it opens are returned
    beside it. Geometry, styles and scroll regions are left out. *)

(** [f"{n}"] for an [int]. *)
Definition str_of_int (n : Z) : str := s (NilZero.string_of_int (Z.to_int n)).

(** [l[start:stop]]: a negative index counts from the end, and both are
    clamped to the list. *)
Definition slice_index (len i : Z) : Z :=
  if (i <? 0)%Z then Z.max (i + len) 0 else Z.min i len.

Definition slice {A} (l : list A) (start stop : Z) : list A :=
  let len := Z.of_nat (List.length l) in
  let lo := slice_index len start in
  let hi := slice_index len stop in
  firstn (Z.to_nat (hi - lo)) (skipn (Z.to_nat lo) l).

(** A message box. *)
Inductive dialog : Type :=
| showwarning (title message : str)
| showerror (title message : str).

(** A child of the frame that lists the results: a message, or the card of
    one entry of the ranking with the rank shown, the colour of the rank
    and of the score, the record (name, file name, path of the preview
    button) and the score the label is formatted from. *)
Inductive item : Type :=
| Label (text : str)
| Card (rank : Z) (color : str) (entry : resume) (score : Q).

(** [_on_mousewheel]: the units passed to [yview_scroll]. *)
Definition scroll_factor (delta : Z) : Z := (-1 * (delta / 120))%Z.

(** How NumPy compares a [numpy.float32] with a Python [float]: before
    NumPy 2 the two are compared as doubles ([legacy]); since NumPy 2 the
    Python [float] is rounded to [float32] first ([weak]). *)
Inductive promotion : Type := legacy | weak.

(** A literal as the comparison sees it: the double next to the decimal,
    or the [float32] next to it. *)
Definition threshold (np : promotion) (double single : Q) : Q :=
  match np with legacy => double | weak => single end.

(** [get_rank_color], the same method in both screens. A score is a
    [numpy.float32]. 0.75 is a [float32]; the double next to 0.60 is below
    it and the [float32] above it; the double next to 0.45 is above it and
    the [float32] below it. *)
Definition get_rank_color (np : promotion) (score : Q) : str :=
  if Qle_bool (threshold np 0.75 0.75) score then s "#107C10"
  else if Qle_bool
            (threshold np (5404319552844595 # 9007199254740992) (5033165 # 8388608))
            score
       then s "#0078D4"
  else if Qle_bool
            (threshold np (8106479329266893 # 18014398509481984) (7549747 # 16777216))
            score
       then s "#FCAA12"
  else s "#D83B01".

(** [self.results_per_page], set to 10 when a screen is created and never
    assigned again. *)
Definition results_per_page : Z := 10.

Module EnhancedResumeRankerGUI.

Record screen : Type := {
  selected_files : list str;
  job_role : str;                      (* the StringVar of the entry *)
  job_desc_text : str;                 (* the content of the Text widget *)
  current_page : Z;
  total_pages : Z;
  all_ranked_resumes : list (resume * Q);
  files_label : str;
  progress_var : Q;
  progress_label : str;
  results_list_frame : list item;
  page_label : str;
  prev_button : bool;                  (* enabled *)
  next_button : bool;
  process_btn : bool
}.

(** Assignments. *)
Definition set_selected_files (files : list str) (text : str) (self : screen) : screen :=
  {| selected_files := files; job_role := job_role self;
     job_desc_text := job_desc_text self; current_page := current_page self;
     total_pages := total_pages self; all_ranked_resumes := all_ranked_resumes self;
     files_label := text; progress_var := progress_var self;
     progress_label := progress_label self;
     results_list_frame := results_list_frame self; page_label := page_label self;
     prev_button := prev_button self; next_button := next_button self;
     process_btn := process_btn self |}.

Definition set_current_page (page : Z) (self : screen) : screen :=
  {| selected_files := selected_files self; job_role := job_role self;
     job_desc_text := job_desc_text self; current_page := page;
     total_pages := total_pages self; all_ranked_resumes := all_ranked_resumes self;
     files_label := files_label self; progress_var := progress_var self;
     progress_label := progress_label self;
     results_list_frame := results_list_frame self; page_label := page_label self;
     prev_button := prev_button self; next_button := next_button self;
     process_btn := process_btn self |}.

Definition set_total_pages (pages : Z) (self : screen) : screen :=
  {| selected_files := selected_files self; job_role := job_role self;
     job_desc_text := job_desc_text self; current_page := current_page self;
     total_pages := pages; all_ranked_resumes := all_ranked_resumes self;
     files_label := files_label self; progress_var := progress_var self;
     progress_label := progress_label self;
     results_list_frame := results_list_frame self; page_label := page_label self;
     prev_button := prev_button self; next_button := next_button self;
     process_btn := process_btn self |}.

Definition set_all_ranked_resumes (ranked : list (resume * Q)) (self : screen) : screen :=
  {| selected_files := selected_files self; job_role := job_role self;
     job_desc_text := job_desc_text self; current_page := current_page self;
     total_pages := total_pages self; all_ranked_resumes := ranked;
     files_label := files_label self; progress_var := progress_var self;
     progress_label := progress_label self;
     results_list_frame := results_list_frame self; page_label := page_label self;
     prev_button := prev_button self; next_button := next_button self;
     process_btn := process_btn self |}.

Definition set_results_list_frame (children : list item) (self : screen) : screen :=
  {| selected_files := selected_files self; job_role := job_role self;
     job_desc_text := job_desc_text self; current_page := current_page self;
     total_pages := total_pages self; all_ranked_resumes := all_ranked_resumes self;
     files_label := files_label self; progress_var := progress_var self;
     progress_label := progress_label self;
     results_list_frame := children; page_label := page_label self;
     prev_button := prev_button self; next_button := next_button self;
     process_btn := process_btn self |}.

Definition set_pagination (text : str) (prev next : bool) (self : screen) : screen :=
  {| selected_files := selected_files self; job_role := job_role self;
     job_desc_text := job_desc_text self; current_page := current_page self;
     total_pages := total_pages self; all_ranked_resumes := all_ranked_resumes self;
     files_label := files_label self; progress_var := progress_var self;
     progress_label := progress_label self;
     results_list_frame := results_list_frame self; page_label := text;
     prev_button := prev; next_button := next;
     process_btn := process_btn self |}.

Definition set_process_btn (enabled : bool) (self : screen) : screen :=
  {| selected_files := selected_files self; job_role := job_role self;
     job_desc_text := job_desc_text self; current_page := current_page self;
     total_pages := total_pages self; all_ranked_resumes := all_ranked_resumes self;
     files_label := files_label self; progress_var := progress_var self;
     progress_label := progress_label self;
     results_list_frame := results_list_frame self; page_label := page_label self;
     prev_button := prev_button self; next_button := next_button self;
     process_btn := enabled |}.

Definition set_job_role (text : str) (self : screen) : screen :=
  {| selected_files := selected_files self; job_role := text;
     job_desc_text := job_desc_text self; current_page := current_page self;
     total_pages := total_pages self; all_ranked_resumes := all_ranked_resumes self;
     files_label := files_label self; progress_var := progress_var self;
     progress_label := progress_label self;
     results_list_frame := results_list_frame self; page_label := page_label self;
     prev_button := prev_button self; next_button := next_button self;
     process_btn := process_btn self |}.

Definition set_job_desc_text (text : str) (self : screen) : screen :=
  {| selected_files := selected_files self; job_role := job_role self;
     job_desc_text := text; current_page := current_page self;
     total_pages := total_pages self; all_ranked_resumes := all_ranked_resumes self;
     files_label := files_label self; progress_var := progress_var self;
     progress_label := progress_label self;
     results_list_frame := results_list_frame self; page_label := page_label self;
     prev_button := prev_button self; next_button := next_button self;
     process_btn := process_btn self |}.

(** [widget.destroy()] for every child, and [widget.pack(...)]. *)
Definition destroy_children (self : screen) : screen := set_results_list_frame [] self.

Definition pack (widget : item) (self : screen) : screen :=
  set_results_list_frame (results_list_frame self ++ [widget]) self.

(** [__init__] and [create_ui]. *)
Definition init : screen :=
  {| selected_files := []; job_role := []; job_desc_text := [];
     current_page := 1; total_pages := 1; all_ranked_resumes := [];
     files_label := s "No files selected";
     progress_var := 0; progress_label := s "Ready";
     results_list_frame := [Label (s "Added resumes will appear here.")];
     page_label := s "Page 1 of 1";
     prev_button := false; next_button := false; process_btn := true |}.

(** [select_resumes]; [files] is what the dialog returns, nothing when it
    is cancelled. *)
Definition select_resumes (files : list str) (self : screen) : screen :=
  match files with
  | [] => self
  | _ :: _ =>
      set_selected_files files
        (str_of_nat (List.length files) ++ s " file(s) selected") self
  end.

Definition update_progress (value : Q) (message : str) (self : screen) : screen :=
  {| selected_files := selected_files self; job_role := job_role self;
     job_desc_text := job_desc_text self; current_page := current_page self;
     total_pages := total_pages self; all_ranked_resumes := all_ranked_resumes self;
     files_label := files_label self; progress_var := (value * 100)%Q;
     progress_label := message;
     results_list_frame := results_list_frame self; page_label := page_label self;
     prev_button := prev_button self; next_button := next_button self;
     process_btn := process_btn self |}.

Definition update_pagination_controls (self : screen) : screen :=
  match all_ranked_resumes self with
  | [] => set_pagination [] false false self
  | _ :: _ =>
      set_pagination
        (s "Page " ++ str_of_int (current_page self) ++ s " of "
           ++ str_of_int (total_pages self))
        (1 <? current_page self)%Z
        (current_page self <? total_pages self)%Z
        self
  end.

Section Promotion.
(** The NumPy the scores come from. *)
Variable np : promotion.

(** The card packed for the [i]-th entry of a page. *)
Definition card (start_index : Z) (numbered : nat * (resume * Q)) : item :=
  let '(i, (resume, score)) := numbered in
  let rank := (start_index + Z.of_nat i + 1)%Z in
  Card rank (get_rank_color np score) resume score.

Definition update_results_page (self : screen) : screen :=
  let self := destroy_children self in
  let self :=
    set_total_pages
      (Z.max 1 ((Z.of_nat (List.length (all_ranked_resumes self))
                 + results_per_page - 1) / results_per_page))
      self in
  let start_index := ((current_page self - 1) * results_per_page)%Z in
  let end_index := (start_index + results_per_page)%Z in
  let resumes_to_display := slice (all_ranked_resumes self) start_index end_index in
  let self :=
    match all_ranked_resumes self with
    | _ :: _ => update_progress 1.0 (s "Analysis complete.") self
    | [] => update_progress 1.0 (s "No results found.") self
    end in
  let self :=
    match resumes_to_display, (current_page self =? 1)%Z with
    | [], true => pack (Label (s "No matching results found.")) self
    | _, _ =>
        fold_left (fun self numbered => pack (card start_index numbered) self)
          (enumerate resumes_to_display) self
    end in
  let self := update_pagination_controls self in
  set_process_btn true self.

Definition update_results_display (ranked_resumes_data : list (resume * Q))
    (self : screen) : screen :=
  let self := set_all_ranked_resumes ranked_resumes_data self in
  let self := set_current_page 1 self in
  update_results_page self.

Definition next_page (self : screen) : screen :=
  if (current_page self <? total_pages self)%Z then
    update_results_page (set_current_page (current_page self + 1) self)
  else self.

Definition prev_page (self : screen) : screen :=
  if (1 <? current_page self)%Z then
    update_results_page (set_current_page (current_page self - 1) self)
  else self.

Definition refresh_results (self : screen) : screen :=
  match all_ranked_resumes self with
  | _ :: _ => update_results_page self
  | [] =>
      pack (Label (s "Results will appear here after analysis."))
        (destroy_children self)
  end.

Definition handle_error (error_msg : str) (self : screen) : list dialog * screen :=
  let self := update_progress 0 (s "Error occurred.") self in
  let box :=
    showerror (s "Analysis Error")
      (s "An error occurred during analysis:" ++ nl ++ nl ++ error_msg) in
  let self := set_all_ranked_resumes [] self in
  let self := set_current_page 1 self in
  let self := update_pagination_controls self in
  let self := pack (Label (s "Error: " ++ error_msg)) self in
  ([box], set_process_btn true self).

(** [self.job_desc_text.get(1.0, tk.END)]: the content and the newline a
    Text widget ends with. *)
Definition job_desc_text_get (self : screen) : str := job_desc_text self ++ nl.

(** [process_resumes_thread]: the message box shown, the screen
    afterwards, and the arguments of the worker when a thread is
    started. *)
Definition process_resumes_thread (self : screen)
    : list dialog * screen * option (str * str) :=
  match selected_files self with
  | [] =>
      ([showwarning (s "Input Required") (s "Please select resume files first.")],
       self, None)
  | _ :: _ =>
      let role := job_role self in
      let description := job_desc_text_get self in
      match strip role with
      | [] =>
          ([showwarning (s "Input Required") (s "Please enter the Job Role.")],
           self, None)
      | _ :: _ =>
          match strip description with
          | [] =>
              ([showwarning (s "Input Required")
                  (s "Please enter the Job Description.")],
               self, None)
          | _ :: _ =>
              let self := destroy_children self in
              let self := set_current_page 1 self in
              let self := set_all_ranked_resumes [] self in
              let self := update_pagination_controls self in
              let self := pack (Label (s "Analyzing...")) self in
              let self := update_progress 0 (s "Initializing analysis...") self in
              let self := set_process_btn false self in
              ([], self, Some (role, description))
          end
      end
  end.

(** What happens to a screen: the user edits the inputs and presses
    buttons, whose commands [create_ui] binds and which Tk calls only
    while the button is enabled; the worker reports progress and hands
    over a ranking or an error. *)
Inductive action : Type :=
| select (files : list str)
| type_role (text : str)
| type_description (text : str)
| analyze
| progress (value : Q) (message : str)
| results (ranked_resumes_data : list (resume * Q))
| failure (error_msg : str)
| next
| previous
| back_to_results.

Definition step (a : action) (self : screen) : screen :=
  match a with
  | select files => select_resumes files self
  | type_role text => set_job_role text self
  | type_description text => set_job_desc_text text self
  | analyze => if process_btn self then snd (fst (process_resumes_thread self)) else self
  | progress value message => update_progress value message self
  | results ranked_resumes_data => update_results_display ranked_resumes_data self
  | failure error_msg => snd (handle_error error_msg self)
  | next => if next_button self then next_page self else self
  | previous => if prev_button self then prev_page self else self
  | back_to_results => refresh_results self
  end.

Definition run (actions : list action) (self : screen) : screen :=
  fold_left (fun self a => step a self) actions self.

End Promotion.

End EnhancedResumeRankerGUI.

Module IndividualResumeScreen.

(** The attributes [select_pdf] and [add_resume] read and write, and of
    the widgets they write the two labels and the process button; the
    cards they pack in the list of resumes are left out. *)
Record screen : Type := {
  candidate_name_var : str;            (* self.candidate_name, a StringVar *)
  selected_file : option str;
  resume_list : list resume;
  file_label : str;
  counter_label : str;
  process_btn : bool
}.

(** [__init__] and [create_ui]. *)
Definition init : screen :=
  {| candidate_name_var := []; selected_file := None; resume_list := [];
     file_label := s "No file selected";
     counter_label := s "Resumes added: 0";
     process_btn := false |}.

(** The user types a name in the entry bound to [self.candidate_name]. *)
Definition type_name (name : str) (self : screen) : screen :=
  {| candidate_name_var := name; selected_file := selected_file self;
     resume_list := resume_list self; file_label := file_label self;
     counter_label := counter_label self; process_btn := process_btn self |}.

(** [select_pdf]; [file_path] is what the dialog returns, the empty string
    when it is cancelled. *)
Definition select_pdf (file_path : str) (self : screen) : screen :=
  match file_path with
  | [] => self
  | _ :: _ =>
      {| candidate_name_var := candidate_name_var self;
         selected_file := Some file_path;
         resume_list := resume_list self;
         file_label := basename file_path;
         counter_label := counter_label self; process_btn := process_btn self |}
  end.

Section Adding.
Context {Model Embedding Tensor : Type}.
Variable E : env Model Embedding Tensor.

(** [add_resume]. Of the [try] block only [extract_text] is taken to
    raise; the record is appended after it returned. *)
Definition add_resume (self : screen) : list dialog * screen :=
  let name := strip (candidate_name_var self) in
  match name with
  | [] =>
      ([showwarning (s "Input Required") (s "Please enter a candidate name.")], self)
  | _ :: _ =>
      match selected_file self with
      | None | Some [] =>
          ([showwarning (s "File Required") (s "Please select a PDF resume file.")],
           self)
      | Some ((_ :: _) as path) =>
          match extraction E path with
          | inr text =>
              let normalized_text := normalize_text text in
              let resume_info :=
                {| candidate_name := name;
                   full_path := path;
                   file_name := basename path;
                   text := normalized_text |} in
              let resume_list := resume_list self ++ [resume_info] in
              ([],
               {| candidate_name_var := [];
                  selected_file := None;
                  resume_list := resume_list;
                  file_label := s "No file selected";
                  counter_label :=
                    s "Resumes added: " ++ str_of_nat (List.length resume_list);
                  process_btn :=
                    match resume_list with
                    | _ :: _ => true
                    | [] => process_btn self
                    end |})
          | inl e =>
              ([showerror (s "Error")
                  (s "Failed to process the PDF file:" ++ nl ++ str_of_exn e)],
               self)
          end
      end
  end.

(** What the user does on the left of the screen: type a name, choose a
    file in the dialog, press Add Resume. *)
Inductive edit : Type :=
| typing (name : str)
| selecting (file_path : str)
| adding.

Definition perform (e : edit) (self : screen) : screen :=
  match e with
  | typing name => type_name name self
  | selecting file_path => select_pdf file_path self
  | adding => snd (add_resume self)
  end.

Definition edits (l : list edit) (self : screen) : screen :=
  fold_left (fun self e => perform e self) l self.

(** The body of the [try] of [process_resumes_worker]; [resumes] is
    [self.resume_list] as the worker reads it. The sinks are those of the
    other screen, with the same messages. *)
Definition attempt (resumes : list resume) (role description : str) : M unit :=
  model <- load_model E (Some update_progress) ;;
  update_progress 0.5 (s "Processing resumes...") ;;
  match resumes with
  | [] => raise (ValueError (s "No valid resumes could be processed."))
  | _ :: _ =>
      let full_job_desc := full_job_desc role description in
      ranked_resumes_data <-
        rank_resumes E resumes full_job_desc model (Some ranking_progress_callback) ;;
      root_after (update_results_display ranked_resumes_data)
  end.

Definition process_resumes_worker (resumes : list resume) (role description : str)
    : M unit :=
  try_except
    (attempt resumes role description)
    (fun e => root_after_reading E e (fun e => handle_error (str_of_exn e))).
End Adding.

End IndividualResumeScreen.
(** ** Notions used in the statements: pages *)

(** The number of pages a ranking of [n] entries needs. *)
Definition pages_needed (n : nat) : Z :=
  Z.max 1 ((Z.of_nat n + results_per_page - 1) / results_per_page).

(** The entries of a page, and their cards: the rank of a card is the
    position of its entry in the whole ranking, counted from 1. *)
Definition page_entries (ranked : list (resume * Q)) (page : Z) : list (resume * Q) :=
  firstn 10 (skipn (Z.to_nat ((page - 1) * 10)) ranked).

Definition ranked_card (np : promotion) (numbered : nat * (resume * Q)) : item :=
  Card (Z.of_nat (fst numbered) + 1) (get_rank_color np (snd (snd numbered)))
    (fst (snd numbered)) (snd (snd numbered)).

Definition cards_from (np : promotion) (first : nat) (entries : list (resume * Q))
    : list item :=
  List.map (ranked_card np) (combine (seq first (List.length entries)) entries).

Definition cards_of_page (np : promotion) (ranked : list (resume * Q)) (page : Z)
    : list item :=
  cards_from np (Z.to_nat ((page - 1) * 10)) (page_entries ranked page).

(** The screen once [page] of [ranked] is shown. *)
Definition showing (np : promotion) (ranked : list (resume * Q)) (page : Z)
    (self : EnhancedResumeRankerGUI.screen) : EnhancedResumeRankerGUI.screen :=
  EnhancedResumeRankerGUI.update_results_page np
    (EnhancedResumeRankerGUI.set_current_page page
       (EnhancedResumeRankerGUI.set_all_ranked_resumes ranked self)).

(** How good a match a colour stands for. *)
Definition match_level (color : str) : nat :=
  if str_eqb color (s "#107C10") then 3
  else if str_eqb color (s "#0078D4") then 2
  else if str_eqb color (s "#FCAA12") then 1
  else 0.

(** What every method keeps: the page is at least 1; with no ranking it is
    1 and both page buttons are disabled; with a ranking the page count is
    that of the ranking and the page is within it; an enabled button has a
    page to go to. *)
Definition pages_consistent (self : EnhancedResumeRankerGUI.screen) : Prop :=
  (1 <= EnhancedResumeRankerGUI.current_page self)%Z /\
  (EnhancedResumeRankerGUI.all_ranked_resumes self = [] ->
   EnhancedResumeRankerGUI.current_page self = 1%Z /\ EnhancedResumeRankerGUI.prev_button self = false /\ EnhancedResumeRankerGUI.next_button self = false) /\
  (EnhancedResumeRankerGUI.all_ranked_resumes self <> [] ->
   EnhancedResumeRankerGUI.total_pages self = pages_needed (List.length (EnhancedResumeRankerGUI.all_ranked_resumes self)) /\
   (EnhancedResumeRankerGUI.current_page self <= EnhancedResumeRankerGUI.total_pages self)%Z) /\
  (EnhancedResumeRankerGUI.next_button self = true -> (EnhancedResumeRankerGUI.current_page self < EnhancedResumeRankerGUI.total_pages self)%Z) /\
  (EnhancedResumeRankerGUI.prev_button self = true -> (1 < EnhancedResumeRankerGUI.current_page self)%Z).

(** ** Notions used in the statements: added resumes *)

(** A record as [add_resume] builds them: a name that is not empty and has
    no white space at either end, a text with its white space collapsed,
    the file name of its path. *)
Definition well_formed (r : resume) : bool :=
  nonempty (candidate_name r) && str_eqb (strip (candidate_name r)) (candidate_name r)
  && collapsed (text r) && str_eqb (file_name r) (basename (full_path r))
  && nonempty (full_path r).

Definition nonempty_list {A} (l : list A) : bool :=
  match l with [] => false | _ :: _ => true end.

(** Every record of every displayed ranking satisfies [P]. *)
Definition displays (P : resume -> bool) (e : event) : bool :=
  match e with
  | Display ranked => forallb (fun p => P (fst p)) ranked
  | _ => true
  end.

(** What the left of the screen keeps: well-formed records, a counter that
    shows their number, a process button enabled once there is a record,
    and a selected file that is a path. *)
Definition adding_consistent (self : IndividualResumeScreen.screen) : Prop :=
  forallb well_formed (IndividualResumeScreen.resume_list self) = true /\
  IndividualResumeScreen.counter_label self = s "Resumes added: " ++ str_of_nat (List.length (IndividualResumeScreen.resume_list self)) /\
  IndividualResumeScreen.process_btn self = nonempty_list (IndividualResumeScreen.resume_list self) /\
  IndividualResumeScreen.selected_file self <> Some [].

(** ** Notions used in the statements: extraction *)

(** The texts of the pages that could be read, and the first failure. *)
Definition page_texts (doc : list (exn + str)) : list str :=
  flat_map (fun page => match page with inr page_text => [page_text] | inl _ => [] end) doc.

Fixpoint first_failure (doc : list (exn + str)) : option exn :=
  match doc with
  | [] => None
  | inl e :: _ => Some e
  | inr _ :: rest => first_failure rest
  end.

(** [x] is a piece of [y]. *)
Definition part_of (x y : str) : Prop := exists before after, y = before ++ x ++ after.

Definition not_progress (e : event) : bool := negb (is_progress e).

(** The record comes from one of [files]. *)
Definition from_files (files : list str) (r : resume) : bool :=
  existsb (str_eqb (full_path r)) files && str_eqb (file_name r) (basename (full_path r)).

(** What the label beside the upload button says of a selection. *)
Definition selection_text (files : list str) : str :=
  match files with
  | [] => s "No files selected"
  | _ :: _ => str_of_nat (List.length files) ++ s " file(s) selected"
  end.

(** ** Further data used in the examples *)

(** Twelve entries for the examples of the pages: the names 0 to 11 with
    the scores 0.88, 0.81, ..., 0.11. *)
Definition twelve_ranked : list (resume * Q) :=
  List.map (fun i => (named (str_of_nat i), (Q_of_nat (88 - 7 * i) / 100)%Q)) (seq 0 12).

(** A screen with three files selected and both inputs filled in, and the
    same with a blank role. *)
Definition ready_screen : EnhancedResumeRankerGUI.screen :=
  EnhancedResumeRankerGUI.set_job_desc_text (s "Writes programs for the engine.")
    (EnhancedResumeRankerGUI.set_job_role (s "Analyst")
       (EnhancedResumeRankerGUI.select_resumes [s "/cv/ada.pdf"; s "/cv/grace.pdf"; s "/cv/linus.pdf"] EnhancedResumeRankerGUI.init)).

(** The individual screen after a name was typed and a file chosen. *)
Definition ada_typed : IndividualResumeScreen.screen :=
  IndividualResumeScreen.select_pdf (s "/cv/ada.pdf")
    (IndividualResumeScreen.type_name (s "  Ada Lovelace ") IndividualResumeScreen.init).

(** A machine without network: the hub cannot be reached. *)
Definition offline_env : env unit unit (list str) :=
  {| fitz_open := sample_files;
     model_path := model_path sample_env;
     st_fetch := fun _ => inl (LibraryError (s "cannot reach the hub"));
     st_save := fun _ _ => inr tt;
     failed_save_leaves_path := false;
     st_load := fun _ => inr tt;
     encode := fun _ _ => inr tt;
     encode_batch := fun _ texts => inr texts;
     pytorch_cos_sim := pytorch_cos_sim sample_env;
     main_loop_first := true |}.

(** A similarity that returns the score of the first text only. *)
Definition short_env : env unit unit (list str) :=
  {| fitz_open := sample_files;
     model_path := model_path sample_env;
     st_fetch := fun _ => inr tt;
     st_save := fun _ _ => inr tt;
     failed_save_leaves_path := false;
     st_load := fun _ => inr tt;
     encode := fun _ _ => inr tt;
     encode_batch := fun _ texts => inr texts;
     pytorch_cos_sim :=
       fun _ texts =>
         inr (firstn 1 (List.map (fun x => (Q_of_nat (List.length x) / 100)%Q) texts));
     main_loop_first := true |}.

(** A similarity that returns the three scores of the example of the
    specification. *)
Definition tied_env : env unit unit (list str) :=
  {| fitz_open := sample_files;
     model_path := model_path sample_env;
     st_fetch := fun _ => inr tt;
     st_save := fun _ _ => inr tt;
     failed_save_leaves_path := false;
     st_load := fun _ => inr tt;
     encode := fun _ _ => inr tt;
     encode_batch := fun _ texts => inr texts;
     pytorch_cos_sim := fun _ _ => inr [0.5714%Q; 0.9%Q; 0.5714%Q];
     main_loop_first := true |}.

(** Two resumes added one by one. *)
Definition two_added : list IndividualResumeScreen.edit :=
  [IndividualResumeScreen.typing (s " Ada ");
   IndividualResumeScreen.selecting (s "/cv/ada.pdf");
   IndividualResumeScreen.adding;
   IndividualResumeScreen.typing (s "Grace");
   IndividualResumeScreen.selecting (s "/cv/grace.pdf");
   IndividualResumeScreen.adding].

(** ** The 3D view of [desktop_visualization.py]

    The window reads a JSON file of candidates with four scores each and
    plots them. The values of the file are Python objects of any JSON
    type, and the code subscripts, multiplies, compares and slices them
    without checking the type: the operations below do what Python does on
    each type, raising where Python raises. Numbers are rationals: the
    rounding of floating point numbers is left out, and so are the [NaN]
    and [Infinity] that [json.load] accepts. *)

Module ResumeVisualizationApp.

(** What [json.load] returns. An object is a [dict]: its keys are
    distinct. *)
#[warnings="-register-all"]
Inductive json : Type :=
| JNull
| JBool (b : bool)
| JNum (q : Q)
| JStr (x : str)
| JArr (items : list json)
| JObj (members : list (str * json)).

Inductive error : Type :=
| FileError (msg : str)          (* open, json.load *)
| KeyError (key : str)
| TypeError
| ValueError
| AttributeError
| Unsliceable.     (* a slice of a dict: a TypeError or a KeyError, by version *)

Fixpoint lookup (key : str) (members : list (str * json)) : option json :=
  match members with
  | [] => None
  | (k, v) :: rest => if str_eqb k key then Some v else lookup key rest
  end.

(** [item[key]] with a string key: only a [dict] can be subscripted so. *)
Definition getitem (item : json) (key : str) : error + json :=
  match item with
  | JObj members =>
      match lookup key members with
      | Some v => inr v
      | None => inl (KeyError key)
      end
  | _ => inl TypeError
  end.

Fixpoint assign (key : str) (v : json) (members : list (str * json))
    : list (str * json) :=
  match members with
  | [] => [(key, v)]
  | (k, w) :: rest =>
      if str_eqb k key then (k, v) :: rest else (k, w) :: assign key v rest
  end.

(** [item[key] = v] *)
Definition setitem (item : json) (key : str) (v : json) : error + json :=
  match item with
  | JObj members => inr (JObj (assign key v members))
  | _ => inl TypeError
  end.

(** [max(0, y)] is [y] when [y > 0] and 0 otherwise; [min(100, m)] is [m]
    when [m < 100] and 100 otherwise. *)
Definition max_0 (y : Q) : Q := if Qlt_bool 0 y then y else 0%Q.
Definition min_100 (m : Q) : Q := if Qlt_bool m 100 then m else 100%Q.

(** [min(100, max(0, v * 100))]: a number is scaled and clamped, a boolean
    counts as 0 or 1; a string or a list times 100 is a string or a list,
    which [max] cannot compare with 0; [None] and a [dict] cannot be
    multiplied. *)
Definition percent (v : json) : error + json :=
  match v with
  | JNum q => inr (JNum (min_100 (max_0 (q * 100)%Q)))
  | JBool b => inr (JNum (min_100 (max_0 ((if b then 1 else 0) * 100)%Q)))
  | _ => inl TypeError
  end.

(** [v[:20] + '...' if len(v) > 20 else v], which reads
    [(v[:20] + '...') if len(v) > 20 else v]: [len] is defined on strings,
    lists and dicts; a long list cannot be concatenated with a string and
    a dict cannot be sliced. *)
Definition truncate (v : json) : error + json :=
  match v with
  | JStr x =>
      if 20 <? List.length x then inr (JStr (firstn 20 x ++ s "...")) else inr v
  | JArr items => if 20 <? List.length items then inl TypeError else inr v
  | JObj members => if 20 <? List.length members then inl Unsliceable else inr v
  | _ => inl TypeError
  end.

(** [item[key] = f(item[key])] *)
Definition update (f : json -> error + json) (key : str) (item : json)
    : error + json :=
  match getitem item key with
  | inl e => inl e
  | inr v =>
      match f v with
      | inl e => inl e
      | inr v' => setitem item key v'
      end
  end.

Definition and_then (r : error + json) (k : json -> error + json) : error + json :=
  match r with
  | inl e => inl e
  | inr v => k v
  end.

(** The body of the loop of [load_data]. *)
Definition convert (item : json) : error + json :=
  and_then (update percent (s "transformer_score") item) (fun item =>
  and_then (update percent (s "tfidf_score") item) (fun item =>
  and_then (update percent (s "section_score") item) (fun item =>
  and_then (update percent (s "combined_score") item) (fun item =>
  update truncate (s "candidate_name") item)))).

(** [for item in data]: the elements of a list, the keys of a dict, the
    characters of a string; the rest cannot be iterated. *)
Definition iterate (data : json) : error + list json :=
  match data with
  | JArr items => inr items
  | JObj members => inr (List.map (fun member => JStr (fst member)) members)
  | JStr x => inr (List.map (fun c => JStr [c]) x)
  | _ => inl TypeError
  end.

Fixpoint convert_all (items : list json) : error + list json :=
  match items with
  | [] => inr []
  | item :: rest =>
      match convert item with
      | inl e => inl e
      | inr item' =>
          match convert_all rest with
          | inl e => inl e
          | inr rest' => inr (item' :: rest')
          end
      end
  end.

(** [len(data)] where it is defined. *)
Definition len (data : json) : nat :=
  match data with
  | JArr items => List.length items
  | JObj members => List.length members
  | JStr x => List.length x
  | _ => 0
  end.

(** [not data] *)
Definition falsy (data : json) : bool :=
  match data with
  | JNull => true
  | JBool b => negb b
  | JNum q => Qeq_bool q 0
  | JStr [] => true
  | JArr [] => true
  | JObj [] => true
  | _ => false
  end.

(** The items of the colour menu, and [currentText().lower().replace(' ',
    '_')] on each. *)
Inductive metric : Type :=
| TransformerScore | TFIDFScore | SectionScore | CombinedScore.

Definition color_metric (m : metric) : str :=
  match m with
  | TransformerScore => s "transformer_score"
  | TFIDFScore => s "tfidf_score"
  | SectionScore => s "section_score"
  | CombinedScore => s "combined_score"
  end.

(** A line of the information panel; a sample line is formatted from the
    name and the four scores of its item. *)
Inductive line : Type :=
| Loaded (candidates : nat)
| ErrorLoading (e : error)
| NoData
| NoMatch
| Displaying (candidates : nat)
| Threshold (score_threshold : Z)
| ColorMetric (key : str)
| SearchTerm (search_term : str)
| SampleHeader
| Sample (name transformer tfidf section combined : json).

(** A row of the colour array: red, green, blue, alpha. A channel that is
    the quotient 0/0 is not a number: [None]. *)
Definition rgba : Type := option Q * option Q * Q * Q.

(** The window: the loaded data, the lines of the information panel, the
    three controls and what the scatter plot was last given. *)
Record window : Type := {
  data : json;
  info_text : list line;
  score_slider : Z;
  color_combo : metric;
  search_input : str;
  scatter_pos : list (Q * Q * Q);
  scatter_color : option (list rgba)      (* [None]: the default colour *)
}.

Definition set_data (d : json) (lines : list line) (self : window) : window :=
  {| data := d; info_text := lines; score_slider := score_slider self;
     color_combo := color_combo self; search_input := search_input self;
     scatter_pos := scatter_pos self; scatter_color := scatter_color self |}.

Definition set_info_text (lines : list line) (self : window) : window :=
  {| data := data self; info_text := lines; score_slider := score_slider self;
     color_combo := color_combo self; search_input := search_input self;
     scatter_pos := scatter_pos self; scatter_color := scatter_color self |}.

Definition set_scatter (pos : list (Q * Q * Q)) (color : list rgba)
    (self : window) : window :=
  {| data := data self; info_text := info_text self;
     score_slider := score_slider self;
     color_combo := color_combo self; search_input := search_input self;
     scatter_pos := pos; scatter_color := Some color |}.

(** [load_data]; [file] is what opening and decoding the file gives. When
    the loop goes through, the items of a list have been replaced one by
    one; an empty dict or string is left as it is. Every exception is
    caught. *)
Definition load_data (file : error + json) (self : window) : window :=
  let attempt :=
    match file with
    | inl e => inl e
    | inr loaded =>
        match iterate loaded with
        | inl e => inl e
        | inr items =>
            match convert_all items with
            | inl e => inl e
            | inr items' =>
                inr (match loaded with JArr _ => JArr items' | _ => loaded end)
            end
        end
    end in
  match attempt with
  | inr loaded => set_data loaded (info_text self ++ [Loaded (len loaded)]) self
  | inl e => set_data (JArr []) (info_text self ++ [ErrorLoading e]) self
  end.

(** [needle in text] for strings. *)
Fixpoint starts_with (needle text : str) : bool :=
  match needle, text with
  | [], _ => true
  | c :: needle', d :: text' => (c =? d)%N && starts_with needle' text'
  | _ :: _, [] => false
  end.

Fixpoint contains (needle text : str) : bool :=
  starts_with needle text ||
  match text with
  | [] => false
  | _ :: text' => contains needle text'
  end.

(** [v >= score_threshold] *)
Definition at_least (score_threshold : Z) (v : json) : error + bool :=
  match v with
  | JNum q => inr (Qle_bool (inject_Z score_threshold) q)
  | JBool b => inr (Qle_bool (inject_Z score_threshold) (if b then 1 else 0)%Q)
  | _ => inl TypeError
  end.

(** [[item for item in items if keep(item)]], where [keep] may raise. *)
Fixpoint comprehension (keep : json -> error + bool) (items : list json)
    : error + list json :=
  match items with
  | [] => inr []
  | item :: rest =>
      match keep item with
      | inl e => inl e
      | inr b =>
          match comprehension keep rest with
          | inl e => inl e
          | inr rest' => inr (if b then item :: rest' else rest')
          end
      end
  end.

Definition scores_enough (score_threshold : Z) (item : json) : error + bool :=
  match getitem item (s "combined_score") with
  | inl e => inl e
  | inr v => at_least score_threshold v
  end.

(** [[item[key] for item in items]] *)
Fixpoint column (key : str) (items : list json) : error + list json :=
  match items with
  | [] => inr []
  | item :: rest =>
      match getitem item key with
      | inl e => inl e
      | inr v =>
          match column key rest with
          | inl e => inl e
          | inr vs => inr (v :: vs)
          end
      end
  end.

(** The list of the three scores of each item. *)
Fixpoint rows (items : list json) : error + list (json * json * json) :=
  match items with
  | [] => inr []
  | item :: rest =>
      match getitem item (s "transformer_score") with
      | inl e => inl e
      | inr x =>
      match getitem item (s "tfidf_score") with
      | inl e => inl e
      | inr y =>
      match getitem item (s "section_score") with
      | inl e => inl e
      | inr z =>
      match rows rest with
      | inl e => inl e
      | inr ps => inr ((x, y, z) :: ps)
      end end end end
  end.

(** [np.array] is described on lists of numbers only: what numpy and the
    plot make of booleans, strings, [None], lists and dicts is left
    open. *)
Definition number (v : json) : option Q :=
  match v with JNum q => Some q | _ => None end.

Fixpoint array (values : list json) : option (list Q) :=
  match values with
  | [] => Some []
  | v :: rest =>
      match number v, array rest with
      | Some q, Some qs => Some (q :: qs)
      | _, _ => None
      end
  end.

Fixpoint array3 (entries : list (json * json * json)) : option (list (Q * Q * Q)) :=
  match entries with
  | [] => Some []
  | (x, y, z) :: rest =>
      match number x, number y, number z, array3 rest with
      | Some a, Some b, Some c, Some ps => Some ((a, b, c) :: ps)
      | _, _, _, _ => None
      end
  end.

Definition minimum (first : Q) (l : list Q) : Q :=
  fold_left (fun m q => if Qlt_bool q m then q else m) l first.

Definition maximum (first : Q) (l : list Q) : Q :=
  fold_left (fun m q => if Qlt_bool m q then q else m) l first.

(** [(colors - colors.min()) / (colors.max() - colors.min())]; where the
    largest and the smallest value are the same this is 0/0 on every
    row, which numpy computes to NaN with a warning. *)
Definition normalized (colors : list Q) : list (option Q) :=
  match colors with
  | [] => []
  | first :: rest =>
      let lo := minimum first rest in
      let hi := maximum first rest in
      List.map (fun c => if Qeq_bool hi lo then None else Some ((c - lo) / (hi - lo))%Q)
        colors
  end.

(** [color_array]: red, [1 -] red, 0.5, 1.0. *)
Definition color_row (c : option Q) : rgba :=
  (c, match c with Some q => Some (1 - q)%Q | None => None end, 0.5%Q, 1.0%Q).

(** [f"{v:.1f}"] is defined on numbers, booleans among them. *)
Definition format_1f (v : json) : option error :=
  match v with
  | JNum _ | JBool _ => None
  | JStr _ => Some ValueError
  | _ => Some TypeError
  end.

(** The lines of the sample data points. *)
Fixpoint samples (items : list json) : error + list line :=
  match items with
  | [] => inr []
  | item :: rest =>
      match getitem item (s "candidate_name") with
      | inl e => inl e
      | inr name =>
      match getitem item (s "transformer_score") with
      | inl e => inl e
      | inr t =>
      match format_1f t with
      | Some e => inl e
      | None =>
      match getitem item (s "tfidf_score") with
      | inl e => inl e
      | inr f =>
      match format_1f f with
      | Some e => inl e
      | None =>
      match getitem item (s "section_score") with
      | inl e => inl e
      | inr sec =>
      match format_1f sec with
      | Some e => inl e
      | None =>
      match getitem item (s "combined_score") with
      | inl e => inl e
      | inr c =>
      match format_1f c with
      | Some e => inl e
      | None =>
      match samples rest with
      | inl e => inl e
      | inr ls => inr (Sample name t f sec c :: ls)
      end end end end end end end end end end
  end.

(** How a call of [update_visualization] ends. An exception ends the
    method; the window it leaves behind is not described. *)
Inductive outcome : Type :=
| Returns (self : window)
| Raises (e : error)
| Undescribed.                 (* an array of something else than numbers *)

Section Lower.
(** [str.lower] *)
Variable lower : str -> str.

(** [search_term in item['candidate_name'].lower()]: only a string has
    [lower]. *)
Definition name_matches (search_term : str) (item : json) : error + bool :=
  match getitem item (s "candidate_name") with
  | inl e => inl e
  | inr (JStr name) => inr (contains search_term (lower name))
  | inr _ => inl AttributeError
  end.

(** The two filters of [update_visualization]. *)
Definition filtered_data (score_threshold : Z) (search_term : str)
    (items : list json) : error + list json :=
  match comprehension (scores_enough score_threshold) items with
  | inl e => inl e
  | inr filtered =>
      match search_term with
      | [] => inr filtered
      | _ :: _ => comprehension (name_matches search_term) filtered
      end
  end.

(** [update_visualization]; the three axis labels, which are the same at
    every call, are left out. *)
Definition update_visualization (self : window) : outcome :=
  if falsy (data self) then
    Returns (set_info_text (info_text self ++ [NoData]) self)
  else
    let score_threshold := score_slider self in
    let search_term := lower (search_input self) in
    match iterate (data self) with
    | inl e => Raises e
    | inr items =>
    match filtered_data score_threshold search_term items with
    | inl e => Raises e
    | inr [] => Returns (set_info_text (info_text self ++ [NoMatch]) self)
    | inr ((_ :: _) as filtered) =>
    match rows filtered with
    | inl e => Raises e
    | inr entries =>
    match array3 entries with
    | None => Undescribed
    | Some positions =>
    let key := color_metric (color_combo self) in
    match column key filtered with
    | inl e => Raises e
    | inr values =>
    match array values with
    | None => Undescribed
    | Some colors =>
        let color_array := List.map color_row (normalized colors) in
        match samples (firstn 5 filtered) with
        | inl e => Raises e
        | inr sample_lines =>
            Returns
              (set_info_text
                 ([Displaying (List.length filtered);
                   Threshold score_threshold;
                   ColorMetric key]
                  ++ match search_term with
                     | [] => []
                     | _ :: _ => [SearchTerm search_term]
                     end
                  ++ SampleHeader :: sample_lines)
                 (set_scatter positions color_array self))
        end
    end end end end end end.

(** [__init__]: the controls as they are built, then the file is loaded
    and shown. [data] has no value before [load_data] gives it one. *)
Definition widgets : window :=
  {| data := JNull; info_text := []; score_slider := 0%Z;
     color_combo := TransformerScore; search_input := [];
     scatter_pos := [(0, 0, 0)%Q]; scatter_color := None |}.

Definition init (file : error + json) : outcome :=
  update_visualization (load_data file widgets).
End Lower.

End ResumeVisualizationApp.

(** ** Notions used in the statements: the 3D view *)

Definition score_keys : list str :=
  [s "transformer_score"; s "tfidf_score"; s "section_score"; s "combined_score"].

(** The value of a key of an item satisfies [P]. *)
Definition field (P : ResumeVisualizationApp.json -> bool) (key : str)
    (item : ResumeVisualizationApp.json) : bool :=
  match ResumeVisualizationApp.getitem item key with
  | inr v => P v
  | inl _ => false
  end.

(** A number between 0 and 100. *)
Definition percentage (v : ResumeVisualizationApp.json) : bool :=
  match v with
  | ResumeVisualizationApp.JNum q => Qle_bool 0 q && Qle_bool q 100
  | _ => false
  end.

(** A name as [load_data] leaves it: a string of at most 23 characters, or
    a list or a dict of at most 20 elements. *)
Definition short_name (v : ResumeVisualizationApp.json) : bool :=
  match v with
  | ResumeVisualizationApp.JStr x => List.length x <=? 23
  | ResumeVisualizationApp.JArr items => List.length items <=? 20
  | ResumeVisualizationApp.JObj members => List.length members <=? 20
  | _ => false
  end.

Definition is_string (v : ResumeVisualizationApp.json) : bool :=
  match v with ResumeVisualizationApp.JStr _ => true | _ => false end.

(** An item as [load_data] leaves it. *)
Definition converted (item : ResumeVisualizationApp.json) : bool :=
  forallb (fun key => field percentage key item) score_keys
  && field short_name (s "candidate_name") item.

(** The value under a key, [None] where there is none; the number and
    the text under a key, 0 and the empty text where there is none. *)
Definition value_of (key : str) (item : ResumeVisualizationApp.json)
    : ResumeVisualizationApp.json :=
  match ResumeVisualizationApp.getitem item key with
  | inr v => v
  | inl _ => ResumeVisualizationApp.JNull
  end.

Definition number_of (key : str) (item : ResumeVisualizationApp.json) : Q :=
  match value_of key item with
  | ResumeVisualizationApp.JNum q => q
  | _ => 0
  end.

Definition name_of (item : ResumeVisualizationApp.json) : str :=
  match value_of (s "candidate_name") item with
  | ResumeVisualizationApp.JStr name => name
  | _ => []
  end.

(** The list the window holds, empty when it holds no list. *)
Definition candidates (self : ResumeVisualizationApp.window)
    : list ResumeVisualizationApp.json :=
  match ResumeVisualizationApp.data self with
  | ResumeVisualizationApp.JArr items => items
  | _ => []
  end.

(** A search can be made: there is no search term, or every name is a
    text. *)
Definition searchable (lower : str -> str) (self : ResumeVisualizationApp.window)
    : bool :=
  match lower (ResumeVisualizationApp.search_input self) with
  | [] => true
  | _ :: _ => forallb (field is_string (s "candidate_name")) (candidates self)
  end.

(** Data as [load_data] leaves them. *)
Definition well_loaded (d : ResumeVisualizationApp.json) : bool :=
  match d with
  | ResumeVisualizationApp.JArr items => forallb converted items
  | ResumeVisualizationApp.JObj [] | ResumeVisualizationApp.JStr [] => true
  | _ => false
  end.

(** The candidates the two filters let through: a combined score of at
    least the threshold, and a name that contains the search term, both in
    lower case, when there is a search term. *)
Definition passes (lower : str -> str) (self : ResumeVisualizationApp.window)
    (item : ResumeVisualizationApp.json) : bool :=
  Qle_bool (inject_Z (ResumeVisualizationApp.score_slider self))
    (number_of (s "combined_score") item)
  && match lower (ResumeVisualizationApp.search_input self) with
     | [] => true
     | (_ :: _) as search_term =>
         ResumeVisualizationApp.contains search_term (lower (name_of item))
     end.

(** The point of a candidate and the line of its sample. *)
Definition position (item : ResumeVisualizationApp.json) : Q * Q * Q :=
  (number_of (s "transformer_score") item, number_of (s "tfidf_score") item,
   number_of (s "section_score") item).

Definition sample (item : ResumeVisualizationApp.json) : ResumeVisualizationApp.line :=
  ResumeVisualizationApp.Sample
    (value_of (s "candidate_name") item)
    (ResumeVisualizationApp.JNum (number_of (s "transformer_score") item))
    (ResumeVisualizationApp.JNum (number_of (s "tfidf_score") item))
    (ResumeVisualizationApp.JNum (number_of (s "section_score") item))
    (ResumeVisualizationApp.JNum (number_of (s "combined_score") item)).

(** The lines of the panel when candidates are displayed. *)
Definition panel (lower : str -> str) (self : ResumeVisualizationApp.window)
    (shown : list ResumeVisualizationApp.json) : list ResumeVisualizationApp.line :=
  [ResumeVisualizationApp.Displaying (List.length shown);
   ResumeVisualizationApp.Threshold (ResumeVisualizationApp.score_slider self);
   ResumeVisualizationApp.ColorMetric
     (ResumeVisualizationApp.color_metric (ResumeVisualizationApp.color_combo self))]
  ++ match lower (ResumeVisualizationApp.search_input self) with
     | [] => []
     | (_ :: _) as search_term => [ResumeVisualizationApp.SearchTerm search_term]
     end
  ++ ResumeVisualizationApp.SampleHeader :: List.map sample (firstn 5 shown).

(** A channel of a colour is a number between 0 and 1. *)
Definition in_unit (c : option Q) : Prop :=
  match c with
  | Some q => (0 <= q /\ q <= 1)%Q
  | None => False
  end.

(** ** Data for the examples: the 3D view *)

(** [str.lower] on ASCII letters. *)
Definition ascii_lower (x : str) : str :=
  List.map (fun c => if (65 <=? c)%N && (c <=? 90)%N then (c + 32)%N else c) x.

Definition candidate (name : str) (transformer tfidf section combined : Q)
    : ResumeVisualizationApp.json :=
  ResumeVisualizationApp.JObj
    [(s "candidate_name", ResumeVisualizationApp.JStr name);
     (s "transformer_score", ResumeVisualizationApp.JNum transformer);
     (s "tfidf_score", ResumeVisualizationApp.JNum tfidf);
     (s "section_score", ResumeVisualizationApp.JNum section);
     (s "combined_score", ResumeVisualizationApp.JNum combined)].

Definition results_file : ResumeVisualizationApp.error + ResumeVisualizationApp.json :=
  inr (ResumeVisualizationApp.JArr
         [candidate (s "Ada Lovelace") 0.8 0.5 0.6 0.7;
          candidate (s "Alan Mathison Turing of Maida Vale") 0.9 0.4 0.7 0.75;
          candidate (s "Grace Hopper") 0.3 0.2 0.4 0.3]).

(** The window some time after it has loaded [results_file]: the slider
    is at 50 and a search has been typed. *)
Definition searching : ResumeVisualizationApp.window :=
  {| ResumeVisualizationApp.data :=
       ResumeVisualizationApp.data
         (ResumeVisualizationApp.load_data results_file ResumeVisualizationApp.widgets);
     ResumeVisualizationApp.info_text := [];
     ResumeVisualizationApp.score_slider := 50%Z;
     ResumeVisualizationApp.color_combo := ResumeVisualizationApp.CombinedScore;
     ResumeVisualizationApp.search_input := s "A";
     ResumeVisualizationApp.scatter_pos := [(0, 0, 0)%Q];
     ResumeVisualizationApp.scatter_color := None |}.

(** * Properties *)

(** ** Tactics *)

(** Running a computation of [M] on explicit pieces. *)
Ltac run :=
  cbv [bind path_exists negb update_progress emit for_each seq call report ret
       try_except set_path_exists raise ranking_progress_callback root_after
       update_results_display handle_error trace_of state_of result_of
       fst snd succeeds].

(** A stage whose events are all of some kinds has no event of another
    kind; [no_event] and [no_entry] are the two lemmas saying so. *)
Ltac quiet no_event no_entry :=
  first [ eapply no_event; [|eassumption]
        | eapply no_entry; [|eassumption] ];
  intros [] ?; solve [reflexivity | discriminate].

(** The four ways a run of the worker can go: the model cannot be
    provisioned, no record is gathered, ranking raises, or the ranking is
    displayed. The arguments are the unfolding of the worker and the facts
    on its three stages. *)
Ltac worker_cases unfolding provisioning gathering scoring E self role description st :=
  rewrite (unfolding self role description st);
  let HL := fresh "HL" in
  pose proof (provisioning st) as HL;
  destruct (load_model E (Some update_progress) st) as [[?t1 ?st1] [?e|?model]];
  cbn [trace_of state_of result_of fst snd succeeds] in HL;
  destruct HL as (?Hev1 & ?Hnd1 & ?Hok1);
  [ | match goal with
      | |- context [gather E self ?s1] =>
          let Hg := fresh "Hg" in
          destruct (gathering self s1)
            as (?t2 & ?resumes & Hg & ?Hev2 & (?Hnd2 & ?Hne2) & ?Hres);
          rewrite Hg;
          match type of Hg with
          | _ = (_, _, inr ?rl) =>
              destruct rl as [|?r ?rs];
              [ | match goal with
                  | |- context [rank_resumes E ?l ?job ?m ?cb ?s] =>
                      let HR := fresh "HR" in
                      pose proof (scoring l job m s) as HR;
                      destruct (rank_resumes E l job m cb s)
                        as [[?t3 ?st3] [?e|?ranked]];
                      cbn [trace_of state_of result_of fst snd succeeds] in HR;
                      destruct HR as (?Hres3 & ?Hst3 & ?Hev3 & ?Hnd3 & ?Hok3 & ?Henc3)
                  end ]
          end
      end ];
  cbn [trace_of fst].

(** Evaluates the assignments of a method on a screen given by its
    attributes. *)
Ltac screen_fields :=
  cbv [EnhancedResumeRankerGUI.update_pagination_controls
       EnhancedResumeRankerGUI.set_process_btn
       EnhancedResumeRankerGUI.pack
       EnhancedResumeRankerGUI.update_progress
       EnhancedResumeRankerGUI.set_total_pages
       EnhancedResumeRankerGUI.set_current_page
       EnhancedResumeRankerGUI.set_all_ranked_resumes
       EnhancedResumeRankerGUI.set_selected_files
       EnhancedResumeRankerGUI.set_job_role
       EnhancedResumeRankerGUI.set_job_desc_text
       EnhancedResumeRankerGUI.destroy_children
       EnhancedResumeRankerGUI.set_results_list_frame
       EnhancedResumeRankerGUI.set_pagination
       EnhancedResumeRankerGUI.selected_files
       EnhancedResumeRankerGUI.job_role
       EnhancedResumeRankerGUI.job_desc_text
       EnhancedResumeRankerGUI.current_page
       EnhancedResumeRankerGUI.total_pages
       EnhancedResumeRankerGUI.all_ranked_resumes
       EnhancedResumeRankerGUI.files_label
       EnhancedResumeRankerGUI.progress_var
       EnhancedResumeRankerGUI.progress_label
       EnhancedResumeRankerGUI.results_list_frame
       EnhancedResumeRankerGUI.page_label
       EnhancedResumeRankerGUI.prev_button
       EnhancedResumeRankerGUI.next_button
       EnhancedResumeRankerGUI.process_btn].

(** ** Rationals as booleans *)

Lemma Qlt_bool_iff (a b : Q) : Qlt_bool a b = true <-> (a < b)%Q.
Proof.
  unfold Qlt_bool. rewrite negb_true_iff.
  split; intro H.
  - apply Qnot_le_lt. intro Hle. apply Qle_bool_iff in Hle. congruence.
  - destruct (Qle_bool b a) eqn:Hb; [|reflexivity].
    apply Qle_bool_iff in Hb. exfalso. exact (Qlt_not_le _ _ H Hb).
Qed.

Lemma Qlt_bool_false (a b : Q) : Qlt_bool a b = false <-> (b <= a)%Q.
Proof.
  unfold Qlt_bool. rewrite negb_false_iff. apply Qle_bool_iff.
Qed.

(** ** The ranking order *)

Section SortedProps.
Context {A : Type}.
Variable key : A -> Q.

Lemma insert_perm (x : A) (l : list A) : Permutation (x :: l) (insert key x l).
Proof.
  induction l as [|y l IH]; simpl; [reflexivity|].
  destruct (Qlt_bool (key y) (key x)); [|reflexivity].
  rewrite perm_swap. now constructor.
Qed.

Lemma sort_ascending_perm (l : list A) : Permutation l (sort_ascending key l).
Proof.
  induction l as [|x l IH]; simpl; [constructor|].
  rewrite <- insert_perm. now constructor.
Qed.

Lemma insert_Forall (P : A -> Prop) (x : A) (l : list A) :
  P x -> Forall P l -> Forall P (insert key x l).
Proof.
  intros Hx Hl. eapply Permutation_Forall; [apply insert_perm|]. now constructor.
Qed.

Lemma insert_ascending (x : A) (l : list A) :
  StronglySorted (key_le key) l -> StronglySorted (key_le key) (insert key x l).
Proof.
  induction 1 as [|y l Hs IH Hy]; simpl.
  - repeat constructor.
  - destruct (Qlt_bool (key y) (key x)) eqn:Hlt.
    + apply Qlt_bool_iff in Hlt. constructor; [exact IH|].
      apply insert_Forall; [|exact Hy]. now apply Qlt_le_weak.
    + apply Qlt_bool_false in Hlt. constructor.
      * now constructor.
      * constructor; [exact Hlt|].
        eapply Forall_impl; [|exact Hy].
        intros z Hz. unfold key_le in *. now apply Qle_trans with (key y).
Qed.

Lemma sort_ascending_sorted (l : list A) : StronglySorted (key_le key) (sort_ascending key l).
Proof.
  induction l as [|x l IH]; simpl; [constructor|]. now apply insert_ascending.
Qed.

Lemma insert_stable (q : Q) (x : A) (l : list A) :
  filter (has_key key q) (insert key x l) = filter (has_key key q) (x :: l).
Proof.
  induction l as [|y l IH]; [reflexivity|].
  cbn [insert]. destruct (Qlt_bool (key y) (key x)) eqn:Hlt; [|reflexivity].
  apply Qlt_bool_iff in Hlt.
  cbn [filter] in *. rewrite IH.
  destruct (has_key key q y) eqn:Hy, (has_key key q x) eqn:Hx; try reflexivity.
  unfold has_key in *. apply Qeq_bool_iff in Hy, Hx.
  rewrite Hy, Hx in Hlt. exfalso. exact (Qlt_irrefl _ Hlt).
Qed.

Lemma sort_ascending_stable (q : Q) (l : list A) :
  filter (has_key key q) (sort_ascending key l) = filter (has_key key q) l.
Proof.
  induction l as [|x l IH]; [reflexivity|].
  cbn [sort_ascending]. rewrite insert_stable. cbn [filter]. now rewrite IH.
Qed.

Lemma filter_rev (f : A -> bool) (l : list A) : filter f (rev l) = rev (filter f l).
Proof.
  induction l as [|x l IH]; [reflexivity|].
  cbn [rev filter]. rewrite filter_app, IH. cbn [filter].
  destruct (f x); cbn [rev]; [reflexivity|now rewrite app_nil_r].
Qed.

Lemma StronglySorted_snoc (R : A -> A -> Prop) (l : list A) (x : A) :
  StronglySorted R l -> Forall (fun y => R y x) l -> StronglySorted R (l ++ [x]).
Proof.
  induction 1 as [|y l Hs IH Hy]; intro Hall; simpl.
  - repeat constructor.
  - inversion Hall; subst. constructor; [now apply IH|].
    apply Forall_app. split; [exact Hy|]. now repeat constructor.
Qed.

Lemma StronglySorted_rev (R : A -> A -> Prop) (l : list A) :
  StronglySorted R l -> StronglySorted (fun a b => R b a) (rev l).
Proof.
  induction 1 as [|y l Hs IH Hy]; simpl; [constructor|].
  apply StronglySorted_snoc; [exact IH|].
  apply Forall_rev. exact Hy.
Qed.

Lemma sorted_reverse_perm (l : list A) : Permutation l (sorted key true l).
Proof.
  unfold sorted. rewrite <- Permutation_rev, <- sort_ascending_perm.
  apply Permutation_rev.
Qed.

Lemma sorted_reverse_descending (l : list A) : StronglySorted (key_ge key) (sorted key true l).
Proof.
  unfold sorted. apply (StronglySorted_rev (key_le key)). apply sort_ascending_sorted.
Qed.

Lemma sorted_reverse_stable (q : Q) (l : list A) :
  filter (has_key key q) (sorted key true l) = filter (has_key key q) l.
Proof.
  unfold sorted. rewrite filter_rev, sort_ascending_stable, filter_rev.
  apply rev_involutive.
Qed.
Lemma has_key_refl (x : A) : has_key key (key x) x = true.
Proof. unfold has_key. apply Qeq_bool_iff. reflexivity. Qed.

Lemma filter_head_in (q : Q) (y : A) (l l' : list A) :
  filter (has_key key q) l = y :: l' -> In y l.
Proof.
  intro H. assert (Hin : In y (filter (has_key key q) l)) by (rewrite H; now left).
  apply filter_In in Hin. now destruct Hin.
Qed.

Lemma ascending_head_le (x y : A) (l : list A) :
  StronglySorted (key_le key) (x :: l) -> In y (x :: l) -> (key x <= key y)%Q.
Proof.
  intros Hs [<- | Hin]; [apply Qle_refl|].
  inversion Hs as [|? ? _ Hall]; subst.
  rewrite Forall_forall in Hall. now apply Hall.
Qed.

(** A sorted list is determined by the records of each key, in order:
    every stable sort returns the list [sort_ascending] returns. *)
Lemma stable_sort_unique (l1 l2 : list A) :
  StronglySorted (key_le key) l1 -> StronglySorted (key_le key) l2 ->
  (forall q, filter (has_key key q) l1 = filter (has_key key q) l2) ->
  l1 = l2.
Proof.
  revert l2. induction l1 as [|x l1 IH]; intros [|y l2] H1 H2 H.
  - reflexivity.
  - specialize (H (key y)). cbn [filter] in H. rewrite has_key_refl in H. discriminate.
  - specialize (H (key x)). cbn [filter] in H. rewrite has_key_refl in H. discriminate.
  - assert (Hxy : (key x <= key y)%Q).
    { apply (ascending_head_le x y l1 H1).
      pose proof (H (key y)) as Hy. cbn [filter] in Hy.
      rewrite (has_key_refl y) in Hy.
      destruct (has_key key (key y) x) eqn:Hx.
      - injection Hy as -> _. now left.
      - right. exact (filter_head_in _ _ _ _ Hy). }
    assert (Hyx : (key y <= key x)%Q).
    { apply (ascending_head_le y x l2 H2).
      pose proof (H (key x)) as Hx. cbn [filter] in Hx.
      rewrite (has_key_refl x) in Hx. symmetry in Hx.
      destruct (has_key key (key x) y) eqn:Hy.
      - injection Hx as -> _. now left.
      - right. exact (filter_head_in _ _ _ _ Hx). }
    assert (Heq : x = y).
    { pose proof (H (key x)) as Hx. cbn [filter] in Hx.
      rewrite (has_key_refl x) in Hx.
      assert (Hk : has_key key (key x) y = true).
      { unfold has_key. apply Qeq_bool_iff. now apply Qle_antisym. }
      rewrite Hk in Hx. now injection Hx. }
    subst y. f_equal. apply IH.
    + now inversion H1.
    + now inversion H2.
    + intro q. specialize (H q). cbn [filter] in H.
      destruct (has_key key q x); [now injection H|exact H].
Qed.

Lemma sort_ascending_unique (l l' : list A) :
  StronglySorted (key_le key) l' ->
  (forall q, filter (has_key key q) l' = filter (has_key key q) l) ->
  l' = sort_ascending key l.
Proof.
  intros Hs Hst. apply stable_sort_unique; [exact Hs|apply sort_ascending_sorted|].
  intro q. now rewrite sort_ascending_stable.
Qed.

(** The same for the descending order of [reverse=True]. *)
Lemma sorted_reverse_unique (l l' : list A) :
  StronglySorted (key_ge key) l' ->
  (forall q, filter (has_key key q) l' = filter (has_key key q) l) ->
  l' = sorted key true l.
Proof.
  intros Hs Hst. unfold sorted.
  rewrite <- (rev_involutive l'). f_equal.
  apply sort_ascending_unique.
  - exact (StronglySorted_rev (key_ge key) l' Hs).
  - intro q. now rewrite !filter_rev, Hst.
Qed.
End SortedProps.

(** ** Strings *)

Lemma list_pair_ind {A : Type} (P : list A -> Prop) :
  P [] -> (forall a, P [a]) -> (forall a b l, P l -> P (a :: b :: l)) ->
  forall l, P l.
Proof.
  intros H0 H1 H2.
  assert (H : forall l, P l /\ forall a, P (a :: l)).
  { induction l as [|b l [IH1 IH2]]; split; auto. }
  intro l. apply H.
Qed.

Lemma space_isspace : isspace space = true.
Proof. reflexivity. Qed.

Lemma is_AZ_not_space (c : char) : is_AZ c = true -> isspace c = false.
Proof.
  unfold is_AZ, isspace. intro H.
  apply andb_true_iff in H. destruct H as [H1 H2].
  apply N.leb_le in H1, H2.
  repeat match goal with
  | |- context [(?a <=? ?b)%N] => destruct (N.leb_spec a b); try lia
  | |- context [(?a =? ?b)%N] => destruct (N.eqb_spec a b); try lia
  end; reflexivity.
Qed.

Lemma is_AZ_not_32 (c : char) : is_AZ c = true -> (c =? space)%N = false.
Proof.
  unfold is_AZ, space. intro H.
  apply andb_true_iff in H. destruct H as [H1 H2].
  apply N.leb_le in H1, H2. apply N.eqb_neq. lia.
Qed.

(** ** The scan of [remove_spaced_out_words] *)

Lemma match_spaced_split (x m r : str) :
  match_spaced x = Some (m, r) -> x = m ++ r /\ 2 < List.length m.
Proof.
  revert m r. induction x as [| a | u w t IH] using list_pair_ind; intros m r H;
    try discriminate.
  cbn [match_spaced] in H.
  destruct (is_AZ u && isspace w); [|discriminate].
  destruct (match_spaced t) as [[m' r']|] eqn:Ht.
  - injection H as <- <-. destruct (IH _ _ eq_refl) as [-> Hlen].
    split; [reflexivity|]. simpl. lia.
  - destruct t as [|u' r'']; [discriminate|].
    destruct (is_AZ u' && lookahead_not_S r''); [|discriminate].
    injection H as <- <-. split; [reflexivity|]. simpl. lia.
Qed.

Lemma sub_spaced_fuel (n n' : nat) (b : bool) (x : str) :
  List.length x <= n -> List.length x <= n' -> sub_spaced n b x = sub_spaced n' b x.
Proof.
  revert n' b x. induction n as [|n IH]; intros n' b x Hn Hn'.
  - destruct x; [|simpl in Hn; lia]. destruct n'; reflexivity.
  - destruct n' as [|n'].
    + destruct x; [reflexivity|simpl in Hn'; lia].
    + destruct x as [|c t]; [reflexivity|].
      cbn [sub_spaced].
      destruct (if b then match_spaced (c :: t) else None) as [[m r]|] eqn:Hm.
      * f_equal. destruct b; [|discriminate].
        apply match_spaced_split in Hm. destruct Hm as [Hx Hlen].
        assert (Hl : List.length (c :: t) = List.length m + List.length r)
          by (rewrite Hx; apply length_app).
        simpl in Hn, Hn', Hl. apply IH; lia.
      * f_equal. simpl in Hn, Hn'. apply IH; lia.
Qed.

Lemma despace_nil (b : bool) : despace b [] = [].
Proof. reflexivity. Qed.

Lemma despace_cons (b : bool) (c : char) (t : str) :
  despace b (c :: t) =
  match (if b then match_spaced (c :: t) else None) with
  | Some (m, r) => remove_spaces m ++ despace false r
  | None => c :: despace (isspace c) t
  end.
Proof.
  unfold despace. cbn [List.length sub_spaced].
  destruct (if b then match_spaced (c :: t) else None) as [[m r]|] eqn:Hm;
    [|reflexivity].
  destruct b; [|discriminate].
  apply match_spaced_split in Hm. destruct Hm as [Hx Hlen].
  assert (Hl : List.length (c :: t) = List.length m + List.length r)
    by (rewrite Hx; apply length_app).
  simpl in Hl. f_equal. apply sub_spaced_fuel; lia.
Qed.

(** The scan, as an induction principle: a match found where one may
    start is rewritten, otherwise a character is copied. *)
Lemma despace_ind (P : bool -> str -> str -> Prop) :
  (forall b, P b [] []) ->
  (forall m r,
     match_spaced (m ++ r) = Some (m, r) -> P false r (despace false r) ->
     P true (m ++ r) (remove_spaces m ++ despace false r)) ->
  (forall (b : bool) c t,
     (if b then match_spaced (c :: t) else None) = None ->
     P (isspace c) t (despace (isspace c) t) ->
     P b (c :: t) (c :: despace (isspace c) t)) ->
  forall b x, P b x (despace b x).
Proof.
  intros Hnil Hmatch Hcopy b x.
  remember (List.length x) as n eqn:Hn. revert b x Hn.
  induction n as [n IH] using lt_wf_ind. intros b x Hn.
  destruct x as [|c t]; [apply Hnil|].
  rewrite despace_cons.
  destruct (if b then match_spaced (c :: t) else None) as [[m r]|] eqn:Hm.
  - destruct b; [|discriminate].
    destruct (match_spaced_split _ _ _ Hm) as [Hx Hlen].
    rewrite Hx in *. apply Hmatch; [exact Hm|].
    apply (IH (List.length r)); [|reflexivity].
    rewrite Hn, length_app. lia.
  - apply Hcopy; [exact Hm|].
    apply (IH (List.length t)); [|reflexivity]. rewrite Hn. simpl. lia.
Qed.

Lemma match_spaced_eq (u w : char) (t : str) :
  match_spaced (u :: w :: t) =
  if is_AZ u && isspace w then
    match match_spaced t with
    | Some (m, r) => Some (u :: w :: m, r)
    | None =>
        match t with
        | u' :: r =>
            if is_AZ u' && lookahead_not_S r then Some ([u; w; u'], r) else None
        | [] => None
        end
    end
  else None.
Proof. reflexivity. Qed.

Lemma match_spaced_run (x m r : str) :
  match_spaced x = Some (m, r) -> spaced_run m /\ lookahead_not_S r = true.
Proof.
  revert m r. induction x as [| a | u w t IH] using list_pair_ind; intros m r H;
    try discriminate.
  cbn [match_spaced] in H.
  destruct (is_AZ u && isspace w) eqn:Huw; [|discriminate].
  apply andb_true_iff in Huw. destruct Huw as [Hu Hw].
  destruct (match_spaced t) as [[m' r']|] eqn:Ht.
  - injection H as <- <-. destruct (IH _ _ eq_refl) as [Hrun Hla].
    split; [now constructor|exact Hla].
  - destruct t as [|u' r'']; [discriminate|].
    destruct (is_AZ u' && lookahead_not_S r'') eqn:Hu'; [|discriminate].
    apply andb_true_iff in Hu'. destruct Hu' as [Hu' Hla].
    injection H as <- <-. split; [now constructor|exact Hla].
Qed.

Lemma match_spaced_maximal (x m r : str) :
  match_spaced x = Some (m, r) -> run_is_maximal r.
Proof.
  revert m r. induction x as [| a | u w t IH] using list_pair_ind; intros m r H;
    try discriminate.
  cbn [match_spaced] in H.
  destruct (is_AZ u && isspace w); [|discriminate].
  destruct (match_spaced t) as [[m' r']|] eqn:Ht.
  - injection H as <- <-. now apply (IH m').
  - destruct t as [|u' r'']; [discriminate|].
    destruct (is_AZ u' && lookahead_not_S r'') eqn:Hu'; [|discriminate].
    apply andb_true_iff in Hu'. destruct Hu' as [Hu' Hla].
    injection H as <- <-.
    intros w' v r' -> Hw' Hv.
    rewrite match_spaced_eq, Hu', Hw' in Ht. cbn [andb] in Ht.
    destruct (match_spaced (v :: r')) as [[? ?]|]; [discriminate|].
    rewrite Hv in Ht. cbn [andb] in Ht.
    destruct (lookahead_not_S r'); [discriminate|reflexivity].
Qed.

Lemma match_spaced_none (x : str) : match_spaced x = None -> no_run_at x.
Proof.
  intros Hx m r Hrun. revert x Hx.
  induction Hrun as [u w v Hu Hw Hv | u w m Hu Hw Hrun IH]; intros x Hx ->.
  - cbn [app] in Hx. rewrite match_spaced_eq, Hu, Hw, Hv in Hx. cbn [andb] in Hx.
    destruct (match_spaced (v :: r)) as [[? ?]|]; [discriminate|].
    destruct (lookahead_not_S r); [discriminate|reflexivity].
  - cbn [app] in Hx. rewrite match_spaced_eq, Hu, Hw in Hx. cbn [andb] in Hx.
    destruct (match_spaced (m ++ r)) as [[? ?]|] eqn:Hm; [discriminate|].
    now apply (IH (m ++ r)).
Qed.

(** The scan is the relation. *)
Lemma despace_despaced (b : bool) (x : str) : despaced b x (despace b x).
Proof.
  apply despace_ind.
  - constructor.
  - intros m r Hm Hr.
    destruct (match_spaced_run _ _ _ Hm) as [Hrun Hla].
    constructor; try assumption. exact (match_spaced_maximal _ _ _ Hm).
  - intros b' c t Hm Ht. constructor; [|exact Ht].
    intros ->. now apply match_spaced_none.
Qed.

Lemma remove_spaces_app (x y : str) :
  remove_spaces (x ++ y) = remove_spaces x ++ remove_spaces y.
Proof. apply filter_app. Qed.

Lemma remove_spaces_idem (x : str) : remove_spaces (remove_spaces x) = remove_spaces x.
Proof.
  unfold remove_spaces. induction x as [|c t IH]; [reflexivity|].
  cbn [filter]. destruct (negb (c =? space)%N) eqn:Hc; [|exact IH].
  cbn [filter]. rewrite Hc. now f_equal.
Qed.

(** Only ASCII spaces are ever taken out. *)
Lemma despace_keeps_non_spaces (b : bool) (x : str) :
  remove_spaces (despace b x) = remove_spaces x.
Proof.
  apply despace_ind with (P := fun _ x out => remove_spaces out = remove_spaces x).
  - reflexivity.
  - intros m r _ IH. now rewrite !remove_spaces_app, remove_spaces_idem, IH.
  - intros _ c t _ IH. unfold remove_spaces in *. cbn [filter]. now rewrite IH.
Qed.

(** ** Stripping *)

Lemma lstrip_blank (x : str) : blank x = true -> lstrip x = [].
Proof.
  induction x as [|c t IH]; [reflexivity|]. cbn [blank forallb lstrip].
  intro H. apply andb_true_iff in H. destruct H as [-> Ht]. now apply IH.
Qed.

Lemma lstrip_not_blank (x : str) : blank x = false -> lstrip x <> [].
Proof.
  induction x as [|c t IH]; [discriminate|]. cbn [blank forallb lstrip].
  destruct (isspace c); [exact IH|discriminate].
Qed.

Lemma blank_cons (c : char) (t : str) : blank (c :: t) = isspace c && blank t.
Proof. reflexivity. Qed.

Lemma blank_app (x y : str) : blank (x ++ y) = blank x && blank y.
Proof. apply forallb_app. Qed.

Lemma blank_rev (x : str) : blank (rev x) = blank x.
Proof.
  induction x as [|c t IH]; [reflexivity|].
  cbn [rev]. rewrite blank_app, IH. cbn [blank forallb].
  now rewrite andb_true_r, andb_comm.
Qed.

Lemma lstrip_snoc (l : str) (c : char) :
  lstrip (l ++ [c]) =
  if blank l then (if isspace c then [] else [c]) else lstrip l ++ [c].
Proof.
  induction l as [|a l IH]; [reflexivity|].
  cbn [app lstrip blank forallb]. destruct (isspace a); [exact IH|reflexivity].
Qed.

Lemma rstrip_nil : rstrip [] = [].
Proof. reflexivity. Qed.

Lemma rstrip_cons (c : char) (t : str) :
  rstrip (c :: t) = if blank (c :: t) then [] else c :: rstrip t.
Proof.
  unfold rstrip. cbn [rev]. rewrite lstrip_snoc, blank_rev.
  change (blank (c :: t)) with (isspace c && blank t).
  destruct (blank t) eqn:Ht.
  - rewrite andb_true_r. rewrite (lstrip_blank (rev t)) by now rewrite blank_rev.
    destruct (isspace c); reflexivity.
  - rewrite andb_false_r, rev_app_distr. reflexivity.
Qed.

Lemma rstrip_blank (x : str) : blank x = true -> rstrip x = [].
Proof.
  intro H. unfold rstrip. rewrite lstrip_blank; [reflexivity|now rewrite blank_rev].
Qed.

Lemma ends_in_space_cons (c : char) (t : str) :
  ends_in_space (c :: t) =
  match t with [] => isspace c | _ :: _ => ends_in_space t end.
Proof.
  unfold ends_in_space. destruct t as [|a t]; [reflexivity|].
  cbn [rev]. destruct (rev t ++ [a]) eqn:H.
  - now destruct (rev t).
  - reflexivity.
Qed.

Lemma rstrip_fixed (x : str) : ends_in_space x = false -> rstrip x = x.
Proof.
  induction x as [|c t IH]; [reflexivity|].
  rewrite ends_in_space_cons, rstrip_cons, blank_cons. destruct t as [|a t].
  - intro Hc. rewrite Hc. reflexivity.
  - intro Ht. specialize (IH Ht).
    destruct (blank (a :: t)) eqn:Hb.
    + rewrite rstrip_blank in IH by exact Hb. discriminate.
    + now rewrite andb_false_r, IH.
Qed.

Lemma rstrip_ends (x : str) : ends_in_space (rstrip x) = false.
Proof.
  induction x as [|c t IH]; [reflexivity|].
  rewrite rstrip_cons. destruct (blank (c :: t)) eqn:Hb; [reflexivity|].
  rewrite ends_in_space_cons. destruct (rstrip t) eqn:Hr; [|exact IH].
  destruct (isspace c) eqn:Hc; [|reflexivity].
  rewrite blank_cons, Hc in Hb. cbn [andb] in Hb.
  destruct t as [|a t]; [discriminate|].
  rewrite rstrip_cons, Hb in Hr. discriminate.
Qed.

Lemma single_spaced_lstrip (x : str) : single_spaced true x = true -> lstrip x = x.
Proof.
  destruct x as [|c t]; [reflexivity|]. cbn [single_spaced lstrip].
  destruct (isspace c); [|reflexivity].
  rewrite andb_false_r. discriminate.
Qed.

Lemma single_spaced_weaken (b : bool) (x : str) :
  single_spaced true x = true -> single_spaced b x = true.
Proof.
  destruct x as [|c t]; [reflexivity|]. cbn [single_spaced].
  destruct (isspace c); [|auto].
  rewrite andb_false_r. discriminate.
Qed.

Lemma collapsed_strip (x : str) : collapsed x = true -> strip x = x.
Proof.
  unfold collapsed, strip. intro H. apply andb_true_iff in H. destruct H as [H1 H2].
  rewrite single_spaced_lstrip by exact H1.
  apply rstrip_fixed. now apply negb_true_iff.
Qed.

(** ** Collapsing white space *)

Lemma sub_whitespace_single_spaced (b : bool) (x : str) :
  single_spaced b x = true -> sub_whitespace b x = x.
Proof.
  revert b. induction x as [|c t IH]; intro b; [reflexivity|].
  cbn [single_spaced sub_whitespace]. destruct (isspace c).
  - intro H. apply andb_true_iff in H. destruct H as [H Ht].
    apply andb_true_iff in H. destruct H as [Hc Hb].
    apply negb_true_iff in Hb. subst b. apply N.eqb_eq in Hc. subst c.
    now rewrite IH.
  - intro H. now rewrite IH.
Qed.

Lemma sub_whitespace_is_single_spaced (b : bool) (x : str) :
  single_spaced b (sub_whitespace b x) = true.
Proof.
  revert b. induction x as [|c t IH]; intro b; [reflexivity|].
  cbn [sub_whitespace]. destruct (isspace c) eqn:Hc.
  - destruct b; [apply IH|].
    cbn [single_spaced]. rewrite space_isspace, IH. reflexivity.
  - cbn [single_spaced]. rewrite Hc. apply IH.
Qed.

Lemma sub_whitespace_lstrip (x : str) :
  sub_whitespace false (lstrip x) = sub_whitespace true x.
Proof.
  induction x as [|c t IH]; [reflexivity|].
  cbn [lstrip sub_whitespace]. destruct (isspace c) eqn:Hc; [exact IH|].
  cbn [sub_whitespace]. now rewrite Hc.
Qed.

Lemma blank_sub_whitespace (b : bool) (x : str) :
  blank (sub_whitespace b x) = blank x.
Proof.
  revert b. induction x as [|c t IH]; intro b; [reflexivity|].
  cbn [sub_whitespace blank forallb]. destruct (isspace c) eqn:Hc.
  - destruct b; [apply IH|].
    cbn [blank forallb]. rewrite space_isspace. apply IH.
  - cbn [blank forallb]. now rewrite Hc.
Qed.

Lemma sub_whitespace_rstrip (b : bool) (x : str) :
  sub_whitespace b (rstrip x) = rstrip (sub_whitespace b x).
Proof.
  revert b. induction x as [|c t IH]; intro b; [reflexivity|].
  rewrite rstrip_cons. destruct (blank (c :: t)) eqn:Hb.
  - rewrite rstrip_blank; [reflexivity|]. now rewrite blank_sub_whitespace.
  - cbn [sub_whitespace]. rewrite blank_cons in Hb.
    destruct (isspace c) eqn:Hc.
    + cbn [andb] in Hb. destruct b; [apply IH|].
      rewrite rstrip_cons, blank_cons, space_isspace, blank_sub_whitespace, Hb.
      cbn [andb]. now rewrite IH.
    + rewrite rstrip_cons, blank_cons, Hc. cbn [andb]. now rewrite IH.
Qed.

Lemma single_spaced_rstrip (b : bool) (x : str) :
  single_spaced b x = true -> single_spaced b (rstrip x) = true.
Proof.
  revert b. induction x as [|c t IH]; intro b; [reflexivity|].
  rewrite rstrip_cons. destruct (blank (c :: t)); [reflexivity|].
  cbn [single_spaced]. destruct (isspace c).
  - intro H. apply andb_true_iff in H. destruct H as [-> Ht]. now apply IH.
  - apply IH.
Qed.

(** ** The substitutions are the scans *)

Lemma closing_eq (f : nat) (prev : option char) (x : str) :
  rmatch closing_re f prev x done =
  match x with
  | c :: t => if is_AZ c && lookahead_not_S t then Some t else None
  | [] => None
  end.
Proof.
  cbn. destruct x as [|c t]; [reflexivity|].
  destruct (is_AZ c); [|reflexivity]. cbn.
  destruct t as [|d t']; [reflexivity|]. cbn. unfold not_space.
  destruct (isspace d); reflexivity.
Qed.

(** The repetition, followed by the closing capital: what [match_spaced]
    finds. *)
Lemma plus_pair_eq (f : nat) : forall (prev : option char) (x : str),
  List.length x <= f ->
  rmatch (Plus pair_re) f prev x (fun p' x' => rmatch closing_re f p' x' done) =
  option_map snd (match_spaced x).
Proof.
  induction f as [|f IH]; intros prev x Hlen.
  - destruct x; [reflexivity|simpl in Hlen; lia].
  - destruct x as [|u [|w t]]; [reflexivity | cbn; now destruct (is_AZ u) |].
    change (rmatch (Plus pair_re) (S f) prev (u :: w :: t)
              (fun p' x' => rmatch closing_re (S f) p' x' done))
      with (if is_AZ u then
              if isspace w then
                match rmatch (Plus pair_re) f (Some w) t
                        (fun p' x' => rmatch closing_re (S f) p' x' done) with
                | Some rest => Some rest
                | None => rmatch closing_re (S f) (Some w) t done
                end
              else None
            else None).
    rewrite match_spaced_eq.
    destruct (is_AZ u); [|reflexivity]. destruct (isspace w); [|reflexivity].
    cbn [andb].
    assert (Hk : (fun p' x' => rmatch closing_re (S f) p' x' done)
                 = (fun p' x' => rmatch closing_re f p' x' done)) by reflexivity.
    rewrite Hk, IH by (simpl in Hlen; lia).
    rewrite closing_eq.
    destruct (match_spaced t) as [[m r]|]; [reflexivity|].
    destruct t as [|u' r]; [reflexivity|].
    now destruct (is_AZ u' && lookahead_not_S r).
Qed.

Lemma search_spaced_out (prev : option char) (x : str) :
  search_here spaced_out prev x =
  if start_ok prev then option_map snd (match_spaced x) else None.
Proof.
  pose proof (plus_pair_eq (S (List.length x)) prev x (Nat.le_succ_diag_r _)) as H.
  destruct prev as [c|].
  - change ((if not_space c then None
             else rmatch (Plus pair_re) (S (List.length x)) (Some c) x
                    (fun p' x' => rmatch closing_re (S (List.length x)) p' x' done))
            = (if isspace c then option_map snd (match_spaced x) else None)).
    rewrite H. unfold not_space. now destruct (isspace c).
  - exact H.
Qed.

Lemma firstn_matched (m r : str) :
  firstn (List.length (m ++ r) - List.length r) (m ++ r) = m.
Proof.
  rewrite length_app, Nat.add_sub. rewrite firstn_app, Nat.sub_diag, firstn_all.
  cbn. apply app_nil_r.
Qed.

Lemma spaced_run_last (prev : option char) (m : str) :
  spaced_run m -> start_ok (last_char prev m) = false.
Proof.
  intro H. unfold last_char.
  assert (Hl : exists v m', m = m' ++ [v] /\ is_AZ v = true).
  { induction H as [u w v Hu Hw Hv | u w m Hu Hw Hrun (v & m' & -> & Hv)].
    - exists v, [u; w]. now split.
    - exists v, (u :: w :: m'). now split. }
  destruct Hl as (v & m' & -> & Hv). rewrite rev_app_distr. cbn.
  now apply is_AZ_not_space.
Qed.

Lemma sub_from_spaced_out (fuel : nat) : forall (prev : option char) (x : str),
  List.length x < fuel ->
  sub_from fuel spaced_out remove_spaces prev x = despace (start_ok prev) x.
Proof.
  induction fuel as [|fuel IH]; intros prev x Hlen; [lia|].
  cbn [sub_from]. rewrite search_spaced_out.
  destruct x as [|c t]; [now destruct (start_ok prev)|].
  rewrite despace_cons.
  destruct (start_ok prev); cbn [option_map].
  - destruct (match_spaced (c :: t)) as [[m r]|] eqn:Hm; cbn [option_map snd].
    + destruct (match_spaced_split _ _ _ Hm) as [Hx Hm3].
      destruct (match_spaced_run _ _ _ Hm) as [Hrun _].
      rewrite Hx, firstn_matched.
      destruct m as [|a m']; [simpl in Hm3; lia|].
      rewrite IH.
      * now rewrite (spaced_run_last prev _ Hrun).
      * assert (Hl : List.length (c :: t) = List.length ((a :: m') ++ r))
          by now rewrite Hx.
        rewrite length_app in Hl. simpl in *. lia.
    + rewrite IH by (simpl in Hlen; lia). reflexivity.
  - rewrite IH by (simpl in Hlen; lia). reflexivity.
Qed.

(** [\s+] takes the white space at the head of the text, all of it. *)
Lemma plus_space_eq (f : nat) : forall (prev : option char) (x : str),
  List.length x <= f ->
  rmatch whitespace_run f prev x done =
  match x with
  | c :: t => if isspace c then Some (lstrip t) else None
  | [] => None
  end.
Proof.
  induction f as [|f IH]; intros prev x Hlen.
  - destruct x; [reflexivity|simpl in Hlen; lia].
  - destruct x as [|c t]; [reflexivity|].
    change (rmatch whitespace_run (S f) prev (c :: t) done)
      with (if isspace c then
              match rmatch whitespace_run f (Some c) t done with
              | Some rest => Some rest
              | None => Some t
              end
            else None).
    destruct (isspace c); [|reflexivity].
    rewrite IH by (simpl in Hlen; lia).
    destruct t as [|d t']; [reflexivity|].
    cbn [lstrip]. now destruct (isspace d).
Qed.

Lemma lstrip_length (x : str) : List.length (lstrip x) <= List.length x.
Proof.
  induction x as [|c t IH]; [reflexivity|]. cbn [lstrip].
  destruct (isspace c); simpl; lia.
Qed.

Lemma sub_from_whitespace (fuel : nat) : forall (prev : option char) (x : str),
  List.length x < fuel ->
  sub_from fuel whitespace_run (fun _ => [space]) prev x = sub_whitespace false x.
Proof.
  induction fuel as [|fuel IH]; intros prev x Hlen; [lia|].
  cbn [sub_from]. unfold search_here. rewrite plus_space_eq by lia.
  destruct x as [|c t]; [reflexivity|].
  cbn [sub_whitespace]. destruct (isspace c).
  - pose proof (lstrip_length t) as Hl.
    destruct (firstn (List.length (c :: t) - List.length (lstrip t)) (c :: t))
      as [|a m] eqn:Hf.
    + apply (f_equal (@List.length char)) in Hf.
      rewrite length_firstn in Hf. cbn [List.length] in Hf. lia.
    + rewrite IH by (simpl in Hlen; lia).
      now rewrite sub_whitespace_lstrip.
  - rewrite IH by (simpl in Hlen; lia). reflexivity.
Qed.

(** [remove_spaced_out_words] is the scan for spaced-out words. *)
Lemma remove_spaced_out_words_despace (text : str) :
  remove_spaced_out_words text = despace true text.
Proof.
  unfold remove_spaced_out_words, re_sub.
  apply (sub_from_spaced_out _ None). apply Nat.lt_succ_diag_r.
Qed.

(** [normalize_text] is the two scans around [strip]. *)
Lemma normalize_text_scan (text : str) :
  normalize_text text = sub_whitespace false (strip (despace true text)).
Proof.
  unfold normalize_text, re_sub.
  rewrite sub_from_whitespace by apply Nat.lt_succ_diag_r.
  now rewrite remove_spaced_out_words_despace.
Qed.

(** The second pass, in one piece. *)
Lemma normalize_text_eq (x : str) :
  normalize_text x = rstrip (sub_whitespace true (remove_spaced_out_words x)).
Proof.
  rewrite normalize_text_scan, remove_spaced_out_words_despace. unfold strip.
  now rewrite sub_whitespace_rstrip, sub_whitespace_lstrip.
Qed.

Lemma normalize_text_collapsed (x : str) : collapsed (normalize_text x) = true.
Proof.
  rewrite normalize_text_eq. unfold collapsed.
  rewrite rstrip_ends, single_spaced_rstrip; [reflexivity|].
  apply sub_whitespace_is_single_spaced.
Qed.

(** ** Collapsing is joining the words with single spaces *)

Lemma fields_not_nil (x : str) : fields x <> [].
Proof.
  induction x as [|c t IH]; [discriminate|]. cbn [fields].
  destruct (isspace c); [discriminate|]. destruct (fields t); discriminate.
Qed.

Lemma split_space (c : char) (t : str) : isspace c = true -> split (c :: t) = split t.
Proof. intro Hc. unfold split. cbn [fields]. rewrite Hc. reflexivity. Qed.

Lemma split_blank (x : str) : blank x = true -> split x = [].
Proof.
  induction x as [|c t IH]; [reflexivity|].
  rewrite blank_cons. intro H. apply andb_true_iff in H. destruct H as [Hc Ht].
  rewrite split_space by exact Hc. now apply IH.
Qed.

Lemma split_not_blank (x : str) : blank x = false -> split x <> [].
Proof.
  induction x as [|c t IH]; [discriminate|].
  rewrite blank_cons. destruct (isspace c) eqn:Hc.
  - rewrite split_space by exact Hc. exact IH.
  - intros _. unfold split. cbn [fields]. rewrite Hc.
    destruct (fields t); discriminate.
Qed.

Lemma join_cons_char (sep : str) (c : char) (w : str) (ws : list str) :
  join sep ((c :: w) :: ws) = c :: join sep (w :: ws).
Proof. destruct ws; reflexivity. Qed.

Lemma collapse_join (y : str) :
  rstrip (sub_whitespace true y) = join [space] (split y) /\
  rstrip (sub_whitespace false y) =
    match y with
    | c :: _ =>
        if isspace c then (if blank y then [] else space :: join [space] (split y))
        else join [space] (split y)
    | [] => []
    end.
Proof.
  induction y as [|c t [IHt IHf]]; [split; reflexivity|].
  destruct (isspace c) eqn:Hc.
  - cbn [sub_whitespace]. rewrite Hc, split_space by exact Hc.
    split; [exact IHt|].
    rewrite rstrip_cons, !blank_cons, space_isspace, Hc, blank_sub_whitespace.
    cbn [andb]. now rewrite IHt.
  - assert (H : rstrip (c :: sub_whitespace false t) = join [space] (split (c :: t))).
    { rewrite rstrip_cons, blank_cons, Hc. cbn [andb]. rewrite IHf.
      unfold split. cbn [fields]. rewrite Hc.
      destruct t as [|c' t'].
      - reflexivity.
      - cbn [fields]. destruct (isspace c') eqn:Hc'.
        + cbn [filter nonempty]. fold (split t').
          rewrite blank_cons, Hc'. cbn [andb].
          destruct (blank t') eqn:Hb.
          * now rewrite split_blank.
          * apply split_not_blank in Hb.
            destruct (split t') as [|w ws]; [congruence|reflexivity].
        + destruct (fields t') as [|w ws] eqn:Hf; [now apply fields_not_nil in Hf|].
          cbn [filter nonempty]. symmetry. apply join_cons_char. }
    cbn [sub_whitespace]. rewrite Hc. split; exact H.
Qed.

(** Pass 2 of the normaliser: the words of the de-spaced text, joined by
    single ASCII spaces. *)
Lemma normalize_text_join (x : str) :
  normalize_text x = join [space] (split (remove_spaced_out_words x)).
Proof. rewrite normalize_text_eq. apply collapse_join. Qed.

(** ** De-spacing a text whose white space is ASCII spaces *)

Lemma match_spaced_not_AZ (u : char) (y : str) :
  is_AZ u = false -> match_spaced (u :: y) = None.
Proof.
  intro Hu. destruct y as [|w t]; [reflexivity|].
  now rewrite match_spaced_eq, Hu.
Qed.

Lemma match_spaced_not_space (u w : char) (y : str) :
  isspace w = false -> match_spaced (u :: w :: y) = None.
Proof. intro Hw. now rewrite match_spaced_eq, Hw, andb_false_r. Qed.

Lemma despace_false_cons (c : char) (t : str) :
  despace false (c :: t) = c :: despace (isspace c) t.
Proof. now rewrite despace_cons. Qed.

Lemma despace_no_match (c : char) (t : str) :
  match_spaced (c :: t) = None ->
  despace true (c :: t) = c :: despace (isspace c) t.
Proof. intro H. now rewrite despace_cons, H. Qed.

(** Where no run started, none starts after de-spacing. *)
Lemma match_spaced_despace (x : str) :
  match_spaced x = None -> match_spaced (despace true x) = None.
Proof.
  induction x as [| a | u w t IH] using list_pair_ind; intro Hx.
  - reflexivity.
  - reflexivity.
  - rewrite (despace_no_match _ _ Hx).
    destruct (is_AZ u) eqn:Hu; [|now apply match_spaced_not_AZ].
    rewrite (is_AZ_not_space u Hu), despace_false_cons.
    destruct (isspace w) eqn:Hw; [|now apply match_spaced_not_space].
    rewrite match_spaced_eq, Hu, Hw in Hx. cbn [andb] in Hx.
    rewrite match_spaced_eq, Hu, Hw. cbn [andb].
    destruct (match_spaced t) as [[? ?]|] eqn:Ht; [discriminate|].
    rewrite (IH eq_refl).
    destruct t as [|u' r]; [reflexivity|].
    rewrite (despace_no_match _ _ Ht).
    destruct (is_AZ u') eqn:Hu'; [|reflexivity].
    cbn [andb] in Hx |- *. rewrite (is_AZ_not_space u' Hu').
    destruct r as [|y r']; [discriminate|].
    cbn [lookahead_not_S] in Hx. rewrite despace_false_cons.
    cbn [lookahead_not_S]. destruct (isspace y); [discriminate|reflexivity].
Qed.

Lemma despace_not_space_prefix (us y : str) :
  forallb not_space us = true ->
  despace false (us ++ y) = us ++ despace false y.
Proof.
  induction us as [|c us IH]; [reflexivity|].
  cbn [forallb app]. intro H. apply andb_true_iff in H. destruct H as [Hc Hus].
  unfold not_space in Hc. apply negb_true_iff in Hc.
  rewrite despace_false_cons, Hc. now rewrite IH.
Qed.

(** A run separated by ASCII spaces shrinks to its capitals: two or more
    characters, none of them white space. *)
Lemma spaced_run_capitals (m : str) :
  spaced_run m -> only_spaces m = true ->
  exists u v us, remove_spaces m = u :: v :: us /\
                 forallb not_space (u :: v :: us) = true.
Proof.
  assert (Hsp : forall w, isspace w = true -> space_if_white w = true ->
                          negb (w =? space)%N = false).
  { intros w Hw H. unfold space_if_white in H. rewrite Hw in H. cbn in H.
    now rewrite H. }
  assert (Hcap : forall u, is_AZ u = true -> negb (u =? space)%N = true).
  { intros u Hu. now rewrite is_AZ_not_32. }
  induction 1 as [u w v Hu Hw Hv | u w m Hu Hw Hrun IH]; intro Hos.
  - cbn [only_spaces forallb] in Hos.
    apply andb_true_iff in Hos. destruct Hos as [_ Hos].
    apply andb_true_iff in Hos. destruct Hos as [Hw' _].
    exists u, v, []. unfold remove_spaces. cbn [filter].
    rewrite (Hcap u Hu), (Hcap v Hv), (Hsp w Hw Hw').
    split; [reflexivity|]. cbn [forallb]. unfold not_space.
    now rewrite (is_AZ_not_space u Hu), (is_AZ_not_space v Hv).
  - cbn [only_spaces forallb] in Hos.
    apply andb_true_iff in Hos. destruct Hos as [_ Hos].
    apply andb_true_iff in Hos. destruct Hos as [Hw' Hos].
    destruct (IH Hos) as (u' & v' & us & Heq & Hall).
    exists u, u', (v' :: us). unfold remove_spaces in *. cbn [filter].
    rewrite (Hcap u Hu), (Hsp w Hw Hw'), Heq.
    split; [reflexivity|]. cbn [forallb] in *. unfold not_space at 1.
    now rewrite (is_AZ_not_space u Hu), Hall.
Qed.

Lemma only_spaces_app (x y : str) :
  only_spaces (x ++ y) = only_spaces x && only_spaces y.
Proof. apply forallb_app. Qed.

(** De-spacing once is enough when the separators are ASCII spaces. *)
Lemma despace_idempotent (b : bool) (x : str) :
  only_spaces x = true -> despace b (despace b x) = despace b x.
Proof.
  apply despace_ind with
    (P := fun b x out => only_spaces x = true -> despace b out = out).
  - reflexivity.
  - intros m r Hm IH Hos. rewrite only_spaces_app in Hos.
    apply andb_true_iff in Hos. destruct Hos as [Hosm Hosr].
    destruct (match_spaced_run _ _ _ Hm) as [Hrun _].
    destruct (spaced_run_capitals m Hrun Hosm) as (u & v & us & Heq & Hall).
    rewrite Heq. cbn [forallb] in Hall.
    apply andb_true_iff in Hall. destruct Hall as [Hu Hall].
    unfold not_space in Hu. apply negb_true_iff in Hu.
    assert (Hv : isspace v = false).
    { apply andb_true_iff in Hall. destruct Hall as [Hv _].
      now apply negb_true_iff in Hv. }
    cbn [app]. rewrite despace_no_match by now apply match_spaced_not_space.
    rewrite Hu. change (v :: us ++ despace false r) with ((v :: us) ++ despace false r).
    rewrite despace_not_space_prefix by exact Hall.
    now rewrite (IH Hosr).
  - intros b' c t Hm IH Hos. cbn [only_spaces forallb] in Hos.
    apply andb_true_iff in Hos. destruct Hos as [_ Hos].
    destruct b'.
    + assert (H : match_spaced (c :: despace (isspace c) t) = None).
      { rewrite <- (despace_no_match _ _ Hm). now apply match_spaced_despace. }
      rewrite (despace_no_match _ _ H). now rewrite (IH Hos).
    + rewrite despace_false_cons. now rewrite (IH Hos).
Qed.

Lemma single_spaced_only_spaces (p : bool) (x : str) :
  single_spaced p x = true -> only_spaces x = true.
Proof.
  revert p. induction x as [|c t IH]; intro p; [reflexivity|].
  cbn [single_spaced only_spaces forallb]. unfold space_if_white at 1.
  destruct (isspace c).
  - intro H. apply andb_true_iff in H. destruct H as [H Ht].
    apply andb_true_iff in H. destruct H as [Hc _].
    cbn [implb]. rewrite Hc. exact (IH _ Ht).
  - intro H. exact (IH _ H).
Qed.

Lemma single_spaced_not_space_prefix (p : bool) (c : char) (us y : str) :
  forallb not_space (c :: us) = true ->
  single_spaced p ((c :: us) ++ y) = single_spaced false y.
Proof.
  revert p c. induction us as [|d us IH]; intros p c H.
  - cbn [forallb] in H. rewrite andb_true_r in H.
    apply negb_true_iff in H. cbn [app single_spaced]. now rewrite H.
  - cbn [forallb] in H. apply andb_true_iff in H. destruct H as [Hc H].
    apply negb_true_iff in Hc.
    change ((c :: d :: us) ++ y) with (c :: (d :: us) ++ y).
    cbn [single_spaced]. rewrite Hc. now apply IH.
Qed.

Lemma spaced_run_single_spaced (p : bool) (m r : str) :
  spaced_run m -> single_spaced p (m ++ r) = true -> single_spaced false r = true.
Proof.
  intro Hrun. revert p.
  induction Hrun as [u w v Hu Hw Hv | u w m Hu Hw Hrun IH]; intros p H.
  - cbn [app single_spaced] in H.
    rewrite (is_AZ_not_space u Hu), Hw, (is_AZ_not_space v Hv) in H.
    apply andb_true_iff in H. now destruct H as [_ H].
  - cbn [app single_spaced] in H. rewrite (is_AZ_not_space u Hu), Hw in H.
    apply andb_true_iff in H. destruct H as [_ H]. exact (IH _ H).
Qed.

Lemma despace_single_spaced (b p : bool) (x : str) :
  single_spaced p x = true -> single_spaced p (despace b x) = true.
Proof.
  revert p. apply despace_ind with
    (P := fun b x out =>
            forall p, single_spaced p x = true -> single_spaced p out = true).
  - reflexivity.
  - intros m r Hm IH p H.
    destruct (match_spaced_run _ _ _ Hm) as [Hrun _].
    pose proof (single_spaced_only_spaces _ _ H) as Hos.
    rewrite only_spaces_app in Hos.
    apply andb_true_iff in Hos. destruct Hos as [Hosm _].
    destruct (spaced_run_capitals m Hrun Hosm) as (u & v & us & Heq & Hall).
    rewrite Heq, single_spaced_not_space_prefix by exact Hall.
    apply IH. exact (spaced_run_single_spaced _ _ _ Hrun H).
  - intros b' c t _ IH p. cbn [single_spaced]. destruct (isspace c).
    + intro H. apply andb_true_iff in H. destruct H as [-> Ht]. now apply IH.
    + apply IH.
Qed.

Lemma ends_in_space_app (x y : str) :
  y <> [] -> ends_in_space (x ++ y) = ends_in_space y.
Proof.
  intro Hy. unfold ends_in_space. rewrite rev_app_distr.
  destruct (rev y) as [|c t] eqn:Hr; [|reflexivity].
  apply (f_equal (@rev char)) in Hr. rewrite rev_involutive in Hr. contradiction.
Qed.

Lemma spaced_run_head (m : str) :
  spaced_run m -> exists u t, m = u :: t /\ is_AZ u = true.
Proof. destruct 1; eauto. Qed.

Lemma remove_spaces_AZ (u : char) (t : str) :
  is_AZ u = true -> remove_spaces (u :: t) = u :: remove_spaces t.
Proof. intro Hu. unfold remove_spaces. cbn [filter]. now rewrite is_AZ_not_32. Qed.

Lemma spaced_run_not_nil (m : str) : spaced_run m -> remove_spaces m <> [].
Proof.
  intro H. destruct (spaced_run_head m H) as (u & t & -> & Hu).
  rewrite remove_spaces_AZ by exact Hu. discriminate.
Qed.

Lemma spaced_run_ends (m : str) :
  spaced_run m -> ends_in_space (remove_spaces m) = false.
Proof.
  induction 1 as [u w v Hu Hw Hv | u w m Hu Hw Hrun IH].
  - change [u; w; v] with ([u; w] ++ [v]).
    rewrite remove_spaces_app, (remove_spaces_AZ v [] Hv).
    rewrite ends_in_space_app by discriminate.
    cbn. now apply is_AZ_not_space.
  - change (u :: w :: m) with ([u; w] ++ m).
    rewrite remove_spaces_app, ends_in_space_app; [exact IH|].
    now apply spaced_run_not_nil.
Qed.

Lemma despace_nil_inv (b : bool) (x : str) : despace b x = [] -> x = [].
Proof.
  destruct x as [|c t]; [reflexivity|]. rewrite despace_cons.
  destruct (if b then match_spaced (c :: t) else None) as [[m r]|] eqn:Hm;
    [|discriminate].
  destruct b; [|discriminate].
  destruct (match_spaced_run _ _ _ Hm) as [Hrun _].
  intro H. apply app_eq_nil in H. destruct H as [H _].
  now apply spaced_run_not_nil in H.
Qed.

Lemma despace_ends (b : bool) (x : str) :
  ends_in_space x = false -> ends_in_space (despace b x) = false.
Proof.
  apply despace_ind with
    (P := fun b x out => ends_in_space x = false -> ends_in_space out = false).
  - reflexivity.
  - intros m r Hm IH H.
    destruct (match_spaced_run _ _ _ Hm) as [Hrun _].
    destruct r as [|c r].
    + rewrite despace_nil, app_nil_r. now apply spaced_run_ends.
    + rewrite ends_in_space_app in H by discriminate.
      rewrite ends_in_space_app; [now apply IH|].
      intro Hnil. now apply despace_nil_inv in Hnil.
  - intros b' c t _ IH. rewrite !ends_in_space_cons.
    destruct t as [|a t]; [now rewrite despace_nil|].
    destruct (despace (isspace c) (a :: t)) eqn:Hd; [|exact IH].
    now apply despace_nil_inv in Hd.
Qed.

Lemma despace_collapsed (x : str) :
  collapsed x = true -> collapsed (despace true x) = true.
Proof.
  unfold collapsed. intro H. apply andb_true_iff in H. destruct H as [H1 H2].
  apply negb_true_iff in H2.
  now rewrite despace_single_spaced, despace_ends.
Qed.

Lemma collapsed_second_pass (x : str) :
  collapsed x = true -> sub_whitespace false (strip x) = x.
Proof.
  intro H. rewrite collapsed_strip by exact H.
  apply sub_whitespace_single_spaced, single_spaced_weaken.
  unfold collapsed in H. apply andb_true_iff in H. now destruct H.
Qed.

(** On a collapsed text, normalising is de-spacing. *)
Lemma normalize_text_of_collapsed (x : str) :
  collapsed x = true -> normalize_text x = remove_spaced_out_words x.
Proof.
  intro H. rewrite normalize_text_scan, remove_spaced_out_words_despace.
  apply collapsed_second_pass. now apply despace_collapsed.
Qed.

Lemma normalize_text_fixed (x : str) :
  collapsed x = true -> normalize_text (normalize_text x) = normalize_text x.
Proof.
  intro H. rewrite (normalize_text_of_collapsed x H).
  rewrite remove_spaced_out_words_despace.
  rewrite normalize_text_of_collapsed by now apply despace_collapsed.
  rewrite remove_spaced_out_words_despace. apply despace_idempotent.
  unfold collapsed in H. apply andb_true_iff in H. destruct H as [H _].
  exact (single_spaced_only_spaces _ _ H).
Qed.

(** ** Characters that are not white space are kept *)

Lemma not_space_remove_spaces (x : str) :
  filter not_space (remove_spaces x) = filter not_space x.
Proof.
  unfold remove_spaces. induction x as [|c t IH]; [reflexivity|].
  cbn [filter]. destruct (c =? space)%N eqn:Hc; cbn [negb filter].
  - apply N.eqb_eq in Hc. subst c. exact IH.
  - now rewrite IH.
Qed.

Lemma despace_keeps_not_space (b : bool) (x : str) :
  filter not_space (despace b x) = filter not_space x.
Proof.
  apply despace_ind with
    (P := fun _ x out => filter not_space out = filter not_space x).
  - reflexivity.
  - intros m r _ IH. now rewrite !filter_app, not_space_remove_spaces, IH.
  - intros _ c t _ IH. cbn [filter]. now rewrite IH.
Qed.

Lemma sub_whitespace_keeps_not_space (b : bool) (x : str) :
  filter not_space (sub_whitespace b x) = filter not_space x.
Proof.
  revert b. induction x as [|c t IH]; intro b; [reflexivity|].
  cbn [sub_whitespace filter]. unfold not_space at 2.
  destruct (isspace c) eqn:Hc; cbn [negb].
  - destruct b; [apply IH|]. cbn [filter]. apply IH.
  - cbn [filter]. unfold not_space at 1. rewrite Hc. cbn [negb]. now rewrite IH.
Qed.

Lemma blank_not_space (x : str) : blank x = true <-> filter not_space x = [].
Proof.
  induction x as [|c t IH]; [now split|].
  rewrite blank_cons. cbn [filter]. unfold not_space at 1.
  destruct (isspace c); cbn [negb andb]; [exact IH|]. split; discriminate.
Qed.

Lemma rstrip_keeps_not_space (x : str) :
  filter not_space (rstrip x) = filter not_space x.
Proof.
  induction x as [|c t IH]; [reflexivity|].
  rewrite rstrip_cons. destruct (blank (c :: t)) eqn:Hb.
  - symmetry. now apply blank_not_space.
  - cbn [filter]. now rewrite IH.
Qed.

Lemma normalize_text_keeps_not_space (x : str) :
  filter not_space (normalize_text x) = filter not_space x.
Proof.
  rewrite normalize_text_eq, rstrip_keeps_not_space, sub_whitespace_keeps_not_space.
  rewrite remove_spaced_out_words_despace. apply despace_keeps_not_space.
Qed.

Lemma rstrip_nil_blank (x : str) : rstrip x = [] -> blank x = true.
Proof.
  destruct x as [|c t]; [reflexivity|]. rewrite rstrip_cons.
  destruct (blank (c :: t)); [reflexivity|discriminate].
Qed.


Lemma lstrip_keeps_not_space (x : str) :
  filter not_space (lstrip x) = filter not_space x.
Proof.
  induction x as [|c t IH]; [reflexivity|].
  cbn [lstrip]. destruct (isspace c) eqn:Hc; [|reflexivity].
  cbn [filter]. assert (Hn : not_space c = false) by (unfold not_space; now rewrite Hc).
  now rewrite Hn.
Qed.

Lemma strip_nil (x : str) : strip x = [] <-> blank x = true.
Proof.
  unfold strip. split.
  - intro H. apply rstrip_nil_blank in H.
    apply blank_not_space. apply blank_not_space in H.
    now rewrite lstrip_keeps_not_space in H.
  - intro H. now rewrite lstrip_blank.
Qed.

Lemma extract_candidate_name_empty (text : str) :
  extract_candidate_name text = [] <-> forallb blank (splitlines text) = true.
Proof.
  unfold extract_candidate_name.
  induction (splitlines text) as [|line rest IH]; [now split|].
  cbn [first_stripped_line forallb].
  destruct (strip line) as [|c t] eqn:Hs.
  - apply strip_nil in Hs. now rewrite Hs.
  - destruct (blank line) eqn:Hb.
    + apply strip_nil in Hb. congruence.
    + split; discriminate.
Qed.

(** ** Sequences of fractions *)

Lemma nondecreasing_cons (a b : Q) (l : list Q) :
  nondecreasing (a :: b :: l) = Qle_bool a b && nondecreasing (b :: l).
Proof. reflexivity. Qed.



Lemma nondecreasing_map_seq (f : nat -> Q) (q : Q) (first count : nat) :
  (forall i, first <= i < first + count -> (f i <= f (S i))%Q) ->
  (forall i, first <= i < first + count -> (f i <= q)%Q) ->
  nondecreasing (List.map f (seq first count) ++ [q]) = true.
Proof.
  revert first. induction count as [|count IH]; intros first Hstep Hq; [reflexivity|].
  cbn [seq List.map app]. destruct count as [|count].
  - cbn. rewrite andb_true_r. apply Qle_bool_iff. apply Hq. lia.
  - specialize (IH (S first)).
    cbn [seq List.map app] in IH |- *. rewrite nondecreasing_cons.
    rewrite IH.
    + rewrite andb_true_r. apply Qle_bool_iff. apply Hstep. lia.
    + intros i Hi. apply Hstep. lia.
    + intros i Hi. apply Hq. lia.
Qed.

Lemma Q_of_nat_le (a b : nat) : a <= b -> (Q_of_nat a <= Q_of_nat b)%Q.
Proof.
  intro H. unfold Q_of_nat. rewrite <- Zle_Qle. lia.
Qed.

Lemma Q_of_nat_nonneg (a : nat) : (0 <= Q_of_nat a)%Q.
Proof. apply (Q_of_nat_le 0). lia. Qed.

Lemma fraction_mono (n a b : nat) :
  a <= b -> (Q_of_nat a / Q_of_nat n * 0.5 <= Q_of_nat b / Q_of_nat n * 0.5)%Q.
Proof.
  intro H. apply Qmult_le_compat_r; [|discriminate].
  apply Qmult_le_compat_r; [now apply Q_of_nat_le|].
  apply Qinv_le_0_compat, Q_of_nat_nonneg.
Qed.

Lemma fraction_half (n a : nat) :
  a <= n -> (Q_of_nat a / Q_of_nat n * 0.5 <= 0.5)%Q.
Proof.
  intro H. destruct n as [|n].
  - replace a with 0 by lia. discriminate.
  - apply Qle_trans with (Q_of_nat (S n) / Q_of_nat (S n) * 0.5)%Q;
      [now apply fraction_mono|].
    unfold Qdiv. rewrite Qmult_inv_r; [discriminate|].
    unfold Q_of_nat, inject_Z, Qeq. cbn. lia.
Qed.

Lemma extraction_fractions_nondecreasing (n first count : nat) :
  first + count <= n ->
  nondecreasing (extraction_fractions n first count ++ [0.5%Q]) = true.
Proof.
  intro H. unfold extraction_fractions. apply nondecreasing_map_seq.
  - intros i Hi. apply fraction_mono. lia.
  - intros i Hi. apply fraction_half. lia.
Qed.

Lemma nondecreasing_prefix (l1 l2 : list Q) :
  nondecreasing (l1 ++ l2) = true -> nondecreasing l1 = true.
Proof.
  induction l1 as [|a l1 IH]; [reflexivity|].
  destruct l1 as [|b l1]; [reflexivity|].
  cbn [app]. rewrite !nondecreasing_cons. intro H.
  apply andb_true_iff in H. destruct H as [-> H]. now apply IH.
Qed.

Lemma last_is_snoc (q a : Q) (l : list Q) : last_is q (l ++ [a]) = Qeq_bool a q.
Proof. unfold last_is. now rewrite rev_app_distr. Qed.

Lemma last_is_app (q : Q) (l1 l2 : list Q) :
  last_is q l2 = true -> last_is q (l1 ++ l2) = true.
Proof.
  unfold last_is. rewrite rev_app_distr. destruct (rev l2); [discriminate|auto].
Qed.



(** ** Events of a trace *)

Lemma fractions_app (t1 t2 : trace) : fractions (t1 ++ t2) = fractions t1 ++ fractions t2.
Proof.
  induction t1 as [|e t1 IH]; [reflexivity|].
  destruct e; cbn [app fractions]; now rewrite IH.
Qed.

Lemma stage_filter (allowed f : event -> bool) (t : trace) :
  (forall e, allowed e = true -> f e = false) ->
  forallb allowed t = true -> filter f t = [].
Proof.
  intros Hf. induction t as [|e t IH]; [reflexivity|].
  cbn [forallb filter]. intro H. apply andb_true_iff in H. destruct H as [He Ht].
  rewrite (Hf e He). now apply IH.
Qed.

Lemma stage_existsb (allowed f : event -> bool) (t : trace) :
  (forall e, allowed e = true -> f e = false) ->
  forallb allowed t = true -> existsb f t = false.
Proof.
  intros Hf. induction t as [|e t IH]; [reflexivity|].
  cbn [forallb existsb]. intro H. apply andb_true_iff in H. destruct H as [He Ht].
  rewrite (Hf e He). now apply IH.
Qed.


Lemma forallb_filter (f g : event -> bool) (t : trace) :
  (forall e, g e = false -> f e = true) -> forallb f t = forallb f (filter g t).
Proof.
  intro H. induction t as [|e t IH]; [reflexivity|].
  cbn [forallb filter]. destruct (g e) eqn:Hg.
  - cbn [forallb]. now rewrite IH.
  - now rewrite (H e Hg).
Qed.

Lemma map_fst_combine {A B : Type} (l : list A) (l' : list B) :
  List.length l' = List.length l -> List.map fst (combine l l') = l.
Proof.
  revert l'. induction l as [|a l IH]; intros [|b l'] H; try discriminate; [reflexivity|].
  cbn. f_equal. apply IH. now injection H.
Qed.

(** ** The worker, piece by piece *)

Section PipelineProps.
Context {Model Embedding Tensor : Type}.
Variable E : env Model Embedding Tensor.

Lemma process_one_eq (n i : nat) (pdf_path : str) (acc : list resume) (st : fs) :
  process_one E n (i, pdf_path) acc st =
  match extraction E pdf_path with
  | inr text =>
      ([Progress (Q_of_nat (i + 1) / Q_of_nat n * 0.5)
          (s "Extracting text (" ++ str_of_nat (i + 1) ++ s "/" ++ str_of_nat n
             ++ s "): " ++ basename pdf_path)],
       st, inr (acc ++ [resume_record pdf_path text]))
  | inl e =>
      ([Progress (Q_of_nat (i + 1) / Q_of_nat n * 0.5)
          (s "Extracting text (" ++ str_of_nat (i + 1) ++ s "/" ++ str_of_nat n
             ++ s "): " ++ basename pdf_path);
        Print (s "Warning: Could not process " ++ basename pdf_path ++ s ": "
                 ++ str_of_exn e)],
       st, inr acc)
  end.
Proof.
  unfold process_one, bind, try_except, update_progress, emit, extract_text, ret.
  destruct (extraction E pdf_path); reflexivity.
Qed.

(** The loop over the files never raises, leaves the file system alone,
    reports one fraction per file and prints one line per failure. *)
Lemma extraction_loop (n : nat) (files : list str) :
  forall (i : nat) (acc : list resume) (st : fs),
  exists t,
    for_append (combine (seq i (List.length files)) files) acc (process_one E n) st
      = (t, st, inr (acc ++ extracted E files)) /\
    fractions t = extraction_fractions n i (List.length files) /\
    forallb (fun e => is_progress e || is_print e) t = true /\
    List.length (filter is_print t) = List.length (failed E files).
Proof.
  induction files as [|p files IH]; intros i acc st.
  - exists []. cbn. rewrite app_nil_r. auto.
  - destruct (extraction E p) as [e|text] eqn:Hp.
    + destruct (IH (S i) acc st) as (t & Hrun & Hfr & Hev & Hpr).
      eexists. cbn [List.length seq combine for_append]. unfold bind at 1.
      rewrite process_one_eq, Hp, Hrun.
      split; [|split; [|split]].
      * unfold extracted. cbn [flat_map]. rewrite Hp. reflexivity.
      * cbn [app fractions]. rewrite Hfr. reflexivity.
      * cbn [app forallb is_progress is_print orb andb]. exact Hev.
      * cbn [app filter is_print List.length]. rewrite Hpr.
        unfold failed. cbn [filter]. rewrite Hp. reflexivity.
    + destruct (IH (S i) (acc ++ [resume_record p text]) st)
        as (t & Hrun & Hfr & Hev & Hpr).
      eexists. cbn [List.length seq combine for_append]. unfold bind at 1.
      rewrite process_one_eq, Hp, Hrun.
      split; [|split; [|split]].
      * unfold extracted. cbn [flat_map]. rewrite Hp.
        now rewrite <- app_assoc.
      * cbn [app fractions]. rewrite Hfr. reflexivity.
      * cbn [app forallb is_progress is_print orb andb]. exact Hev.
      * cbn [app filter is_print]. rewrite Hpr.
        unfold failed. cbn [filter]. rewrite Hp. reflexivity.
Qed.


(** Provisioning with the worker's callback. *)
Lemma load_model_run (st : fs) :
  let L := load_model E (Some update_progress) st in
  forallb provisioning_event (trace_of L) = true /\
  nondecreasing (fractions (trace_of L)) = true /\
  if succeeds (result_of L)
  then state_of L = true /\ last_is 1.0 (fractions (trace_of L)) = true
  else True.
Proof.
  unfold load_model. destruct st; run.
  - destruct (st_load E (model_path E)); repeat split; reflexivity.
  - destruct (st_fetch E model_name) as [e|m]; [repeat split; reflexivity|].
    destruct (st_save E m (model_path E)); repeat split; reflexivity.
Qed.

(** Once the directory exists, a call reads it, fetches nothing and
    leaves it in place. *)
Lemma load_model_from_disk (progress_callback : option callback) :
  progress_callback = None \/ progress_callback = Some update_progress ->
  let L := load_model E progress_callback true in
  state_of L = true /\
  existsb is_fetch (trace_of L) = false /\
  filter is_load (trace_of L) = [Load (model_path E)] /\
  result_of L = st_load E (model_path E).
Proof.
  unfold load_model. intros [-> | ->]; run;
    destruct (st_load E (model_path E)); repeat split; reflexivity.
Qed.

Lemma load_model_from_disk_fractions :
  fractions (trace_of (load_model E (Some update_progress) true)) =
  loading_fractions ++
    (if succeeds (st_load E (model_path E)) then [1.0%Q] else []).
Proof.
  unfold load_model. run. destruct (st_load E (model_path E)); reflexivity.
Qed.

(** A successful call leaves the directory in place. *)
Lemma load_model_provisions (progress_callback : option callback) (st : fs) :
  progress_callback = None \/ progress_callback = Some update_progress ->
  let L := load_model E progress_callback st in
  if succeeds (result_of L) then state_of L = true else True.
Proof.
  unfold load_model. intros [-> | ->]; destruct st; run;
    try (destruct (st_load E (model_path E)); reflexivity);
    (destruct (st_fetch E model_name) as [e|m]; [reflexivity|]);
    destruct (st_save E m (model_path E)); reflexivity.
Qed.

Lemma rank_resumes_run (resumes : list resume) (job : str) (model : Model) (st : fs) :
  let R := rank_resumes E resumes job model (Some ranking_progress_callback) st in
  result_of R = ranking E resumes job model /\
  state_of R = st /\
  forallb ranking_event (trace_of R) = true /\
  nondecreasing (0.5%Q :: fractions (trace_of R) ++ [1.0%Q]) = true /\
  (if succeeds (result_of R) then last_is 1.0 (fractions (trace_of R)) = true
   else True) /\
  filter is_encode (trace_of R) =
    EncodeText job ::
      (if succeeds (encode E model job) then [EncodeBatch (List.map text resumes)] else []).
Proof.
  unfold rank_resumes, ranking. run.
  destruct (encode E model job) as [e|je]; [repeat split; reflexivity|].
  destruct (encode_batch E model (List.map text resumes)) as [e|te];
    [repeat split; reflexivity|].
  destruct (pytorch_cos_sim E je te); repeat split; reflexivity.
Qed.

Lemma rank_resumes_silent (resumes : list resume) (job : str) (model : Model) (st : fs) :
  let R := rank_resumes E resumes job model None st in
  result_of R = ranking E resumes job model /\
  state_of R = st /\
  filter is_encode (trace_of R) =
    EncodeText job ::
      (if succeeds (encode E model job) then [EncodeBatch (List.map text resumes)] else []).
Proof.
  unfold rank_resumes, ranking. run.
  destruct (encode E model job) as [e|je]; [repeat split; reflexivity|].
  destruct (encode_batch E model (List.map text resumes)) as [e|te];
    [repeat split; reflexivity|].
  destruct (pytorch_cos_sim E je te); repeat split; reflexivity.
Qed.

(** Gathering the records never raises and leaves the file system alone. *)
Lemma gather_run (self : gui) (st : fs) :
  exists t resumes,
    gather E self st = (t, st, inr resumes) /\
    forallb extraction_event t = true /\
    (nondecreasing (fractions t ++ [0.5%Q]) = true /\ fractions t <> []) /\
    match preloaded_resume_data self with
    | Some (r :: data) => resumes = r :: data /\ t = [Progress 0.5 (s "Using pre-processed resume data...")]
    | _ =>
        resumes = extracted E (selected_files self) /\
        List.length (filter is_print t) = List.length (failed E (selected_files self))
    end.
Proof.
  assert (Hloop :
    exists t,
      (update_progress 0
         (s "Extracting text (0/" ++ str_of_nat (List.length (selected_files self))
            ++ s ")...") ;;
       for_append (enumerate (selected_files self)) []
         (process_one E (List.length (selected_files self))))%py st
        = (t, st, inr (extracted E (selected_files self))) /\
      forallb extraction_event t = true /\
      (nondecreasing (fractions t ++ [0.5%Q]) = true /\ fractions t <> []) /\
      List.length (filter is_print t) = List.length (failed E (selected_files self))).
  { destruct (extraction_loop (List.length (selected_files self)) (selected_files self)
                0 [] st) as (t & Hrun & Hfr & Hev & Hpr).
    eexists. unfold bind, update_progress, emit, enumerate. rewrite Hrun.
    split; [reflexivity|]. cbn [app forallb fractions filter is_print].
    split; [exact Hev|]. split; [|exact Hpr]. split; [|discriminate].
    rewrite Hfr.
    pose proof (extraction_fractions_nondecreasing
                  (List.length (selected_files self)) 0
                  (List.length (selected_files self)) (le_n _)) as Hnd.
    destruct (extraction_fractions (List.length (selected_files self)) 0
                (List.length (selected_files self))) as [|a l] eqn:Hl.
    - reflexivity.
    - cbn [app] in Hnd |- *. rewrite nondecreasing_cons, Hnd, andb_true_r.
      apply Qle_bool_iff.
      destruct (selected_files self) as [|p files]; [discriminate|].
      cbn [List.length extraction_fractions seq List.map] in Hl.
      injection Hl as <- _.
      apply (Qle_trans _ (Q_of_nat 0 / Q_of_nat (S (List.length files)) * 0.5)%Q).
      + unfold Qdiv. rewrite Qmult_0_l, Qmult_0_l. apply Qle_refl.
      + apply fraction_mono. lia. }
  unfold gather.
  destruct (preloaded_resume_data self) as [[|r data]|].
  - destruct Hloop as (t & Hrun & Hev & Hnd & Hpr). exists t. eexists. eauto.
  - do 2 eexists. split; [reflexivity|]. repeat split; try reflexivity. discriminate.
  - destruct Hloop as (t & Hrun & Hev & Hnd & Hpr). exists t. eexists. eauto.
Qed.

Lemma handle_error_eq (e : exn) (st : fs) :
  root_after_reading E e (fun e => handle_error (str_of_exn e)) st
  = (failure_events E e, st, inr tt).
Proof.
  unfold root_after_reading, failure_events.
  destruct (main_loop_first E); reflexivity.
Qed.

Lemma update_results_display_eq (ranked : list (resume * Q)) (st : fs) :
  root_after (update_results_display ranked) st = (success_events ranked, st, inr tt).
Proof. destruct ranked; reflexivity. Qed.

(** The body of the [try], stage by stage. *)
Lemma attempt_eq (self : gui) (role description : str) (st : fs) :
  attempt E self role description st =
  match load_model E (Some update_progress) st with
  | (t1, st1, inl e) => (t1, st1, inl e)
  | (t1, st1, inr model) =>
      match gather E self st1 with
      | (t2, st2, inl e) => (t1 ++ t2, st2, inl e)
      | (t2, st2, inr []) => (t1 ++ t2, st2, inl no_valid_resumes)
      | (t2, st2, inr (r :: rs)) =>
          match rank_resumes E (r :: rs) (full_job_desc role description) model
                  (Some ranking_progress_callback) st2 with
          | (t3, st3, inl e) => (t1 ++ t2 ++ t3, st3, inl e)
          | (t3, st3, inr ranked) =>
              (t1 ++ t2 ++ t3 ++ success_events ranked, st3, inr tt)
          end
      end
  end.
Proof.
  unfold attempt. unfold bind at 1.
  destruct (load_model E (Some update_progress) st) as [[t1 st1] [e|model]];
    [reflexivity|].
  unfold bind at 1.
  destruct (gather E self st1) as [[t2 st2] [e|[|r rs]]].
  - reflexivity.
  - unfold raise. now rewrite !app_nil_r.
  - unfold bind at 1.
    destruct (rank_resumes E (r :: rs) (full_job_desc role description) model
                (Some ranking_progress_callback) st2) as [[t3 st3] [e|ranked]].
    + reflexivity.
    + now rewrite update_results_display_eq.
Qed.

(** The worker: what its [try] does, and after an exception what the
    failure path does. *)
Lemma worker_eq (self : gui) (role description : str) (st : fs) :
  process_resumes_worker E self role description st =
  match load_model E (Some update_progress) st with
  | (t1, st1, inl e) => (t1 ++ failure_events E e, st1, inr tt)
  | (t1, st1, inr model) =>
      match gather E self st1 with
      | (t2, st2, inl e) => (t1 ++ t2 ++ failure_events E e, st2, inr tt)
      | (t2, st2, inr []) =>
          (t1 ++ t2 ++ failure_events E no_valid_resumes, st2, inr tt)
      | (t2, st2, inr (r :: rs)) =>
          match rank_resumes E (r :: rs) (full_job_desc role description) model
                  (Some ranking_progress_callback) st2 with
          | (t3, st3, inl e) => (t1 ++ t2 ++ t3 ++ failure_events E e, st3, inr tt)
          | (t3, st3, inr ranked) =>
              (t1 ++ t2 ++ t3 ++ success_events ranked, st3, inr tt)
          end
      end
  end.
Proof.
  unfold process_resumes_worker, try_except. rewrite attempt_eq.
  destruct (load_model E (Some update_progress) st) as [[t1 st1] [e|model]];
    [now rewrite handle_error_eq|].
  destruct (gather E self st1) as [[t2 st2] [e|[|r rs]]].
  - now rewrite handle_error_eq, <- app_assoc.
  - now rewrite handle_error_eq, <- app_assoc.
  - destruct (rank_resumes E (r :: rs) (full_job_desc role description) model
                (Some ranking_progress_callback) st2) as [[t3 st3] [e|ranked]].
    + now rewrite handle_error_eq, <- !app_assoc.
    + reflexivity.
Qed.


Lemma extracted_failed_length (files : list str) :
  List.length (extracted E files) + List.length (failed E files) = List.length files.
Proof.
  unfold extracted, failed. induction files as [|p files IH]; [reflexivity|].
  cbn [flat_map filter]. destruct (extraction E p); cbn [succeeds negb];
    rewrite ?length_app; cbn [List.length app]; lia.
Qed.


Lemma ranking_scored (model : Model) (job : str) (resumes : list resume) :
  scored E model job resumes = true ->
  exists ranked,
    ranking E resumes job model = inr ranked /\
    Permutation (List.map fst ranked) resumes.
Proof.
  unfold scored, ranking.
  destruct (encode E model job) as [e|je]; [discriminate|].
  destruct (encode_batch E model (List.map text resumes)) as [e|te]; [discriminate|].
  destruct (pytorch_cos_sim E je te) as [e|scores]; [discriminate|].
  intro H. apply Nat.eqb_eq in H. eexists. split; [reflexivity|].
  rewrite <- sorted_reverse_perm. now rewrite map_fst_combine.
Qed.


(** C4. Once the model is provisioned, a document whose text cannot be
    extracted costs one printed warning and nothing else. When some
    document remains and the model scores the batch, exactly one ranking
    is displayed; it holds the records of the documents that could be
    read, one each, and no error is shown. When no document remains, the
    body of the worker raises the [ValueError] for the lack of valid
    input and no ranking is displayed; the failure sink receives the
    message of that exception when the main loop calls the scheduled
    handler while the exception is still bound. *)
Theorem extraction_failures_are_isolated
    (self : gui) (role description : str) (st : fs) (model : Model) :
  preloaded_resume_data self = None ->
  result_of (load_model E (Some update_progress) st) = inr model ->
  let files := selected_files self in
  let t := trace_of (process_resumes_worker E self role description st) in
  List.length (filter is_print t) = List.length (failed E files) /\
  (List.length (failed E files) < List.length files ->
   scored E model (full_job_desc role description) (extracted E files) = true ->
   exists ranked,
     filter is_display t = [Display ranked] /\
     List.length ranked = List.length files - List.length (failed E files) /\
     Permutation (List.map fst ranked) (extracted E files) /\
     existsb is_show_error t = false /\
     existsb is_callback_error t = false) /\
  (List.length (failed E files) = List.length files ->
   result_of (attempt E self role description st) = inl no_valid_resumes /\
   existsb is_display t = false /\
   filter is_show_error t =
     if main_loop_first E
     then [ShowError (s "An error occurred during analysis:" ++ nl ++ nl
                        ++ s "No valid resumes could be processed.")]
     else []).
Proof.
  intros Hpre Hload. cbv zeta. revert Hload.
  pose proof (extracted_failed_length (selected_files self)) as Hlen.
  rewrite attempt_eq.
  worker_cases worker_eq load_model_run gather_run rank_resumes_run E self role description st; intro Hload; try discriminate;
    injection Hload as ->; rewrite Hpre in *; destruct Hres as [Hres Hprints];
    rewrite <- Hres in *; cbn [List.length] in Hlen;
    rewrite !filter_app, !length_app, ?existsb_app;
    repeat match goal with
      | |- context [existsb ?p ?tr] =>
          is_var tr;
          replace (existsb p tr) with false
            by (symmetry; quiet stage_existsb stage_filter)
      | |- context [filter ?p ?tr] =>
          is_var tr;
          replace (filter p tr) with (@nil event)
            by (symmetry; quiet stage_existsb stage_filter)
      end.
  - (* no record *)
    cbn [result_of snd].
    unfold failure_events. destruct (main_loop_first E).
    + split; [cbn; lia|]. split; [intro; lia|]. intros _.
      repeat split.
    + split; [cbn; lia|]. split; [intro; lia|]. intros _.
      repeat split.
  - (* ranking raises *)
    split; [unfold failure_events; destruct (main_loop_first E); cbn; lia|].
    split; [|intro; lia].
    intros _ Hsc. destruct (ranking_scored _ _ _ Hsc) as (ranked & Hrk & _).
    congruence.
  - (* ranking displayed *)
    split; [cbn; lia|]. split; [|intro; lia].
    intros _ Hsc. destruct (ranking_scored _ _ _ Hsc) as (ranked' & Hrk & Hperm).
    assert (ranked' = ranked) by congruence. subst ranked'.
    exists ranked.
    repeat split; try reflexivity; [|exact Hperm].
    apply Permutation_length in Hperm. rewrite length_map in Hperm.
    rewrite Hperm. cbn [List.length]. lia.
Qed.

Lemma later_state (later : option callback) (n : nat) :
  later = None \/ later = Some update_progress ->
  Nat.iter n (fun st' => state_of (load_model E later st')) true = true.
Proof.
  intro H. induction n as [|n IH]; [reflexivity|].
  rewrite Nat.iter_succ, IH. now apply load_model_from_disk.
Qed.

(** C5 (amended). After a call of [load_model] that returned, the model
    directory exists, and every later call finds it: it fetches nothing
    from the hub and leaves the directory in place. No handle is kept,
    though: each later call reads the model from disk again and, given
    the progress callback, reports the whole sequence 0.0, 0.1, ..., 1.0
    again, followed by 1.0 when the model could be read. *)
Theorem provisioned_model_is_not_fetched_again
    (first later : option callback) (st : fs) (n : nat) :
  first = None \/ first = Some update_progress ->
  later = None \/ later = Some update_progress ->
  succeeds (result_of (load_model E first st)) = true ->
  let st_n :=
    Nat.iter n (fun st' => state_of (load_model E later st'))
      (state_of (load_model E first st)) in
  let L := load_model E later st_n in
  existsb is_fetch (trace_of L) = false /\
  filter is_load (trace_of L) = [Load (model_path E)] /\
  state_of L = true /\
  fractions (trace_of (load_model E (Some update_progress) st_n)) =
    loading_fractions ++
      (if succeeds (st_load E (model_path E)) then [1.0%Q] else []).
Proof.
  intros Hfirst Hlater Hok. cbv zeta.
  pose proof (load_model_provisions first st Hfirst) as Hst.
  cbv zeta in Hst. rewrite Hok in Hst. rewrite Hst.
  rewrite (later_state later n Hlater).
  destruct (load_model_from_disk later Hlater) as (H1 & H2 & H3 & _).
  repeat split; try assumption.
  apply load_model_from_disk_fractions.
Qed.


Lemma resume_record_named (pdf_path text : str) :
  nonempty (candidate_name (resume_record pdf_path text)) = true.
Proof.
  unfold resume_record. cbn [candidate_name].
  destruct (extract_candidate_name text); reflexivity.
Qed.

Lemma extracted_named (files : list str) :
  forallb (fun r => nonempty (candidate_name r)) (extracted E files) = true.
Proof.
  unfold extracted. induction files as [|p files IH]; [reflexivity|].
  cbn [flat_map]. destruct (extraction E p); [exact IH|].
  cbn [app forallb]. now rewrite resume_record_named.
Qed.

Lemma ranking_named (resumes : list resume) (job : str) (model : Model)
    (ranked : list (resume * Q)) :
  forallb (fun r => nonempty (candidate_name r)) resumes = true ->
  ranking E resumes job model = inr ranked ->
  forallb (fun p => nonempty (candidate_name (fst p))) ranked = true.
Proof.
  intros Hall Hrk. unfold ranking in Hrk.
  destruct (encode E model job) as [e|je]; [discriminate|].
  destruct (encode_batch E model (List.map text resumes)) as [e|te]; [discriminate|].
  destruct (pytorch_cos_sim E je te) as [e|scores]; [discriminate|].
  injection Hrk as <-. apply forallb_forall. intros [r q] Hin.
  apply (Permutation_in _ (Permutation_sym (sorted_reverse_perm snd _))) in Hin.
  apply in_combine_l in Hin.
  rewrite forallb_forall in Hall. now apply Hall.
Qed.

(** C10. The record built for a document whose text was extracted always
    carries a name: the first line that is not blank, stripped, and the
    literal "Unknown Name" when [extract_candidate_name] returns the empty
    string, which it does exactly when every line is blank. So every
    entry of a ranking displayed by the folder-based worker has a name. *)
Theorem candidate_name_is_never_empty :
  (forall pdf_path text,
     nonempty (candidate_name (resume_record pdf_path text)) = true) /\
  (forall pdf_path text,
     extract_candidate_name text = [] ->
     candidate_name (resume_record pdf_path text) = s "Unknown Name") /\
  (forall text,
     extract_candidate_name text = [] <->
     forallb blank (splitlines text) = true) /\
  (forall (self : gui) (role description : str) (st : fs),
     preloaded_resume_data self = None ->
     forallb displays_names
       (trace_of (process_resumes_worker E self role description st)) = true).
Proof.
  split; [exact resume_record_named|]. split; [|split].
  - intros pdf_path text H. unfold resume_record. cbn [candidate_name].
    now rewrite H.
  - exact extract_candidate_name_empty.
  - intros self role description st Hpre.
    worker_cases worker_eq load_model_run gather_run rank_resumes_run E self role description st; rewrite !forallb_app;
      replace (forallb displays_names t1) with true
        by (symmetry; rewrite (forallb_filter displays_names is_display),
              (stage_filter provisioning_event is_display t1);
            [reflexivity | intros [] ?; solve [reflexivity | discriminate]
             | assumption | intros [] ?; solve [reflexivity | discriminate]]);
      try replace (forallb displays_names t2) with true
        by (symmetry; rewrite (forallb_filter displays_names is_display),
              (stage_filter extraction_event is_display t2);
            [reflexivity | intros [] ?; solve [reflexivity | discriminate]
             | assumption | intros [] ?; solve [reflexivity | discriminate]]);
      try replace (forallb displays_names t3) with true
        by (symmetry; rewrite (forallb_filter displays_names is_display),
              (stage_filter ranking_event is_display t3);
            [reflexivity | intros [] ?; solve [reflexivity | discriminate]
             | assumption | intros [] ?; solve [reflexivity | discriminate]]);
      try match goal with
        | |- context [failure_events] =>
            unfold failure_events; destruct (main_loop_first E)
        end;
      try reflexivity.
    rewrite Hpre in Hres. destruct Hres as [Hres _].
    cbn [success_events forallb displays_names andb].
    rewrite andb_true_r.
    apply (ranking_named (r :: rs) (full_job_desc role description) model);
      [|now symmetry].
    rewrite Hres. apply extracted_named.
Qed.
End PipelineProps.

(** ** The normaliser *)

(** C8. De-spacing only touches runs of single capitals: the three
    examples of the specification; the text is rewritten as [despaced]
    describes, spaces being taken out of maximal runs of single capitals
    bounded by white space or an end of the text and nowhere else; nothing
    but ASCII spaces is ever removed, and through the whole normaliser every
    character that is not white space survives, in order. *)
Theorem despacing_only_merges_spaced_capitals :
  normalize_text (s "J O H N Smith") = s "JOHN Smith" /\
  normalize_text (s "A B C 1 2 3") = s "ABC 1 2 3" /\
  normalize_text (s "a b c") = s "a b c" /\
  (forall x, despaced true x (remove_spaced_out_words x)) /\
  (forall x, remove_spaces (remove_spaced_out_words x) = remove_spaces x) /\
  (forall x, filter not_space (normalize_text x) = filter not_space x).
Proof.
  repeat split; try reflexivity.
  - intro x. rewrite remove_spaced_out_words_despace. apply despace_despaced.
  - intro x. rewrite remove_spaced_out_words_despace. apply despace_keeps_non_spaces.
  - exact normalize_text_keeps_not_space.
Qed.

(** C9. The second pass strips and collapses: the example of the
    specification; the empty text gives the empty text; the result is the
    words of the de-spaced text joined by single ASCII spaces, so it has
    no white space at either end and no white space but single spaces. *)
Theorem normalize_collapses_whitespace :
  normalize_text (s "  Hello" ++ nl ++ nl ++ s "  World  ") = s "Hello World" /\
  normalize_text (s "one" ++ tab ++ nl ++ s " two") = s "one two" /\
  normalize_text [] = [] /\
  (forall x, normalize_text x = join [space] (split (remove_spaced_out_words x))) /\
  (forall x, collapsed (normalize_text x) = true).
Proof.
  repeat split; try reflexivity.
  - exact normalize_text_join.
  - exact normalize_text_collapsed.
Qed.

(** C3 (amended). Normalisation is idempotent on a text whose white space
    is already collapsed: words separated by single ASCII spaces, nothing at
    either end. *)
Theorem normalize_idempotent_on_collapsed (x : str) :
  collapsed x = true -> normalize_text (normalize_text x) = normalize_text x.
Proof. apply normalize_text_fixed. Qed.

Lemma normalize_idempotent_on_collapsed_witness :
  collapsed (s "J O H N Smith") = true /\
  normalize_text (normalize_text (s "J O H N Smith")) = normalize_text (s "J O H N Smith").
Proof.
  split; [reflexivity|].
  apply (normalize_idempotent_on_collapsed (s "J O H N Smith")). reflexivity.
Defined.

(** C3, as stated, fails: two spaces between two capitals survive the
    first pass as one space, which the second pass removes. *)
Lemma normalize_not_idempotent :
  normalize_text (s "A  B") = s "A B" /\
  normalize_text (normalize_text (s "A  B")) = s "AB" /\
  normalize_text (normalize_text (s "A  B")) <> normalize_text (s "A  B").
Proof.
  split; [reflexivity|]. split; [reflexivity|]. vm_compute. discriminate.
Qed.

(** What one pass leaves is a fixed point of the next ones. *)
Lemma normalize_settles_after_two (x : str) :
  normalize_text (normalize_text (normalize_text x)) = normalize_text (normalize_text x).
Proof. apply normalize_text_fixed, normalize_text_collapsed. Qed.

(** ** The ranker *)

(** C7. The list [rank_resumes] returns, with or without progress
    reports, is the records zipped with the scores the model gives them,
    sorted by score, highest first, records of equal score in their input
    order, nothing lost and nothing added; it raises what an encoding or
    the similarity raises. The same holds of the sort on every scored
    sequence; and the example of the specification, on the sort and
    through [rank_resumes]. *)
Theorem ranking_is_a_stable_descending_sort :
  (forall scored_resumes : list (resume * Q),
     let ranked := sorted (@snd resume Q) true scored_resumes in
     StronglySorted (key_ge snd) ranked /\
     Permutation scored_resumes ranked /\
     List.length ranked = List.length scored_resumes /\
     forall q, filter (has_key snd q) ranked = filter (has_key snd q) scored_resumes) /\
  (forall {Model Embedding Tensor} (E : env Model Embedding Tensor)
          resumes job model (reporting : bool) st,
     let progress_callback :=
       if reporting then Some ranking_progress_callback else None in
     let returned :=
       result_of (rank_resumes E resumes job model progress_callback st) in
     match encode E model job with
     | inl e => returned = inl e
     | inr job_embedding =>
         match encode_batch E model (List.map text resumes) with
         | inl e => returned = inl e
         | inr resume_embeddings =>
             match pytorch_cos_sim E job_embedding resume_embeddings with
             | inl e => returned = inl e
             | inr cosine_scores =>
                 let scored_resumes := combine resumes cosine_scores in
                 exists ranked,
                   returned = inr ranked /\
                   ranked = sorted snd true scored_resumes /\
                   StronglySorted (key_ge snd) ranked /\
                   Permutation scored_resumes ranked /\
                   List.length ranked = List.length scored_resumes /\
                   forall q,
                     filter (has_key snd q) ranked
                     = filter (has_key snd q) scored_resumes
             end
         end
     end) /\
  sorted snd true
    [(named (s "A"), 0.5714%Q); (named (s "B"), 0.9%Q); (named (s "C"), 0.5714%Q)]
  = [(named (s "B"), 0.9%Q); (named (s "A"), 0.5714%Q); (named (s "C"), 0.5714%Q)] /\
  result_of (rank_resumes tied_env [named (s "A"); named (s "B"); named (s "C")]
               (s "Job Role: Analyst") tt None true)
  = inr [(named (s "B"), 0.9%Q); (named (s "A"), 0.5714%Q); (named (s "C"), 0.5714%Q)].
Proof.
  split; [|split; [|split]].
  - intro scored_resumes. cbv zeta. repeat split.
    + apply sorted_reverse_descending.
    + apply sorted_reverse_perm.
    + symmetry. apply Permutation_length, sorted_reverse_perm.
    + intro q. apply sorted_reverse_stable.
  - intros Model Embedding Tensor E resumes job model reporting st. cbv zeta.
    assert (Hres :
      result_of (rank_resumes E resumes job model
                   (if reporting then Some ranking_progress_callback else None) st)
      = ranking E resumes job model).
    { destruct reporting; [apply rank_resumes_run|apply rank_resumes_silent]. }
    rewrite Hres. unfold ranking.
    destruct (encode E model job) as [e|je]; [reflexivity|].
    destruct (encode_batch E model (List.map text resumes)) as [e|te]; [reflexivity|].
    destruct (pytorch_cos_sim E je te) as [e|scores]; [reflexivity|].
    eexists. split; [reflexivity|]. split; [reflexivity|]. repeat split.
    + apply sorted_reverse_descending.
    + apply sorted_reverse_perm.
    + symmetry. apply Permutation_length, sorted_reverse_perm.
    + intro q. apply sorted_reverse_stable.
  - reflexivity.
  - reflexivity.
Qed.

(** ** Runs on the sample data *)



(** A failure that is never shown: the model directory cannot be read, and
    the main loop calls the scheduled handler after the worker has left
    its except block. The callback raises, no error is shown, and the
    progress stays at the 1.0 of the simulated loading. *)
Lemma failure_can_go_unreported :
  let run := process_resumes_worker unlucky_env (folder [s "/cv/ada.pdf"])
               sample_role sample_description true in
  result_of (attempt unlucky_env (folder [s "/cv/ada.pdf"])
               sample_role sample_description true)
  = inl (LibraryError (s "config.json not found")) /\
  existsb is_display (trace_of run) = false /\
  existsb is_show_error (trace_of run) = false /\
  filter is_callback_error (trace_of run) = [CallbackError (str_of_exn unbound_e)] /\
  same_fractions (fractions (trace_of run))
    [0.0; 0.1; 0.2; 0.3; 0.4; 0.5; 0.6; 0.7; 0.8; 0.9; 1.0]%Q = true.
Proof. repeat split. Qed.

(** With no readable file and the main loop first, the failure sink gets
    the message of the [ValueError] and the progress goes back to 0. *)
Lemma no_valid_resumes_is_shown :
  let run := process_resumes_worker sample_env
               (folder [s "/cv/missing.pdf"; s "/cv/broken.pdf"])
               sample_role sample_description true in
  existsb is_display (trace_of run) = false /\
  filter is_show_error (trace_of run)
  = [ShowError (s "An error occurred during analysis:" ++ nl ++ nl
                  ++ s "No valid resumes could be processed.")] /\
  last_is 0 (fractions (trace_of run)) = true.
Proof. repeat split. Qed.

Lemma extraction_failures_are_isolated_witness :
  let t := trace_of (process_resumes_worker sample_env (folder five_files)
                       sample_role sample_description false) in
  List.length five_files = 5 /\
  List.length (failed sample_env five_files) = 2 /\
  List.length (filter is_print t) = 2 /\
  exists ranked,
    filter is_display t = [Display ranked] /\ List.length ranked = 3.
Proof.
  destruct (extraction_failures_are_isolated sample_env (folder five_files)
              sample_role sample_description false tt eq_refl eq_refl)
    as (Hprints & Hsome & _).
  split; [reflexivity|]. split; [reflexivity|]. split; [exact Hprints|].
  destruct Hsome as (ranked & Hdisplay & Hlen & _).
  - vm_compute. lia.
  - reflexivity.
  - exists ranked. split; [exact Hdisplay|exact Hlen].
Defined.

(** C5, as stated, fails: the call after a successful download reads the
    model from disk and reports the fractions 0.0, 0.1, ..., 1.0 again. *)
Lemma reload_reports_progress_again :
  let first := load_model sample_env (Some update_progress) false in
  let second := load_model sample_env (Some update_progress) (state_of first) in
  succeeds (result_of first) = true /\
  filter is_load (trace_of second) = [Load (model_path sample_env)] /\
  same_fractions (fractions (trace_of second))
    [0.0; 0.1; 0.2; 0.3; 0.4; 0.5; 0.6; 0.7; 0.8; 0.9; 1.0; 1.0]%Q = true.
Proof. repeat split. Qed.

Lemma provisioned_model_is_not_fetched_again_witness :
  let first := load_model sample_env (Some update_progress) false in
  let third :=
    load_model sample_env (Some update_progress)
      (state_of (load_model sample_env (Some update_progress) (state_of first))) in
  succeeds (result_of first) = true /\
  existsb is_fetch (trace_of third) = false /\
  state_of third = true.
Proof.
  destruct (provisioned_model_is_not_fetched_again sample_env
              (Some update_progress) (Some update_progress) false 1
              (or_intror eq_refl) (or_intror eq_refl) eq_refl)
    as (Hfetch & _ & Hstate & _).
  split; [reflexivity|]. split; [exact Hfetch|exact Hstate].
Defined.



Lemma candidate_name_is_never_empty_witness :
  extract_candidate_name (s "  " ++ nl ++ tab) = [] /\
  candidate_name (resume_record (s "/cv/empty.pdf") (s "  " ++ nl ++ tab))
  = s "Unknown Name" /\
  forallb displays_names
    (trace_of (process_resumes_worker sample_env (folder five_files)
                 sample_role sample_description true)) = true.
Proof.
  destruct (candidate_name_is_never_empty sample_env) as (_ & Hunknown & _ & Hrun).
  split; [reflexivity|]. split.
  - apply Hunknown. reflexivity.
  - apply Hrun. reflexivity.
Defined.

(** * Further properties *)


(** ** The mouse wheel *)

(** A turn of the wheel by whole notches of 120 scrolls by as many units,
    the other way round; a turn of less than a notch scrolls one unit when
    it is downwards and not at all when it is upwards; and a larger turn
    upwards never scrolls further down. *)
Theorem small_wheel_turns_scroll_only_down :
  (forall notches : Z, scroll_factor (120 * notches) = (- notches)%Z) /\
  (forall delta : Z,
     (0 < delta < 120)%Z ->
     scroll_factor delta = 0%Z /\ scroll_factor (- delta) = 1%Z) /\
  (forall delta delta' : Z,
     (delta <= delta')%Z -> (scroll_factor delta' <= scroll_factor delta)%Z).
Proof.
  unfold scroll_factor. split; [|split].
  - intro notches. rewrite (Z.mul_comm 120 notches), Z.div_mul by lia. lia.
  - intros delta H.
    rewrite Z.div_small by lia.
    assert (H' : (- delta / 120 = -1)%Z).
    { symmetry. apply (Z.div_unique _ _ _ (120 - delta)); lia. }
    rewrite H'. split; reflexivity.
  - intros delta delta' H.
    pose proof (Z.div_le_mono delta delta' 120 ltac:(lia) H). lia.
Qed.

Lemma small_wheel_turns_scroll_only_down_witness :
  scroll_factor 1 = 0%Z /\ scroll_factor (-1) = 1%Z /\
  (scroll_factor 240 <= scroll_factor (-3))%Z.
Proof.
  destruct small_wheel_turns_scroll_only_down as (_ & Hsmall & Hmono).
  destruct (Hsmall 1%Z ltac:(lia)) as [Hup Hdown].
  split; [exact Hup|]. split; [exact Hdown|].
  apply Hmono. lia.
Defined.

(** ** Adding resumes one by one *)

Lemma strip_head (x : str) :
  match strip x with
  | c :: _ => isspace c = false
  | [] => True
  end.
Proof.
  unfold strip.
  assert (H : match lstrip x with c :: _ => isspace c = false | [] => True end).
  { induction x as [|c t IH]; [exact I|]. cbn [lstrip].
    destruct (isspace c) eqn:Hc; [exact IH|exact Hc]. }
  destruct (lstrip x) as [|c t]; [exact I|].
  rewrite rstrip_cons, blank_cons, H. exact H.
Qed.

Lemma strip_strip (x : str) : strip (strip x) = strip x.
Proof.
  pose proof (strip_head x) as Hhead.
  assert (Hend : ends_in_space (strip x) = false) by apply rstrip_ends.
  destruct (strip x) as [|c t]; [reflexivity|].
  unfold strip at 1. cbn [lstrip]. rewrite Hhead. now apply rstrip_fixed.
Qed.

Lemma str_eqb_refl (x : str) : str_eqb x x = true.
Proof.
  induction x as [|c t IH]; [reflexivity|]. cbn [str_eqb].
  now rewrite N.eqb_refl, IH.
Qed.

Lemma str_eqb_eq (x y : str) : str_eqb x y = true <-> x = y.
Proof.
  split; [|intros ->; apply str_eqb_refl].
  revert y. induction x as [|c t IH]; intros [|d u]; try discriminate; [reflexivity|].
  cbn [str_eqb]. intro H. apply andb_true_iff in H. destruct H as [Hc Ht].
  apply N.eqb_eq in Hc. apply IH in Ht. congruence.
Qed.

Section AddingProps.
Context {Model Embedding Tensor : Type}.
Variable E : env Model Embedding Tensor.

Import IndividualResumeScreen.

(** The outcome of [add_resume], case by case. *)
Lemma add_resume_eq (self : screen) :
  add_resume E self =
  if blank (candidate_name_var self) then
    ([showwarning (s "Input Required") (s "Please enter a candidate name.")], self)
  else
    match selected_file self with
    | None | Some [] =>
        ([showwarning (s "File Required") (s "Please select a PDF resume file.")], self)
    | Some ((_ :: _) as path) =>
        match extraction E path with
        | inr text =>
            ([],
             {| candidate_name_var := [];
                selected_file := None;
                resume_list :=
                  resume_list self ++
                    [{| file_name := basename path;
                        candidate_name := strip (candidate_name_var self);
                        text := normalize_text text;
                        full_path := path |}];
                file_label := s "No file selected";
                counter_label :=
                  s "Resumes added: " ++ str_of_nat (S (List.length (resume_list self)));
                process_btn := true |})
        | inl e =>
            ([showerror (s "Error")
                (s "Failed to process the PDF file:" ++ nl ++ str_of_exn e)],
             self)
        end
    end.
Proof.
  unfold add_resume.
  pose proof (strip_nil (candidate_name_var self)) as Hname.
  destruct (strip (candidate_name_var self)) as [|c name] eqn:Hs.
  { replace (blank (candidate_name_var self)) with true
      by (symmetry; now apply Hname). reflexivity. }
  destruct (blank (candidate_name_var self)) eqn:Hb;
    [destruct Hname as [_ Hname]; now specialize (Hname eq_refl)|].
  destruct (selected_file self) as [[|d path]|]; try reflexivity.
  destruct (extraction E (d :: path)) as [e|text]; [reflexivity|].
  rewrite length_app, Nat.add_1_r.
  destruct (resume_list self); reflexivity.
Qed.

(** [add_resume] either refuses with one message box and leaves the screen
    as it was, the list included, or appends one record and clears the
    inputs. It appends exactly when the name typed is not blank, a file
    is selected and its text can be extracted; the record then carries the
    stripped name, the normalised text and the file name of the path. A
    second [add_resume] right after it is refused for lack of a name. *)
Theorem add_resume_appends_one_record_or_nothing (self : screen) :
  let boxes := fst (add_resume E self) in
  let after := snd (add_resume E self) in
  (boxes = [] <->
   blank (candidate_name_var self) = false /\
   exists path text,
     selected_file self = Some path /\ path <> [] /\ extraction E path = inr text) /\
  (boxes <> [] -> List.length boxes = 1 /\ after = self) /\
  (forall path text,
     boxes = [] -> selected_file self = Some path -> extraction E path = inr text ->
     resume_list after =
       resume_list self ++
         [{| file_name := basename path;
             candidate_name := strip (candidate_name_var self);
             text := normalize_text text;
             full_path := path |}] /\
     candidate_name_var after = [] /\ selected_file after = None /\
     process_btn after = true /\
     add_resume E after =
       ([showwarning (s "Input Required") (s "Please enter a candidate name.")], after)).
Proof.
  cbv zeta. rewrite add_resume_eq.
  destruct (blank (candidate_name_var self)) eqn:Hb.
  { cbn [fst snd]. split; [|split]; [|auto|discriminate].
    split; [discriminate|]. intros [H _]. discriminate. }
  destruct (selected_file self) as [[|d path]|] eqn:Hsel.
  - cbn [fst snd]. split; [|split]; [|auto|discriminate].
    split; [discriminate|]. intros (_ & p & t & Hp & Hne & _). congruence.
  - destruct (extraction E (d :: path)) as [e|text] eqn:Hx.
    + cbn [fst snd]. split; [|split]; [|auto|discriminate].
      split; [discriminate|]. intros (_ & p & t & Hp & _ & Ht). congruence.
    + cbn [fst snd]. split; [|split]; [|congruence|].
      * split; [|reflexivity]. intros _. split; [reflexivity|].
        exists (d :: path), text. repeat split; [discriminate|exact Hx].
      * intros p t _ Hp Ht. injection Hp as <-. rewrite Hx in Ht. injection Ht as <-.
        cbn [resume_list candidate_name_var selected_file process_btn].
        repeat split.
  - cbn [fst snd]. split; [|split]; [|auto|discriminate].
    split; [discriminate|]. intros (_ & p & t & Hp & _). congruence.
Qed.

Lemma well_formed_added (name path content : str) :
  blank name = false -> path <> [] ->
  well_formed
    {| file_name := basename path; candidate_name := strip name;
       text := normalize_text content; full_path := path |} = true.
Proof.
  intros Hname Hpath. unfold well_formed.
  cbn [candidate_name text file_name full_path].
  rewrite strip_strip, !str_eqb_refl, normalize_text_collapsed.
  destruct path; [congruence|].
  destruct (strip name) eqn:Hs; [|reflexivity].
  apply strip_nil in Hs. congruence.
Qed.

Lemma perform_consistent (e : edit) (self : screen) :
  adding_consistent self -> adding_consistent (perform E e self).
Proof.
  intro H. pose proof H as (Hwf & Hcount & Hbtn & Hsel). destruct e; cbn [perform].
  - exact H.
  - unfold select_pdf. destruct file_path; [exact H|].
    unfold adding_consistent. cbn [resume_list counter_label process_btn selected_file].
    repeat split; try assumption. discriminate.
  - rewrite add_resume_eq.
    destruct (blank (candidate_name_var self)) eqn:Hb; [exact H|].
    destruct (selected_file self) as [[|d path]|]; try exact H.
    destruct (extraction E (d :: path)) as [err|text]; [exact H|].
    cbn [snd]. unfold adding_consistent.
    cbn [resume_list counter_label process_btn selected_file].
    rewrite forallb_app, Hwf, length_app, Nat.add_1_r. cbn [forallb andb].
    rewrite well_formed_added by (assumption || discriminate).
    repeat split; [|discriminate].
    destruct (resume_list self); reflexivity.
Qed.

Lemma init_adding_consistent : adding_consistent init.
Proof. repeat split. discriminate. Qed.

Lemma edits_consistent (l : list edit) (self : screen) :
  adding_consistent self -> adding_consistent (edits E l self).
Proof.
  revert self. induction l as [|e l IH]; intros self H; [exact H|].
  cbn [edits fold_left]. apply IH. now apply perform_consistent.
Qed.

(** However names are typed, files chosen and Add Resume pressed, every
    record of the list has a name that is not empty and has no white space
    at either end, a text with its white space collapsed, a path and the
    file name of that path; the counter shows the number of records, and
    the process button is enabled exactly when there is one. *)
Theorem added_resumes_are_well_formed (l : list edit) :
  let self := edits E l init in
  forallb well_formed (resume_list self) = true /\
  counter_label self = s "Resumes added: " ++ str_of_nat (List.length (resume_list self)) /\
  process_btn self = nonempty_list (resume_list self).
Proof.
  cbv zeta.
  destruct (edits_consistent l init init_adding_consistent) as (H1 & H2 & H3 & _).
  auto.
Qed.
End AddingProps.

Lemma add_resume_appends_one_record_or_nothing_witness :
  fst (IndividualResumeScreen.add_resume sample_env ada_typed) = [] /\
  List.map candidate_name
    (IndividualResumeScreen.resume_list
       (snd (IndividualResumeScreen.add_resume sample_env ada_typed)))
  = [s "Ada Lovelace"] /\
  snd (IndividualResumeScreen.add_resume sample_env IndividualResumeScreen.init)
  = IndividualResumeScreen.init.
Proof.
  destruct (add_resume_appends_one_record_or_nothing sample_env ada_typed)
    as (Hiff & _ & Hadded).
  destruct (add_resume_appends_one_record_or_nothing sample_env
              IndividualResumeScreen.init) as (_ & Hrefused & _).
  assert (Hboxes : fst (IndividualResumeScreen.add_resume sample_env ada_typed) = []).
  { apply Hiff. split; [reflexivity|].
    exists (s "/cv/ada.pdf"), (s "A D A   Lovelace" ++ nl ++ s "Analyst").
    repeat split. discriminate. }
  split; [exact Hboxes|]. split.
  - destruct (Hadded (s "/cv/ada.pdf") (s "A D A   Lovelace" ++ nl ++ s "Analyst")
                Hboxes eq_refl eq_refl) as (Hlist & _).
    rewrite Hlist. reflexivity.
  - apply Hrefused. vm_compute. discriminate.
Defined.

(** ** The pages of results *)

Section ResultPages.
Import EnhancedResumeRankerGUI.
Variable np : promotion.

Local Abbreviation card := (EnhancedResumeRankerGUI.card np).
Local Abbreviation update_results_page := (EnhancedResumeRankerGUI.update_results_page np).
Local Abbreviation update_results_display :=
  (EnhancedResumeRankerGUI.update_results_display np).
Local Abbreviation next_page := (EnhancedResumeRankerGUI.next_page np).
Local Abbreviation prev_page := (EnhancedResumeRankerGUI.prev_page np).
Local Abbreviation refresh_results := (EnhancedResumeRankerGUI.refresh_results np).
Local Abbreviation step := (EnhancedResumeRankerGUI.step np).
Local Abbreviation run := (EnhancedResumeRankerGUI.run np).
Local Abbreviation ranked_card := (ranked_card np).
Local Abbreviation cards_from := (cards_from np).
Local Abbreviation cards_of_page := (cards_of_page np).
Local Abbreviation showing := (showing np).

(** ** Slices *)

Lemma slice_nonneg {A} (l : list A) (a b : Z) :
  (0 <= a <= b)%Z ->
  slice l a b = firstn (Z.to_nat (b - a)) (skipn (Z.to_nat a) l).
Proof.
  intros H. unfold slice, slice_index.
  destruct (a <? 0)%Z eqn:Ha; [apply Z.ltb_lt in Ha; lia|].
  destruct (b <? 0)%Z eqn:Hb; [apply Z.ltb_lt in Hb; lia|].
  cbv zeta.
  destruct (Z_le_gt_dec (Z.of_nat (List.length l)) a) as [Hle|Hgt].
  - rewrite Z.min_r by lia.
    rewrite (skipn_all2 l) by lia.
    rewrite (skipn_all2 l (n := Z.to_nat a)) by lia.
    now rewrite !firstn_nil.
  - rewrite (Z.min_l a) by lia.
    destruct (Z_le_gt_dec (Z.of_nat (List.length l)) b) as [Hle'|Hgt'].
    + rewrite Z.min_r by lia.
      rewrite !firstn_all2; [reflexivity| |]; rewrite length_skipn; lia.
    + now rewrite Z.min_l by lia.
Qed.

Lemma slice_page (ranked : list (resume * Q)) (page : Z) :
  (1 <= page)%Z ->
  slice ranked ((page - 1) * results_per_page)
    ((page - 1) * results_per_page + results_per_page)
  = page_entries ranked page.
Proof.
  intro H. unfold results_per_page, page_entries.
  rewrite slice_nonneg by lia.
  replace (Z.to_nat ((page - 1) * 10 + 10 - (page - 1) * 10)) with 10 by lia.
  reflexivity.
Qed.

(** ** The page shown *)

Lemma card_ranked (start_index : nat) (first : nat) (entries : list (resume * Q)) :
  List.map (card (Z.of_nat start_index))
    (combine (seq first (List.length entries)) entries)
  = cards_from (start_index + first) entries.
Proof.
  unfold cards_from. revert first.
  induction entries as [|[r q] entries IH]; intro first; [reflexivity|].
  cbn [List.length seq combine List.map]. rewrite IH.
  replace (start_index + S first) with (S (start_index + first)) by lia.
  f_equal. unfold card, ranked_card. cbn [fst snd].
  f_equal. lia.
Qed.

Lemma fold_left_pack {A} (f : A -> item) (l : list A) (self : screen) :
  fold_left (fun self x => pack (f x) self) l self
  = set_results_list_frame (results_list_frame self ++ List.map f l) self.
Proof.
  revert self. induction l as [|x l IH]; intro self.
  - cbn. rewrite app_nil_r. now destruct self.
  - cbn [fold_left List.map]. rewrite IH. destruct self. unfold pack, set_results_list_frame.
    cbn. now rewrite <- app_assoc.
Qed.

(** What [update_results_page] leaves, attribute by attribute. *)
Lemma update_results_page_eq (self : screen) :
  (1 <= current_page self)%Z ->
  update_results_page self =
  {| selected_files := selected_files self; job_role := job_role self;
     job_desc_text := job_desc_text self; current_page := current_page self;
     total_pages := pages_needed (List.length (all_ranked_resumes self));
     all_ranked_resumes := all_ranked_resumes self;
     files_label := files_label self;
     progress_var := (1.0 * 100)%Q;
     progress_label :=
       match all_ranked_resumes self with
       | _ :: _ => s "Analysis complete."
       | [] => s "No results found."
       end;
     results_list_frame :=
       match page_entries (all_ranked_resumes self) (current_page self),
             (current_page self =? 1)%Z with
       | [], true => [Label (s "No matching results found.")]
       | _, _ => cards_of_page (all_ranked_resumes self) (current_page self)
       end;
     page_label :=
       match all_ranked_resumes self with
       | [] => []
       | _ :: _ =>
           s "Page " ++ str_of_int (current_page self) ++ s " of "
             ++ str_of_int (pages_needed (List.length (all_ranked_resumes self)))
       end;
     prev_button :=
       match all_ranked_resumes self with
       | [] => false
       | _ :: _ => (1 <? current_page self)%Z
       end;
     next_button :=
       match all_ranked_resumes self with
       | [] => false
       | _ :: _ =>
           (current_page self <? pages_needed (List.length (all_ranked_resumes self)))%Z
       end;
     process_btn := true |}.
Proof.
  intro Hpage. unfold update_results_page.
  cbv zeta.
  change (current_page (set_total_pages _ (destroy_children self))) with (current_page self).
  change (all_ranked_resumes (set_total_pages _ (destroy_children self)))
    with (all_ranked_resumes self).
  change (all_ranked_resumes (destroy_children self)) with (all_ranked_resumes self).
  rewrite slice_page by exact Hpage.
  unfold cards_of_page.
  replace (Z.to_nat ((current_page self - 1) * 10))
    with (Z.to_nat ((current_page self - 1) * 10) + 0) by lia.
  rewrite <- card_ranked.
  replace (Z.of_nat (Z.to_nat ((current_page self - 1) * 10)))
    with ((current_page self - 1) * results_per_page)%Z by (unfold results_per_page; lia).
  fold (pages_needed (List.length (all_ranked_resumes self))).
  destruct self as [sf jr jd cur tot all fl pv pl frame plab pb nb proc].
  cbn [current_page all_ranked_resumes] in *.
  destruct all as [|entry all];
    destruct (page_entries _ cur) as [|e es] eqn:Hentries;
    destruct (cur =? 1)%Z eqn:Hcur;
    try rewrite fold_left_pack;
    screen_fields; rewrite ?Hcur; reflexivity.
Qed.

(** The pages are consecutive pieces of the ranking. *)
Lemma firstn_plus {A} (a b : nat) (l : list A) :
  firstn (a + b) l = firstn a l ++ firstn b (skipn a l).
Proof.
  revert l. induction a as [|a IH]; intro l; [reflexivity|].
  destruct l as [|x l]; [now rewrite !firstn_nil|].
  cbn [Nat.add firstn skipn app]. now rewrite IH.
Qed.

Lemma cards_from_app (first : nat) (l l' : list (resume * Q)) :
  cards_from first (l ++ l') = cards_from first l ++ cards_from (first + List.length l) l'.
Proof.
  unfold cards_from. revert first.
  induction l as [|x l IH]; intro first.
  - cbn. now rewrite Nat.add_0_r.
  - cbn [app List.length seq combine List.map]. rewrite IH.
    now replace (S first + List.length l) with (first + S (List.length l)) by lia.
Qed.

Lemma cards_from_length (first : nat) (l : list (resume * Q)) :
  List.length (cards_from first l) = List.length l.
Proof.
  unfold cards_from. rewrite length_map, length_combine, length_seq. lia.
Qed.

Lemma pages_concat (ranked : list (resume * Q)) (pages : nat) :
  List.concat (List.map (fun k => cards_of_page ranked (Z.of_nat k + 1)%Z) (seq 0 pages))
  = cards_from 0 (firstn (pages * 10) ranked).
Proof.
  induction pages as [|pages IH]; [reflexivity|].
  rewrite seq_S, map_app, concat_app, IH. cbn [List.map List.concat Nat.add].
  rewrite app_nil_r.
  replace (S pages * 10) with (pages * 10 + 10) by lia.
  rewrite firstn_plus, cards_from_app. f_equal.
  unfold cards_of_page, page_entries.
  replace (Z.to_nat ((Z.of_nat pages + 1 - 1) * 10)) with (pages * 10) by lia.
  destruct (Nat.le_gt_cases (pages * 10) (List.length ranked)) as [Hle|Hgt].
  - now rewrite length_firstn, Nat.min_l by exact Hle.
  - rewrite skipn_all2 by lia. now rewrite firstn_nil.
Qed.

Lemma pages_needed_bounds (n : nat) :
  (1 <= pages_needed n)%Z /\
  (Z.of_nat n <= pages_needed n * 10)%Z /\
  (0 < n -> ((pages_needed n - 1) * 10 < Z.of_nat n)%Z).
Proof.
  unfold pages_needed, results_per_page.
  pose proof (Z.div_mod (Z.of_nat n + 10 - 1) 10 ltac:(lia)) as Hdiv.
  pose proof (Z.mod_pos_bound (Z.of_nat n + 10 - 1) 10 ltac:(lia)) as Hmod.
  split; [lia|]. split; [lia|]. intro. lia.
Qed.

Lemma page_entries_length (ranked : list (resume * Q)) (page : Z) :
  (1 <= page <= pages_needed (List.length ranked))%Z -> ranked <> [] ->
  List.length (page_entries ranked page) =
    (if (page <? pages_needed (List.length ranked))%Z then 10
     else List.length ranked - Z.to_nat ((page - 1) * 10)) /\
  1 <= List.length (page_entries ranked page) <= 10.
Proof.
  intros Hpage Hne.
  assert (Hn : 0 < List.length ranked) by (destruct ranked; [congruence|cbn; lia]).
  destruct (pages_needed_bounds (List.length ranked)) as (H1 & H2 & H3).
  specialize (H3 Hn).
  unfold page_entries. rewrite length_firstn, length_skipn.
  destruct (page <? pages_needed (List.length ranked))%Z eqn:Hlt.
  - apply Z.ltb_lt in Hlt. lia.
  - apply Z.ltb_ge in Hlt. lia.
Qed.

Lemma showing_eq (ranked : list (resume * Q)) (page : Z) (self : screen) :
  (1 <= page)%Z ->
  showing ranked page self =
  {| selected_files := selected_files self; job_role := job_role self;
     job_desc_text := job_desc_text self; current_page := page;
     total_pages := pages_needed (List.length ranked);
     all_ranked_resumes := ranked;
     files_label := files_label self;
     progress_var := (1.0 * 100)%Q;
     progress_label :=
       match ranked with
       | _ :: _ => s "Analysis complete."
       | [] => s "No results found."
       end;
     results_list_frame :=
       match page_entries ranked page, (page =? 1)%Z with
       | [], true => [Label (s "No matching results found.")]
       | _, _ => cards_of_page ranked page
       end;
     page_label :=
       match ranked with
       | [] => []
       | _ :: _ =>
           s "Page " ++ str_of_int page ++ s " of "
             ++ str_of_int (pages_needed (List.length ranked))
       end;
     prev_button := match ranked with [] => false | _ :: _ => (1 <? page)%Z end;
     next_button :=
       match ranked with
       | [] => false
       | _ :: _ => (page <? pages_needed (List.length ranked))%Z
       end;
     process_btn := true |}.
Proof.
  intro H. unfold showing. rewrite update_results_page_eq by exact H.
  destruct self. reflexivity.
Qed.

Lemma update_results_page_showing (self : screen) :
  update_results_page self = showing (all_ranked_resumes self) (current_page self) self.
Proof. unfold showing. now destruct self. Qed.

Lemma showing_showing (ranked ranked' : list (resume * Q)) (page page' : Z) (self : screen) :
  (1 <= page)%Z -> (1 <= page')%Z ->
  showing ranked page (showing ranked' page' self) = showing ranked page self.
Proof.
  intros H H'. rewrite (showing_eq ranked' page' self H').
  rewrite !showing_eq by exact H. reflexivity.
Qed.

Lemma turn_page_showing (page : Z) (self : screen) :
  update_results_page (set_current_page page self)
  = showing (all_ranked_resumes self) page self.
Proof. unfold showing. now destruct self. Qed.

Lemma showing_page (ranked : list (resume * Q)) (page : Z) (self : screen) :
  (1 <= page)%Z ->
  current_page (showing ranked page self) = page /\
  total_pages (showing ranked page self) = pages_needed (List.length ranked) /\
  all_ranked_resumes (showing ranked page self) = ranked.
Proof. intro H. rewrite showing_eq by exact H. now repeat split. Qed.

Lemma next_page_showing (ranked : list (resume * Q)) (page : Z) (self : screen) :
  (1 <= page)%Z ->
  next_page (showing ranked page self) =
  if (page <? pages_needed (List.length ranked))%Z
  then showing ranked (page + 1) self
  else showing ranked page self.
Proof.
  intros H. unfold next_page.
  destruct (showing_page ranked page self H) as (Hc & Ht & Ha).
  rewrite Hc, Ht.
  destruct (page <? pages_needed (List.length ranked))%Z; [|reflexivity].
  rewrite turn_page_showing, Ha. apply showing_showing; lia.
Qed.

Lemma prev_page_showing (ranked : list (resume * Q)) (page : Z) (self : screen) :
  (1 <= page)%Z ->
  prev_page (showing ranked page self) =
  if (1 <? page)%Z then showing ranked (page - 1) self else showing ranked page self.
Proof.
  intros H. unfold prev_page.
  destruct (showing_page ranked page self H) as (Hc & Ht & Ha).
  rewrite Hc.
  destruct (1 <? page)%Z eqn:Hp; [|reflexivity].
  apply Z.ltb_lt in Hp.
  rewrite turn_page_showing, Ha. apply showing_showing; lia.
Qed.

Lemma showing_frame (ranked : list (resume * Q)) (page : Z) (self : screen) :
  (1 <= page <= pages_needed (List.length ranked))%Z -> ranked <> [] ->
  results_list_frame (showing ranked page self) = cards_of_page ranked page /\
  List.length (cards_of_page ranked page) = List.length (page_entries ranked page).
Proof.
  intros H Hne. rewrite showing_eq by lia. cbn [results_list_frame].
  destruct (page_entries_length ranked page H Hne) as [_ Hlen].
  split.
  - destruct (page_entries ranked page); [cbn in Hlen; lia|reflexivity].
  - unfold cards_of_page. apply cards_from_length.
Qed.

Lemma pages_iter (ranked : list (resume * Q)) (self : screen) (k : nat) :
  Nat.iter k next_page (showing ranked 1 self)
  = showing ranked (Z.min (Z.of_nat k + 1) (pages_needed (List.length ranked))) self.
Proof.
  destruct (pages_needed_bounds (List.length ranked)) as (H1 & _).
  induction k as [|k IH].
  - cbn [Nat.iter]. now rewrite Z.min_l by lia.
  - rewrite Nat.iter_succ, IH. rewrite next_page_showing by lia.
    destruct (Z.min (Z.of_nat k + 1) (pages_needed (List.length ranked))
              <? pages_needed (List.length ranked))%Z eqn:Hlt.
    + apply Z.ltb_lt in Hlt. f_equal. lia.
    + apply Z.ltb_ge in Hlt. f_equal. lia.
Qed.

(** All the pages of a ranking, from the first to the last with the Next
    button, show every entry once, in the order of the ranking and with
    its position as rank; every page but the last has ten cards and the
    last has at least one; on the last page Next changes nothing. *)
Theorem pages_show_every_entry_once (ranked : list (resume * Q)) (self : screen) :
  ranked <> [] ->
  let shown := update_results_display ranked self in
  let page (k : nat) := Nat.iter k next_page shown in
  let pages := Z.to_nat (total_pages shown) in
  total_pages shown = pages_needed (List.length ranked) /\
  (forall k, k < pages ->
     current_page (page k) = (Z.of_nat k + 1)%Z /\
     results_list_frame (page k) = cards_of_page ranked (Z.of_nat k + 1) /\
     1 <= List.length (results_list_frame (page k)) <= 10 /\
     (k + 1 < pages -> List.length (results_list_frame (page k)) = 10)) /\
  List.concat (List.map (fun k => results_list_frame (page k)) (seq 0 pages))
  = cards_from 0 ranked /\
  page pages = page (pages - 1).
Proof.
  intro Hne. cbv zeta.
  change (update_results_display ranked self) with (showing ranked 1 self).
  destruct (showing_page ranked 1 self ltac:(lia)) as (_ & Ht & _).
  destruct (pages_needed_bounds (List.length ranked)) as (H1 & H2 & _).
  rewrite Ht. split; [reflexivity|].
  assert (Hpage : forall k, k < Z.to_nat (pages_needed (List.length ranked)) ->
            Nat.iter k next_page (showing ranked 1 self)
            = showing ranked (Z.of_nat k + 1) self).
  { intros k Hk. rewrite pages_iter. f_equal. lia. }
  split; [|split].
  - intros k Hk. rewrite (Hpage k Hk).
    destruct (showing_page ranked (Z.of_nat k + 1) self ltac:(lia)) as (Hc & _).
    destruct (showing_frame ranked (Z.of_nat k + 1) self ltac:(lia) Hne) as (Hf & Hl).
    destruct (page_entries_length ranked (Z.of_nat k + 1) ltac:(lia) Hne) as (Hlen & Hb).
    rewrite Hc, Hf, Hl. split; [reflexivity|]. split; [reflexivity|].
    split; [exact Hb|]. intro Hk'. rewrite Hlen.
    destruct (Z.of_nat k + 1 <? pages_needed (List.length ranked))%Z eqn:Hlt;
      [reflexivity|]. apply Z.ltb_ge in Hlt. lia.
  - rewrite <- (firstn_all2 (n := Z.to_nat (pages_needed (List.length ranked)) * 10) ranked)
      at 2 by lia.
    rewrite <- pages_concat. f_equal. apply map_ext_in.
    intros k Hk. apply in_seq in Hk. rewrite (Hpage k ltac:(lia)).
    apply (showing_frame ranked (Z.of_nat k + 1) self ltac:(lia) Hne).
  - rewrite !pages_iter. f_equal. lia.
Qed.

(** Next and Previous undo each other on a page that is shown: from a
    page that is not the last, Next and then Previous give back the same
    screen, and so do Previous and then Next from a page that is not the
    first. *)
Theorem next_and_previous_undo_each_other (self : screen) :
  (1 <= current_page self)%Z ->
  let shown := update_results_page self in
  ((current_page shown < total_pages shown)%Z ->
   prev_page (next_page shown) = shown) /\
  ((1 < current_page shown <= total_pages shown)%Z ->
   next_page (prev_page shown) = shown).
Proof.
  intro H. cbv zeta. rewrite update_results_page_showing.
  destruct (showing_page (all_ranked_resumes self) (current_page self) self H)
    as (Hc & Ht & _).
  rewrite Hc, Ht. split; intro Hlt.
  - rewrite next_page_showing by exact H.
    apply Z.ltb_lt in Hlt. rewrite Hlt.
    rewrite prev_page_showing by lia.
    replace (1 <? current_page self + 1)%Z with true by (symmetry; apply Z.ltb_lt; lia).
    f_equal. lia.
  - rewrite prev_page_showing by exact H.
    replace (1 <? current_page self)%Z with true by (symmetry; apply Z.ltb_lt; lia).
    rewrite next_page_showing by lia.
    replace (current_page self - 1 <? pages_needed (List.length (all_ranked_resumes self)))%Z
      with true by (symmetry; apply Z.ltb_lt; lia).
    f_equal. lia.
Qed.

Lemma showing_consistent (ranked : list (resume * Q)) (page : Z) (self : screen) :
  (1 <= page)%Z ->
  (ranked = [] -> page = 1%Z) ->
  (ranked <> [] -> (page <= pages_needed (List.length ranked))%Z) ->
  pages_consistent (showing ranked page self).
Proof.
  intros H Hnil Hcons. unfold pages_consistent.
  rewrite showing_eq by exact H.
  cbn [current_page all_ranked_resumes prev_button next_button total_pages].
  split; [exact H|]. split; [|split; [|split]].
  - intros ->. auto.
  - intro Hne. auto.
  - destruct ranked; [discriminate|]. apply Z.ltb_lt.
  - destruct ranked; [discriminate|]. apply Z.ltb_lt.
Qed.

Lemma cleared_consistent (self : screen) (frame : list item) (enabled : bool)
    (value : Q) (message : str) :
  pages_consistent
    (set_process_btn enabled
       (set_results_list_frame frame
          (update_progress value message
             (update_pagination_controls
                (set_all_ranked_resumes [] (set_current_page 1 self)))))).
Proof.
  destruct self. unfold pages_consistent. screen_fields.
  repeat split; try discriminate; try lia; congruence.
Qed.

Lemma step_consistent (a : action) (self : screen) :
  pages_consistent self -> pages_consistent (step a self).
Proof.
  intro H. pose proof H as (H1 & Hnil & Hcons & Hnext & Hprev).
  destruct a; cbn [step].
  - (* select *)
    unfold select_resumes. destruct files; [exact H|].
    clear - H. destruct self. exact H.
  - clear - H. destruct self. exact H.
  - clear - H. destruct self. exact H.
  - (* analyze *)
    destruct (process_btn self); [|exact H].
    unfold process_resumes_thread.
    destruct (selected_files self); [exact H|].
    destruct (strip (job_role self)); [exact H|].
    destruct (strip (job_desc_text_get self)); [exact H|].
    cbn [fst snd].
    destruct self; unfold pages_consistent; screen_fields.
    repeat split; try discriminate; try lia; congruence.
  - (* progress *)
    clear - H. destruct self. exact H.
  - (* results *)
    change (update_results_display ranked_resumes_data self)
      with (showing ranked_resumes_data 1 self).
    apply showing_consistent; [lia|reflexivity|].
    intros _. apply pages_needed_bounds.
  - (* failure *)
    unfold handle_error. cbn [snd].
    destruct self; unfold pages_consistent; screen_fields.
    repeat split; try discriminate; try lia; congruence.
  - (* next *)
    destruct (next_button self) eqn:Hn; [|exact H].
    specialize (Hnext eq_refl).
    assert (Hne : all_ranked_resumes self <> []).
    { intro Hall. destruct (Hnil Hall) as (_ & _ & Hoff). congruence. }
    destruct (Hcons Hne) as [Ht Hle].
    unfold next_page. apply Z.ltb_lt in Hnext. rewrite Hnext. apply Z.ltb_lt in Hnext.
    rewrite turn_page_showing. apply showing_consistent; [lia|congruence|lia].
  - (* previous *)
    destruct (prev_button self) eqn:Hp; [|exact H].
    specialize (Hprev eq_refl).
    assert (Hne : all_ranked_resumes self <> []).
    { intro Hall. destruct (Hnil Hall) as (_ & Hoff & _). congruence. }
    destruct (Hcons Hne) as [Ht Hle].
    unfold prev_page. apply Z.ltb_lt in Hprev. rewrite Hprev. apply Z.ltb_lt in Hprev.
    rewrite turn_page_showing. apply showing_consistent; [lia|congruence|lia].
  - (* back to the results *)
    unfold refresh_results. destruct (all_ranked_resumes self) eqn:Hall.
    + clear - H Hall. destruct self. cbn [all_ranked_resumes] in Hall. subst.
      exact H.
    + rewrite update_results_page_showing, Hall.
      destruct (Hcons ltac:(discriminate)) as [Ht Hle].
      apply showing_consistent; [lia|discriminate|lia].
Qed.

Lemma run_consistent (actions : list action) (self : screen) :
  pages_consistent self -> pages_consistent (run actions self).
Proof.
  revert self. induction actions as [|a actions IH]; intros self H; [exact H|].
  cbn [run fold_left]. apply IH. now apply step_consistent.
Qed.

Lemma init_consistent : pages_consistent init.
Proof. unfold pages_consistent. cbn. repeat split; try lia; discriminate. Qed.

(** Whatever the user and the worker do, in whatever order, the page
    buttons never lead out of the ranking: with no ranking both are
    disabled; an enabled Next shows the next page, an enabled Previous the
    previous one, and the page shown has between one and ten cards, those
    of its entries. *)
Theorem page_buttons_stay_within_the_ranking (actions : list action) :
  let self := run actions init in
  let ranked := all_ranked_resumes self in
  (1 <= current_page self)%Z /\
  (ranked = [] -> prev_button self = false /\ next_button self = false) /\
  (ranked <> [] -> (current_page self <= pages_needed (List.length ranked))%Z) /\
  (next_button self = true ->
   current_page (next_page self) = (current_page self + 1)%Z /\
   results_list_frame (next_page self) = cards_of_page ranked (current_page self + 1) /\
   1 <= List.length (results_list_frame (next_page self)) <= 10) /\
  (prev_button self = true ->
   current_page (prev_page self) = (current_page self - 1)%Z /\
   results_list_frame (prev_page self) = cards_of_page ranked (current_page self - 1) /\
   1 <= List.length (results_list_frame (prev_page self)) <= 10).
Proof.
  cbv zeta.
  destruct (run_consistent actions init init_consistent)
    as (H1 & Hnil & Hcons & Hnext & Hprev).
  set (self := run actions init) in *.
  split; [exact H1|]. split; [|split; [|split]].
  - intro Hall. now destruct (Hnil Hall) as (_ & ? & ?).
  - intro Hne. destruct (Hcons Hne) as [Ht Hle]. now rewrite <- Ht.
  - intro Hn. specialize (Hnext Hn).
    assert (Hne : all_ranked_resumes self <> []).
    { intro Hall. destruct (Hnil Hall) as (_ & _ & Hoff). congruence. }
    destruct (Hcons Hne) as [Ht Hle].
    unfold next_page. apply Z.ltb_lt in Hnext. rewrite Hnext. apply Z.ltb_lt in Hnext.
    rewrite turn_page_showing.
    destruct (showing_page (all_ranked_resumes self) (current_page self + 1) self
                ltac:(lia)) as (Hc & _).
    destruct (showing_frame (all_ranked_resumes self) (current_page self + 1) self
                ltac:(lia) Hne) as (Hf & Hl).
    destruct (page_entries_length (all_ranked_resumes self) (current_page self + 1)
                ltac:(lia) Hne) as (_ & Hb).
    rewrite Hc, Hf, Hl. auto.
  - intro Hp. specialize (Hprev Hp).
    assert (Hne : all_ranked_resumes self <> []).
    { intro Hall. destruct (Hnil Hall) as (_ & Hoff & _). congruence. }
    destruct (Hcons Hne) as [Ht Hle].
    unfold prev_page. apply Z.ltb_lt in Hprev. rewrite Hprev. apply Z.ltb_lt in Hprev.
    rewrite turn_page_showing.
    destruct (showing_page (all_ranked_resumes self) (current_page self - 1) self
                ltac:(lia)) as (Hc & _).
    destruct (showing_frame (all_ranked_resumes self) (current_page self - 1) self
                ltac:(lia) Hne) as (Hf & Hl).
    destruct (page_entries_length (all_ranked_resumes self) (current_page self - 1)
                ltac:(lia) Hne) as (_ & Hb).
    rewrite Hc, Hf, Hl. auto.
Qed.

(** ** Colours *)

Lemma match_level_color (score : Q) :
  match_level (get_rank_color np score) =
  if Qle_bool (threshold np 0.75 0.75) score then 3
  else if Qle_bool
            (threshold np (5404319552844595 # 9007199254740992) (5033165 # 8388608))
            score
       then 2
  else if Qle_bool
            (threshold np (8106479329266893 # 18014398509481984) (7549747 # 16777216))
            score
       then 1
  else 0.
Proof.
  unfold get_rank_color.
  repeat match goal with
         | |- context [Qle_bool ?t score] => destruct (Qle_bool t score)
         end; reflexivity.
Qed.

Lemma match_level_mono (a b : Q) :
  (a <= b)%Q ->
  match_level (get_rank_color np a) <= match_level (get_rank_color np b).
Proof.
  intro Hab. rewrite !match_level_color.
  assert (Hmono : forall t, Qle_bool t a = true -> Qle_bool t b = true).
  { intros t Ht. apply Qle_bool_iff. apply Qle_bool_iff in Ht.
    now apply Qle_trans with a. }
  set (high := threshold np 0.75 0.75).
  set (good := threshold np _ (5033165 # 8388608)).
  set (medium := threshold np _ (7549747 # 16777216)).
  destruct (Qle_bool high a) eqn:H1; [now rewrite (Hmono _ H1)|].
  destruct (Qle_bool good a) eqn:H2;
    [rewrite (Hmono _ H2); destruct (Qle_bool high b); lia|].
  destruct (Qle_bool medium a) eqn:H3;
    [rewrite (Hmono _ H3); destruct (Qle_bool high b), (Qle_bool good b); lia|].
  destruct (Qle_bool high b), (Qle_bool good b), (Qle_bool medium b); lia.
Qed.

Lemma StronglySorted_weaken {A} (R R' : A -> A -> Prop) (l : list A) :
  (forall a b, R a b -> R' a b) -> StronglySorted R l -> StronglySorted R' l.
Proof.
  intros HR. induction 1 as [|a l Hs IH Ha]; constructor; [exact IH|].
  revert Ha. apply Forall_impl. apply HR.
Qed.

(** The colours of a ranking never improve on the way down: the colour of
    a card stands for a match at least as good as that of every card
    below it, whichever way NumPy compares the scores with the literals.
    The two ways differ on the score that is the [float32] next to 0.45:
    it is under 0.45 for the doubles of NumPy 1 and is 0.45 itself for
    NumPy 2. *)
Theorem rank_colours_follow_the_ranking :
  (forall scored_resumes : list (resume * Q),
     StronglySorted
       (fun above below =>
          match_level (get_rank_color np (snd below))
          <= match_level (get_rank_color np (snd above)))
       (sorted (@snd resume Q) true scored_resumes)) /\
  get_rank_color legacy (7549747 # 16777216) = s "#D83B01" /\
  get_rank_color weak (7549747 # 16777216) = s "#FCAA12".
Proof.
  split; [|split; reflexivity].
  intro scored_resumes.
  apply (StronglySorted_weaken (key_ge snd)); [|apply sorted_reverse_descending].
  intros a b Hab. apply match_level_mono. exact Hab.
Qed.

(** ** Starting and failing *)

Lemma strip_cons_not_blank (x : str) : blank x = false <-> strip x <> [].
Proof.
  rewrite strip_nil. destruct (blank x); split; congruence.
Qed.

Lemma blank_text_get (self : screen) :
  blank (job_desc_text_get self) = blank (job_desc_text self).
Proof.
  unfold job_desc_text_get. rewrite blank_app. cbn. now rewrite andb_true_r.
Qed.

(** The outcome of [process_resumes_thread], case by case. *)
Lemma process_resumes_thread_eq (self : screen) :
  process_resumes_thread self =
  match selected_files self with
  | [] =>
      ([showwarning (s "Input Required") (s "Please select resume files first.")],
       self, None)
  | _ :: _ =>
      if blank (job_role self) then
        ([showwarning (s "Input Required") (s "Please enter the Job Role.")], self, None)
      else if blank (job_desc_text self) then
        ([showwarning (s "Input Required") (s "Please enter the Job Description.")],
         self, None)
      else
        ([],
         {| selected_files := selected_files self; job_role := job_role self;
            job_desc_text := job_desc_text self; current_page := 1;
            total_pages := total_pages self; all_ranked_resumes := [];
            files_label := files_label self; progress_var := (0 * 100)%Q;
            progress_label := s "Initializing analysis...";
            results_list_frame := [Label (s "Analyzing...")];
            page_label := []; prev_button := false; next_button := false;
            process_btn := false |},
         Some (job_role self, job_desc_text self ++ nl))
  end.
Proof.
  unfold process_resumes_thread.
  pose proof (strip_nil (job_role self)) as Hrole.
  pose proof (strip_nil (job_desc_text_get self)) as Hdesc.
  rewrite blank_text_get in Hdesc.
  destruct (selected_files self) as [|f files] eqn:Hfiles; [reflexivity|].
  destruct (strip (job_role self)) as [|c role] eqn:Hr.
  { replace (blank (job_role self)) with true by (symmetry; now apply Hrole).
    reflexivity. }
  destruct (blank (job_role self)) eqn:Hb;
    [destruct Hrole as [_ Hrole]; now specialize (Hrole eq_refl)|].
  destruct (strip (job_desc_text_get self)) as [|d desc] eqn:Hd.
  { replace (blank (job_desc_text self)) with true by (symmetry; now apply Hdesc).
    reflexivity. }
  destruct (blank (job_desc_text self)) eqn:Hb';
    [destruct Hdesc as [_ Hdesc]; now specialize (Hdesc eq_refl)|].
  rewrite <- Hfiles. clear. destruct self. reflexivity.
Qed.

(** The worker is started exactly when files are selected and neither the
    role nor the description is blank; it is handed the role and the
    description as they stand in the widgets, not stripped, the
    description with the newline the widget ends it with. Otherwise one
    warning is shown, for the first input found missing, and the screen is
    left as it was, the earlier results included. *)
Theorem analysis_starts_only_on_complete_input (self : screen) :
  let outcome := process_resumes_thread self in
  let boxes := fst (fst outcome) in
  let after := snd (fst outcome) in
  let thread := snd outcome in
  (thread <> None <->
   selected_files self <> [] /\ blank (job_role self) = false /\
   blank (job_desc_text self) = false) /\
  (thread <> None ->
   thread = Some (job_role self, job_desc_text self ++ nl) /\
   boxes = [] /\
   all_ranked_resumes after = [] /\ current_page after = 1%Z /\
   results_list_frame after = [Label (s "Analyzing...")] /\
   prev_button after = false /\ next_button after = false /\
   process_btn after = false /\
   selected_files after = selected_files self) /\
  (thread = None ->
   after = self /\
   boxes =
     [showwarning (s "Input Required")
        (match selected_files self with
         | [] => s "Please select resume files first."
         | _ :: _ =>
             if blank (job_role self) then s "Please enter the Job Role."
             else s "Please enter the Job Description."
         end)]).
Proof.
  cbv zeta. rewrite process_resumes_thread_eq.
  destruct (selected_files self) as [|f files] eqn:Hfiles.
  { cbn [fst snd]. split; [|split]; [|congruence|auto].
    split; [congruence|]. intros (H & _). congruence. }
  destruct (blank (job_role self)) eqn:Hb.
  { cbn [fst snd]. split; [|split]; [|congruence|auto].
    split; [congruence|]. intros (_ & H & _). congruence. }
  destruct (blank (job_desc_text self)) eqn:Hb'.
  { cbn [fst snd]. split; [|split]; [|congruence|auto].
    split; [congruence|]. intros (_ & _ & H). congruence. }
  cbn [fst snd selected_files all_ranked_resumes current_page results_list_frame
       prev_button next_button process_btn].
  split; [|split]; [|intros _; now repeat split|discriminate].
  split; [|discriminate]. intros _. repeat split; congruence.
Qed.

Lemma analysis_starts_only_on_complete_input_witness :
  snd (process_resumes_thread ready_screen)
  = Some (s "Analyst", s "Writes programs for the engine." ++ nl) /\
  snd (fst (process_resumes_thread (set_job_role (s "  ") ready_screen)))
  = set_job_role (s "  ") ready_screen.
Proof.
  destruct (analysis_starts_only_on_complete_input ready_screen) as (Hiff & Hstart & _).
  destruct (analysis_starts_only_on_complete_input (set_job_role (s "  ") ready_screen))
    as (_ & _ & Hnone).
  split.
  - apply Hstart. apply Hiff. vm_compute. repeat split; discriminate.
  - apply Hnone. vm_compute. reflexivity.
Defined.

(** Starting an analysis disables the process button and shows
    "Analyzing...", and no progress report changes either: the screen
    stays so for as long as neither the results nor an error are handed
    to it. When [handle_error] is called on it, whatever progress was
    reported in between, the error is shown in a box and below the
    "Analyzing..." label, which stays; no ranking is left, the page
    buttons are disabled and the process button is enabled again. *)
Theorem error_handler_leaves_the_screen_ready
    (self : screen) (reports : list (Q * str)) (error_msg : str) :
  snd (process_resumes_thread self) <> None ->
  let started := snd (fst (process_resumes_thread self)) in
  let during :=
    fold_left (fun self report => update_progress (fst report) (snd report) self)
      reports started in
  let after := snd (handle_error error_msg during) in
  (process_btn during = false /\
   results_list_frame during = [Label (s "Analyzing...")] /\
   all_ranked_resumes during = []) /\
  fst (handle_error error_msg during) =
    [showerror (s "Analysis Error")
       (s "An error occurred during analysis:" ++ nl ++ nl ++ error_msg)] /\
  results_list_frame after =
    [Label (s "Analyzing..."); Label (s "Error: " ++ error_msg)] /\
  all_ranked_resumes after = [] /\ current_page after = 1%Z /\
  prev_button after = false /\ next_button after = false /\
  process_btn after = true /\
  Qeq_bool (progress_var after) 0 = true /\
  progress_label after = s "Error occurred." /\
  results_list_frame (refresh_results after) =
    [Label (s "Results will appear here after analysis.")].
Proof.
  cbv zeta. rewrite process_resumes_thread_eq.
  destruct (selected_files self) as [|f files]; [cbn; congruence|].
  destruct (blank (job_role self)); [cbn; congruence|].
  destruct (blank (job_desc_text self)); [cbn; congruence|].
  intros _. cbn [fst snd].
  match goal with
  | |- context [fold_left ?f reports ?x] =>
      assert (Hduring :
        forall self,
          process_btn self = false /\
          results_list_frame self = [Label (s "Analyzing...")] /\
          all_ranked_resumes self = [] ->
          process_btn (fold_left f reports self) = false /\
          results_list_frame (fold_left f reports self) = [Label (s "Analyzing...")] /\
          all_ranked_resumes (fold_left f reports self) = []);
      [|specialize (Hduring x (conj eq_refl (conj eq_refl eq_refl)));
        set (during := fold_left f reports x) in *; clearbody during]
  end.
  { induction reports as [|r reports IH]; intros self' H; [exact H|].
    cbn [fold_left]. apply IH. destruct self'. exact H. }
  split; [exact Hduring|].
  unfold handle_error, refresh_results. cbn [fst snd].
  destruct during. cbn [process_btn results_list_frame all_ranked_resumes] in Hduring.
  destruct Hduring as (_ & -> & _).
  screen_fields. repeat split.
Qed.

(** ** The selection *)

Lemma update_results_page_selection (self : screen) :
  selected_files (update_results_page self) = selected_files self /\
  files_label (update_results_page self) = files_label self.
Proof.
  unfold update_results_page. cbv zeta. rewrite fold_left_pack.
  destruct self as [sf jr jd cur tot all fl pv pl frame plab pb nb proc].
  screen_fields.
  destruct all as [|entry all];
    destruct (slice _ _ _) as [|e es]; destruct (cur =? 1)%Z;
    split; reflexivity.
Qed.

Lemma step_selection (a : action) (self : screen) :
  selected_files (step a self) =
    match a with
    | select (f :: files) => f :: files
    | _ => selected_files self
    end /\
  files_label (step a self) =
    match a with
    | select (f :: files) => selection_text (f :: files)
    | _ => files_label self
    end.
Proof.
  destruct a; cbn [step].
  - destruct files; now split.
  - now destruct self.
  - now destruct self.
  - destruct (process_btn self); [|now split].
    rewrite process_resumes_thread_eq.
    destruct (selected_files self) eqn:Hsel; [now split|].
    destruct (blank (job_role self)); [now split|].
    destruct (blank (job_desc_text self)); now split.
  - now destruct self.
  - unfold update_results_display.
    destruct (update_results_page_selection
                (set_current_page 1 (set_all_ranked_resumes ranked_resumes_data self)))
      as [-> ->]. now destruct self.
  - unfold handle_error. cbn [snd].
    destruct self as [sf jr jd cur tot all fl pv pl frame plab pb nb proc].
    screen_fields. now split.
  - destruct (next_button self); [|now split]. unfold next_page.
    destruct (current_page self <? total_pages self)%Z; [|now split].
    destruct (update_results_page_selection
                (set_current_page (current_page self + 1) self)) as [-> ->].
    now destruct self.
  - destruct (prev_button self); [|now split]. unfold prev_page.
    destruct (1 <? current_page self)%Z; [|now split].
    destruct (update_results_page_selection
                (set_current_page (current_page self - 1) self)) as [-> ->].
    now destruct self.
  - unfold refresh_results. destruct (all_ranked_resumes self) eqn:Hall.
    + now destruct self.
    + apply update_results_page_selection.
Qed.

(** Whatever happens on the screen, the selection is kept until other
    files are chosen: a cancelled dialog changes nothing, so a selection
    that was made never becomes empty again, and the label beside the
    button always tells the number of files selected. *)
Theorem selection_is_kept_until_replaced (actions : list action) :
  let self := run actions init in
  files_label self = selection_text (selected_files self) /\
  (forall more, selected_files self <> [] -> selected_files (run more self) <> []) /\
  selected_files (step (select []) self) = selected_files self.
Proof.
  cbv zeta. split; [|split].
  - assert (H : forall self,
              files_label self = selection_text (selected_files self) ->
              files_label (run actions self)
              = selection_text (selected_files (run actions self))).
    { induction actions as [|a actions IH]; intros self H; [exact H|].
      cbn [run fold_left]. apply IH.
      destruct (step_selection a self) as [-> ->].
      destruct a; try exact H. destruct files; [exact H|reflexivity]. }
    apply H. reflexivity.
  - generalize (run actions init). intros self more. revert self.
    induction more as [|a more IH]; intros self H; [exact H|].
    cbn [run fold_left]. apply IH.
    destruct (step_selection a self) as [-> _].
    destruct a; try exact H. destruct files; [exact H|discriminate].
  - reflexivity.
Qed.

End ResultPages.

(** ** The pages on the sample data *)

Section PageRuns.
Import EnhancedResumeRankerGUI.

Lemma next_and_previous_undo_each_other_witness :
  let first := update_results_page weak (set_current_page 1 (set_all_ranked_resumes twelve_ranked init)) in
  let second := update_results_page weak (set_current_page 2 (set_all_ranked_resumes twelve_ranked init)) in
  prev_page weak (next_page weak first) = first /\
  next_page weak (prev_page weak second) = second.
Proof.
  cbv zeta. split.
  - apply (next_and_previous_undo_each_other weak
             (set_current_page 1 (set_all_ranked_resumes twelve_ranked init)));
      [cbn [current_page set_current_page]; lia | vm_compute; reflexivity].
  - apply (next_and_previous_undo_each_other weak
             (set_current_page 2 (set_all_ranked_resumes twelve_ranked init)));
      [cbn [current_page set_current_page]; lia
      | vm_compute; split; [reflexivity | discriminate]].
Defined.

Lemma page_buttons_stay_within_the_ranking_witness :
  let nothing := run weak [] init in
  let first := run weak [results twelve_ranked] init in
  let second := run weak [results twelve_ranked; next] init in
  (prev_button nothing = false /\ next_button nothing = false) /\
  (current_page first <= pages_needed (List.length (all_ranked_resumes first)))%Z /\
  current_page (next_page weak first) = (current_page first + 1)%Z /\
  current_page (prev_page weak second) = (current_page second - 1)%Z.
Proof.
  cbv zeta.
  destruct (page_buttons_stay_within_the_ranking weak []) as (_ & Hnil & _).
  destruct (page_buttons_stay_within_the_ranking weak [results twelve_ranked])
    as (_ & _ & Hcons & Hnext & _).
  destruct (page_buttons_stay_within_the_ranking weak [results twelve_ranked; next])
    as (_ & _ & _ & _ & Hprev).
  split; [apply Hnil; reflexivity|].
  split; [apply Hcons; vm_compute; discriminate|].
  split; [apply Hnext; vm_compute; reflexivity|].
  apply Hprev; vm_compute; reflexivity.
Defined.

Lemma error_handler_leaves_the_screen_ready_witness :
  let started := snd (fst (process_resumes_thread ready_screen)) in
  let during := update_progress 0.5 (s "Extracting text (3/3): linus.pdf") started in
  results_list_frame (snd (handle_error (s "out of memory") during))
  = [Label (s "Analyzing..."); Label (s "Error: out of memory")].
Proof.
  destruct (error_handler_leaves_the_screen_ready weak ready_screen
              [(0.5%Q, s "Extracting text (3/3): linus.pdf")] (s "out of memory"))
    as (_ & _ & Hframe & _); [vm_compute; discriminate|].
  exact Hframe.
Defined.

Lemma selection_is_kept_until_replaced_witness :
  let self := run weak [select [s "/cv/ada.pdf"; s "/cv/grace.pdf"]; select []] init in
  files_label self = s "2 file(s) selected" /\
  selected_files (run weak [analyze; failure (s "out of memory"); select []] self) <> [].
Proof.
  destruct (selection_is_kept_until_replaced weak
              [select [s "/cv/ada.pdf"; s "/cv/grace.pdf"]; select []])
    as (Hlabel & Hkept & _).
  split; [exact Hlabel|]. apply Hkept. vm_compute. discriminate.
Defined.
End PageRuns.

(** ** The worker of the individual screen *)

Section IndividualWorkerProps.
Context {Model Embedding Tensor : Type}.
Variable E : env Model Embedding Tensor.

(** The body of the [try], stage by stage. *)
Lemma individual_attempt_eq (resumes : list resume) (role description : str) (st : fs) :
  IndividualResumeScreen.attempt E resumes role description st =
  match load_model E (Some update_progress) st with
  | (t1, st1, inl e) => (t1, st1, inl e)
  | (t1, st1, inr model) =>
      match resumes with
      | [] =>
          (t1 ++ [Progress 0.5 (s "Processing resumes...")], st1, inl no_valid_resumes)
      | _ :: _ =>
          match rank_resumes E resumes (full_job_desc role description) model
                  (Some ranking_progress_callback) st1 with
          | (t3, st3, inl e) =>
              (t1 ++ Progress 0.5 (s "Processing resumes...") :: t3, st3, inl e)
          | (t3, st3, inr ranked) =>
              (t1 ++ Progress 0.5 (s "Processing resumes...") :: t3
                 ++ success_events ranked, st3, inr tt)
          end
      end
  end.
Proof.
  unfold IndividualResumeScreen.attempt. unfold bind at 1.
  destruct (load_model E (Some update_progress) st) as [[t1 st1] [e|model]];
    [reflexivity|].
  unfold bind at 1. unfold update_progress at 1, emit at 1.
  destruct resumes as [|r rs]; [reflexivity|].
  unfold bind at 1.
  destruct (rank_resumes E (r :: rs) (full_job_desc role description) model
              (Some ranking_progress_callback) st1) as [[t3 st3] [e|ranked]];
    [reflexivity|].
  now rewrite update_results_display_eq.
Qed.

Lemma individual_worker_eq (resumes : list resume) (role description : str) (st : fs) :
  IndividualResumeScreen.process_resumes_worker E resumes role description st =
  match load_model E (Some update_progress) st with
  | (t1, st1, inl e) => (t1 ++ failure_events E e, st1, inr tt)
  | (t1, st1, inr model) =>
      match resumes with
      | [] =>
          (t1 ++ Progress 0.5 (s "Processing resumes...")
              :: failure_events E no_valid_resumes, st1, inr tt)
      | _ :: _ =>
          match rank_resumes E resumes (full_job_desc role description) model
                  (Some ranking_progress_callback) st1 with
          | (t3, st3, inl e) =>
              (t1 ++ Progress 0.5 (s "Processing resumes...") :: t3
                 ++ failure_events E e, st3, inr tt)
          | (t3, st3, inr ranked) =>
              (t1 ++ Progress 0.5 (s "Processing resumes...") :: t3
                 ++ success_events ranked, st3, inr tt)
          end
      end
  end.
Proof.
  unfold IndividualResumeScreen.process_resumes_worker, try_except.
  rewrite individual_attempt_eq.
  destruct (load_model E (Some update_progress) st) as [[t1 st1] [e|model]];
    [now rewrite handle_error_eq|].
  destruct resumes as [|r rs].
  - rewrite handle_error_eq. now rewrite <- app_assoc.
  - destruct (rank_resumes E (r :: rs) (full_job_desc role description) model
                (Some ranking_progress_callback) st1) as [[t3 st3] [e|ranked]];
      [|reflexivity].
    rewrite handle_error_eq. rewrite <- app_assoc. reflexivity.
Qed.

(** The worker of the individual screen reports progress in two sweeps as
    well: that of the model, and then, once the model is obtained, one
    that starts at exactly 0.5 and never goes down. It ends at 1.0 when a
    ranking is displayed, and at 0 when the error handler runs. *)
Theorem individual_progress_restarts_at_half
    (resumes : list resume) (role description : str) (st : fs) :
  let L := load_model E (Some update_progress) st in
  let t :=
    trace_of (IndividualResumeScreen.process_resumes_worker E resumes role description st) in
  exists pipeline,
    fractions t = fractions (trace_of L) ++ pipeline /\
    (if succeeds (result_of L)
     then match pipeline with
          | first :: _ => Qeq_bool first 0.5 = true
          | [] => False
          end
     else True) /\
    ((existsb is_display t = true /\
      nondecreasing pipeline = true /\ last_is 1.0 pipeline = true)
     \/
     (existsb is_display t = false /\ existsb is_show_error t = true /\
      exists before, pipeline = before ++ [0%Q] /\ nondecreasing before = true)
     \/
     (existsb is_display t = false /\ existsb is_show_error t = false /\
      nondecreasing pipeline = true)).
Proof.
  cbv zeta. rewrite individual_worker_eq.
  pose proof (load_model_run E st) as HL.
  destruct (load_model E (Some update_progress) st) as [[t1 st1] [e|model]];
    cbn [trace_of state_of result_of fst snd succeeds] in *;
    destruct HL as (Hev1 & Hnd1 & Hok1).
  - rewrite fractions_app, !existsb_app.
    replace (existsb is_display t1) with false
      by (symmetry; quiet stage_existsb stage_filter).
    replace (existsb is_show_error t1) with false
      by (symmetry; quiet stage_existsb stage_filter).
    unfold failure_events. destruct (main_loop_first E).
    + exists [0%Q]. split; [reflexivity|]. split; [exact I|].
      right. left. repeat split. exists []. now split.
    + exists []. split; [reflexivity|]. split; [exact I|].
      right. right. now repeat split.
  - destruct resumes as [|r rs].
    + cbn [trace_of fst]. rewrite fractions_app, !existsb_app.
      replace (existsb is_display t1) with false
        by (symmetry; quiet stage_existsb stage_filter).
      replace (existsb is_show_error t1) with false
        by (symmetry; quiet stage_existsb stage_filter).
      unfold failure_events. destruct (main_loop_first E).
      * exists [0.5%Q; 0%Q]. split; [reflexivity|]. split; [reflexivity|].
        right. left. repeat split. exists [0.5%Q]. now split.
      * exists [0.5%Q]. split; [reflexivity|]. split; [reflexivity|].
        right. right. now repeat split.
    + pose proof (rank_resumes_run E (r :: rs) (full_job_desc role description)
                    model st1) as HR.
      destruct (rank_resumes E (r :: rs) (full_job_desc role description) model
                  (Some ranking_progress_callback) st1) as [[t3 st3] [e|ranked]];
        cbn [trace_of state_of result_of fst snd succeeds] in *;
        destruct HR as (_ & _ & Hev3 & Hnd3 & Hok3 & _);
        rewrite fractions_app, !existsb_app; cbn [fractions existsb is_display
          is_show_error orb]; rewrite fractions_app, !existsb_app;
        replace (existsb is_display t1) with false
          by (symmetry; quiet stage_existsb stage_filter);
        replace (existsb is_show_error t1) with false
          by (symmetry; quiet stage_existsb stage_filter);
        replace (existsb is_display t3) with false
          by (symmetry; quiet stage_existsb stage_filter);
        replace (existsb is_show_error t3) with false
          by (symmetry; quiet stage_existsb stage_filter).
      * unfold failure_events. destruct (main_loop_first E).
        -- exists (0.5%Q :: fractions t3 ++ [0%Q]).
           split; [reflexivity|]. split; [reflexivity|].
           right. left. repeat split. exists (0.5%Q :: fractions t3).
           split; [reflexivity|].
           exact (nondecreasing_prefix (0.5%Q :: fractions t3) [1.0%Q] Hnd3).
        -- exists (0.5%Q :: fractions t3). cbn [fractions]. rewrite app_nil_r.
           split; [reflexivity|]. split; [reflexivity|].
           right. right. repeat split.
           exact (nondecreasing_prefix (0.5%Q :: fractions t3) [1.0%Q] Hnd3).
      * exists (0.5%Q :: fractions t3 ++ [1.0%Q]).
        split; [reflexivity|]. split; [reflexivity|].
        left. repeat split; [exact Hnd3|].
        change (0.5%Q :: fractions t3 ++ [1.0%Q])
          with ((0.5%Q :: fractions t3) ++ [1.0%Q]).
        now rewrite last_is_snoc.
Qed.

Lemma ranking_keeps (P : resume -> bool) (resumes : list resume) (job : str)
    (model : Model) (ranked : list (resume * Q)) :
  forallb P resumes = true ->
  ranking E resumes job model = inr ranked ->
  forallb (fun p => P (fst p)) ranked = true.
Proof.
  intros Hall Hrk. unfold ranking in Hrk.
  destruct (encode E model job) as [e|je]; [discriminate|].
  destruct (encode_batch E model (List.map text resumes)) as [e|te]; [discriminate|].
  destruct (pytorch_cos_sim E je te) as [e|scores]; [discriminate|].
  injection Hrk as <-. apply forallb_forall. intros [r q] Hin.
  apply (Permutation_in _ (Permutation_sym (sorted_reverse_perm snd _))) in Hin.
  apply in_combine_l in Hin.
  rewrite forallb_forall in Hall. now apply Hall.
Qed.

Lemma stage_displays (P : resume -> bool) (allowed : event -> bool) (t : trace) :
  (forall e, allowed e = true -> is_display e = false) ->
  forallb allowed t = true -> forallb (displays P) t = true.
Proof.
  intros Hkind Hall. apply forallb_forall. intros e Hin.
  rewrite forallb_forall in Hall. specialize (Hkind e (Hall e Hin)).
  destruct e; try reflexivity. discriminate.
Qed.

Lemma provisioning_displays (P : resume -> bool) (t : trace) :
  forallb provisioning_event t = true -> forallb (displays P) t = true.
Proof. apply stage_displays. intros [] ?; solve [reflexivity | discriminate]. Qed.

Lemma extraction_displays (P : resume -> bool) (t : trace) :
  forallb extraction_event t = true -> forallb (displays P) t = true.
Proof. apply stage_displays. intros [] ?; solve [reflexivity | discriminate]. Qed.

Lemma ranking_displays (P : resume -> bool) (t : trace) :
  forallb ranking_event t = true -> forallb (displays P) t = true.
Proof. apply stage_displays. intros [] ?; solve [reflexivity | discriminate]. Qed.

Lemma failure_displays (P : resume -> bool) (e : exn) :
  forallb (displays P) (failure_events E e) = true.
Proof. unfold failure_events. now destruct (main_loop_first E). Qed.

(** The worker of the individual screen ranks the list as it was added:
    the batch it has the model encode is the texts of the records, in
    order; every record of a ranking it displays is one of the list, so it
    carries the name that was typed, stripped and never empty; when the
    model scores the batch, the ranking displayed holds each record once.
    With an empty list nothing is encoded and nothing displayed. *)
Theorem individual_worker_ranks_what_was_added
    (l : list IndividualResumeScreen.edit) (role description : str) (st : fs) :
  let resumes :=
    IndividualResumeScreen.resume_list
      (IndividualResumeScreen.edits E l IndividualResumeScreen.init) in
  let job := full_job_desc role description in
  let t :=
    trace_of (IndividualResumeScreen.process_resumes_worker E resumes role description st) in
  (filter is_encode t = [] \/
   filter is_encode t = [EncodeText job] \/
   filter is_encode t = [EncodeText job; EncodeBatch (List.map text resumes)]) /\
  (resumes = [] -> filter is_encode t = [] /\ existsb is_display t = false) /\
  forallb (displays well_formed) t = true /\
  (forall model,
     resumes <> [] ->
     result_of (load_model E (Some update_progress) st) = inr model ->
     scored E model job resumes = true ->
     exists ranked,
       filter is_display t = [Display ranked] /\
       Permutation (List.map fst ranked) resumes).
Proof.
  cbv zeta.
  destruct (edits_consistent E l IndividualResumeScreen.init
              (init_adding_consistent)) as (Hwf & _).
  set (resumes := IndividualResumeScreen.resume_list _) in *. clearbody resumes.
  rewrite individual_worker_eq.
  pose proof (load_model_run E st) as HL.
  destruct (load_model E (Some update_progress) st) as [[t1 st1] [e|model]];
    cbn [trace_of state_of result_of fst snd succeeds] in *;
    destruct HL as (Hev1 & _ & _).
  { rewrite filter_app, existsb_app, forallb_app, failure_displays.
    rewrite (provisioning_displays _ _ Hev1).
    replace (filter is_encode t1) with (@nil event)
      by (symmetry; quiet stage_existsb stage_filter).
    replace (existsb is_display t1) with false
      by (symmetry; quiet stage_existsb stage_filter).
    assert (Hf : filter is_encode (failure_events E e) = []
                 /\ existsb is_display (failure_events E e) = false)
      by (unfold failure_events; now destruct (main_loop_first E)).
    destruct Hf as [-> ->]. repeat split; auto. discriminate. }
  destruct resumes as [|r rs].
  { cbn [trace_of fst].
    rewrite filter_app, existsb_app, forallb_app.
    rewrite (provisioning_displays _ _ Hev1).
    replace (filter is_encode t1) with (@nil event)
      by (symmetry; quiet stage_existsb stage_filter).
    replace (existsb is_display t1) with false
      by (symmetry; quiet stage_existsb stage_filter).
    cbn [filter existsb forallb is_encode is_display displays orb andb app].
    rewrite failure_displays.
    assert (Hf : filter is_encode (failure_events E no_valid_resumes) = []
                 /\ existsb is_display (failure_events E no_valid_resumes) = false)
      by (unfold failure_events; now destruct (main_loop_first E)).
    destruct Hf as [-> ->]. repeat split; auto.
    intros m Hne. congruence. }
  pose proof (rank_resumes_run E (r :: rs) (full_job_desc role description) model st1)
    as HR.
  destruct (rank_resumes E (r :: rs) (full_job_desc role description) model
              (Some ranking_progress_callback) st1) as [[t3 st3] [e|ranked]];
    cbn [trace_of state_of result_of fst snd succeeds] in *;
    destruct HR as (Hres & _ & Hev3 & _ & _ & Henc);
    rewrite !filter_app, forallb_app;
    cbn [filter forallb is_encode is_display displays andb app];
    rewrite !filter_app, forallb_app;
    rewrite (provisioning_displays _ _ Hev1);
    rewrite (ranking_displays _ _ Hev3);
    replace (filter is_encode t1) with (@nil event)
      by (symmetry; quiet stage_existsb stage_filter);
    replace (filter is_display t1) with (@nil event)
      by (symmetry; quiet stage_existsb stage_filter);
    replace (filter is_display t3) with (@nil event)
      by (symmetry; quiet stage_existsb stage_filter);
    rewrite Henc.
  - rewrite failure_displays.
    assert (Hf : filter is_encode (failure_events E e) = [])
      by (unfold failure_events; now destruct (main_loop_first E)).
    rewrite Hf.
    split; [destruct (succeeds _); cbn; auto|].
    split; [discriminate|]. split; [reflexivity|].
    intros m _ Hm Hsc. injection Hm as <-.
    destruct (ranking_scored E _ _ _ Hsc) as (ranked & Hrk & _). congruence.
  - cbn [success_events filter forallb is_encode is_display displays andb app].
    split; [destruct (succeeds _); cbn; auto|].
    split; [discriminate|]. split.
    + rewrite andb_true_r. apply (ranking_keeps well_formed (r :: rs)
                                     (full_job_desc role description) model);
        [exact Hwf|now symmetry].
    + intros m _ Hm Hsc. injection Hm as <-.
      destruct (ranking_scored E _ _ _ Hsc) as (ranked' & Hrk & Hperm).
      assert (ranked' = ranked) by congruence. subst ranked'.
      exists ranked. split; [reflexivity|exact Hperm].
Qed.
End IndividualWorkerProps.

(** ** The model directory *)

Section ModelProps.
Context {Model Embedding Tensor : Type}.
Variable E : env Model Embedding Tensor.

Lemma load_model_absent (progress_callback : option callback) :
  progress_callback = None \/ progress_callback = Some update_progress ->
  let L := load_model E progress_callback false in
  filter is_fetch (trace_of L) = [Fetch model_name] /\
  existsb is_load (trace_of L) = false /\
  match st_fetch E model_name with
  | inl e =>
      result_of L = inl e /\ state_of L = false /\
      existsb is_save (trace_of L) = false /\
      fractions (trace_of L) =
        match progress_callback with Some _ => [0.0%Q] | None => [] end
  | inr model =>
      filter is_save (trace_of L) = [Save (model_path E)] /\
      match st_save E model (model_path E) with
      | inl e => result_of L = inl e /\ state_of L = failed_save_leaves_path E
      | inr _ => result_of L = inr model /\ state_of L = true
      end
  end.
Proof.
  unfold load_model. intros [-> | ->]; run;
    (destruct (st_fetch E model_name) as [e|m]; [repeat split; reflexivity|]);
    destruct (st_save E m (model_path E)); repeat split; reflexivity.
Qed.

Lemma load_model_present (progress_callback : option callback) :
  progress_callback = None \/ progress_callback = Some update_progress ->
  let L := load_model E progress_callback true in
  existsb is_save (trace_of L) = false.
Proof.
  unfold load_model. intros [-> | ->]; run;
    destruct (st_load E (model_path E)); reflexivity.
Qed.

(** A model directory that cannot be read is never repaired: while it
    exists, every call tries to read it, raises what the reading raises,
    fetches nothing and saves nothing, and leaves the directory where it
    is, however often the call is repeated. *)
Theorem unreadable_model_directory_is_never_repaired
    (progress_callback : option callback) (e : exn) (n : nat) :
  progress_callback = None \/ progress_callback = Some update_progress ->
  st_load E (model_path E) = inl e ->
  let st_n :=
    Nat.iter n (fun st => state_of (load_model E progress_callback st)) true in
  let L := load_model E progress_callback st_n in
  result_of L = inl e /\
  filter is_load (trace_of L) = [Load (model_path E)] /\
  existsb is_fetch (trace_of L) = false /\
  existsb is_save (trace_of L) = false /\
  state_of L = true.
Proof.
  intros Hcb Hload. cbv zeta.
  rewrite (later_state E progress_callback n Hcb).
  destruct (load_model_from_disk E progress_callback Hcb) as (H1 & H2 & H3 & H4).
  pose proof (load_model_present progress_callback Hcb) as H5.
  cbv zeta in H5. rewrite H4, Hload.
  repeat (split; [first [assumption | reflexivity]|]). assumption.
Qed.

Lemma absent_state (progress_callback : option callback) (e : exn) (n : nat) :
  progress_callback = None \/ progress_callback = Some update_progress ->
  st_fetch E model_name = inl e ->
  Nat.iter n (fun st => state_of (load_model E progress_callback st)) false = false.
Proof.
  intros Hcb Hfetch. induction n as [|n IH]; [reflexivity|].
  rewrite Nat.iter_succ, IH.
  pose proof (load_model_absent progress_callback Hcb) as H. cbv zeta in H.
  rewrite Hfetch in H. now destruct H as (_ & _ & _ & H & _).
Qed.

(** A download that fails leaves nothing behind: the call raises what the
    fetch raised, saves nothing, reports no progress beyond 0.0 and
    creates no directory, so that every later call fetches the model
    again. *)
Theorem failed_download_is_tried_again
    (progress_callback : option callback) (e : exn) (n : nat) :
  progress_callback = None \/ progress_callback = Some update_progress ->
  st_fetch E model_name = inl e ->
  let st_n :=
    Nat.iter n (fun st => state_of (load_model E progress_callback st)) false in
  let L := load_model E progress_callback st_n in
  result_of L = inl e /\
  filter is_fetch (trace_of L) = [Fetch model_name] /\
  existsb is_save (trace_of L) = false /\
  existsb is_load (trace_of L) = false /\
  fractions (trace_of L) =
    match progress_callback with Some _ => [0.0%Q] | None => [] end /\
  state_of L = false.
Proof.
  intros Hcb Hfetch. cbv zeta.
  rewrite (absent_state progress_callback e n Hcb Hfetch).
  pose proof (load_model_absent progress_callback Hcb) as H. cbv zeta in H.
  rewrite Hfetch in H. destruct H as (H1 & H2 & H3 & H4 & H5 & H6).
  repeat (split; [assumption|]). assumption.
Qed.

(** ** Progress reports are observations *)

(** Reporting progress changes nothing else: with the progress sink of the
    worker, [load_model] and [rank_resumes] return or raise the same,
    leave the same state and make the same calls, in the same order, as
    without any callback, which reports nothing. *)
Theorem progress_reports_change_nothing
    (resumes : list resume) (job_description : str) (model : Model) (st : fs) :
  let silent := load_model E None st in
  let loud := load_model E (Some update_progress) st in
  let silent_ranking := rank_resumes E resumes job_description model None st in
  let loud_ranking :=
    rank_resumes E resumes job_description model (Some ranking_progress_callback) st in
  (result_of loud = result_of silent /\ state_of loud = state_of silent /\
   filter not_progress (trace_of loud) = trace_of silent /\
   existsb is_progress (trace_of silent) = false) /\
  (result_of loud_ranking = result_of silent_ranking /\
   state_of loud_ranking = state_of silent_ranking /\
   filter not_progress (trace_of loud_ranking) = trace_of silent_ranking /\
   existsb is_progress (trace_of silent_ranking) = false).
Proof.
  cbv zeta. split.
  - unfold load_model. destruct st; run.
    + destruct (st_load E (model_path E)); repeat split; reflexivity.
    + destruct (st_fetch E model_name) as [e|m]; [repeat split; reflexivity|].
      destruct (st_save E m (model_path E)); repeat split; reflexivity.
  - unfold rank_resumes. run.
    destruct (encode E model job_description) as [e|je]; [repeat split; reflexivity|].
    destruct (encode_batch E model (List.map text resumes)) as [e|te];
      [repeat split; reflexivity|].
    destruct (pytorch_cos_sim E je te); repeat split; reflexivity.
Qed.

(** ** Scores and records are paired in order *)

Lemma combine_firstn {A B} (l : list A) (l' : list B) :
  List.map fst (combine l l') = firstn (List.length l') l /\
  List.map snd (combine l l') = firstn (List.length l) l'.
Proof.
  revert l'. induction l as [|a l IH]; intros [|b l']; try (now split).
  - cbn [combine List.map List.length firstn fst snd].
    destruct (IH l') as [-> ->]. now split.
Qed.

Lemma In_combine_nth_error {A B} (l : list A) (l' : list B) (a : A) (b : B) :
  In (a, b) (combine l l') <->
  exists i, nth_error l i = Some a /\ nth_error l' i = Some b.
Proof.
  revert l'. induction l as [|x l IH]; intros [|y l'].
  - split; [intros []|]. now intros ([|i] & H & _).
  - split; [intros []|]. now intros ([|i] & H & _).
  - split; [intros []|]. now intros ([|i] & _ & H).
  - cbn [combine In]. rewrite IH. split.
    + intros [Heq|(i & Ha & Hb)].
      * exists 0. cbn. split; congruence.
      * exists (S i). now split.
    + intros ([|i] & Ha & Hb).
      * left. cbn in Ha, Hb. congruence.
      * right. now exists i.
Qed.

(** [rank_resumes] pairs records and scores in order and stops at the
    shorter of the two: the ranking holds the pairs of the record and the
    score at the same place, each once, and nothing else. When the
    similarity returns fewer scores than there are records, the records
    beyond the last score are left out of the ranking without any error,
    and scores beyond the last record are ignored. *)
Theorem records_without_a_score_are_left_out
    (resumes : list resume) (job_description : str) (model : Model)
    (progress_callback : option callback) (st : fs)
    (job_embedding : Embedding) (resume_embeddings : Tensor) (cosine_scores : list Q) :
  progress_callback = None \/ progress_callback = Some ranking_progress_callback ->
  encode E model job_description = inr job_embedding ->
  encode_batch E model (List.map text resumes) = inr resume_embeddings ->
  pytorch_cos_sim E job_embedding resume_embeddings = inr cosine_scores ->
  exists ranked,
    result_of (rank_resumes E resumes job_description model progress_callback st)
    = inr ranked /\
    List.length ranked = Nat.min (List.length resumes) (List.length cosine_scores) /\
    Permutation ranked (combine resumes cosine_scores) /\
    (forall r q,
       In (r, q) ranked <->
       exists i, nth_error resumes i = Some r /\ nth_error cosine_scores i = Some q) /\
    Permutation (List.map fst ranked) (firstn (List.length cosine_scores) resumes) /\
    Permutation (List.map snd ranked) (firstn (List.length resumes) cosine_scores).
Proof.
  intros Hcb Hjob Hbatch Hscores.
  assert (Hres :
    result_of (rank_resumes E resumes job_description model progress_callback st)
    = ranking E resumes job_description model).
  { destruct Hcb as [-> | ->].
    - apply rank_resumes_silent.
    - apply rank_resumes_run. }
  rewrite Hres. unfold ranking. rewrite Hjob, Hbatch, Hscores.
  eexists. split; [reflexivity|].
  pose proof (sorted_reverse_perm (@snd resume Q) (combine resumes cosine_scores)) as Hperm.
  destruct (combine_firstn resumes cosine_scores) as [Hfst Hsnd].
  split; [|split; [|split; [|split]]].
  - rewrite <- (Permutation_length Hperm). apply length_combine.
  - now apply Permutation_sym.
  - intros r q. rewrite <- In_combine_nth_error. split; apply Permutation_in.
    + now apply Permutation_sym.
    + exact Hperm.
  - rewrite <- Hfst. apply Permutation_map. now apply Permutation_sym.
  - rewrite <- Hsnd. apply Permutation_map. now apply Permutation_sym.
Qed.
End ModelProps.

(** ** Extraction *)

Section ExtractionProps.
Context {Model Embedding Tensor : Type}.
Variable E : env Model Embedding Tensor.

Lemma get_texts_eq (doc : list (exn + str)) (acc : str) :
  get_texts doc acc =
  match first_failure doc with
  | Some e => inl e
  | None => inr (acc ++ List.concat (page_texts doc))
  end.
Proof.
  revert acc. induction doc as [|[e|page_text] doc IH]; intro acc.
  - cbn. now rewrite app_nil_r.
  - reflexivity.
  - cbn [get_texts first_failure page_texts flat_map app List.concat].
    rewrite IH. destruct (first_failure doc); [reflexivity|].
    now rewrite <- app_assoc.
Qed.

(** The text of a document is all or nothing: the texts of its pages one
    after the other, in order, when every page can be read, and otherwise
    the exception of the first page that cannot, with no text at all (a
    document without pages is read as the empty text). [extract_text] does
    nothing else: no event, the same state. *)
Theorem extraction_is_all_or_nothing (pdf_path : str) (st : fs) :
  extract_text E pdf_path st = ([], st, extraction E pdf_path) /\
  extraction E pdf_path =
  match fitz_open E pdf_path with
  | inl e => inl e
  | inr doc =>
      match first_failure doc with
      | Some e => inl e
      | None => inr (List.concat (page_texts doc))
      end
  end.
Proof.
  split; [reflexivity|]. unfold extraction.
  destruct (fitz_open E pdf_path) as [e|doc]; [reflexivity|].
  now rewrite get_texts_eq.
Qed.

(** The records of the documents that could be read come from the
    selection. *)
Lemma extracted_from_files (files all : list str) :
  (forall p, In p files -> In p all) ->
  forallb (from_files all) (extracted E files) = true.
Proof.
  unfold extracted. induction files as [|p files IH]; intro Hin; [reflexivity|].
  cbn [flat_map]. rewrite forallb_app, IH by (intros q Hq; apply Hin; now right).
  destruct (extraction E p); [reflexivity|].
  cbn [forallb]. unfold from_files, resume_record. cbn [full_path file_name].
  rewrite str_eqb_refl, !andb_true_r.
  apply existsb_exists. exists p. split; [apply Hin; now left|apply str_eqb_refl].
Qed.

(** The worker of the folder screen never displays a record that does not
    come from the selection: every record of a ranking it displays has the
    path of one of the selected files, and the file name of that path. *)
Theorem displayed_records_come_from_the_selection
    (self : gui) (role description : str) (st : fs) :
  preloaded_resume_data self = None ->
  forallb (displays (from_files (selected_files self)))
    (trace_of (process_resumes_worker E self role description st)) = true.
Proof.
  intro Hpre.
  worker_cases (worker_eq E) (load_model_run E) (gather_run E) (rank_resumes_run E)
    E self role description st;
    rewrite !forallb_app, ?failure_displays;
    rewrite (provisioning_displays _ _ Hev1);
    try rewrite (extraction_displays _ _ Hev2);
    try rewrite (ranking_displays _ _ Hev3);
    try reflexivity.
  rewrite Hpre in Hres. destruct Hres as [Hres _].
  cbn [success_events forallb displays andb]. rewrite andb_true_r.
  apply (ranking_keeps E _ (r :: rs) (full_job_desc role description) model);
    [|now symmetry].
  rewrite Hres. apply extracted_from_files. auto.
Qed.
End ExtractionProps.

(** ** The candidate name *)

Lemma part_of_existsb (p : char -> bool) (x y : str) :
  part_of x y -> existsb p y = false -> existsb p x = false.
Proof.
  intros (b & a & ->). rewrite !existsb_app. intro H.
  apply orb_false_iff in H. destruct H as [_ H].
  apply orb_false_iff in H. now destruct H.
Qed.

Lemma part_of_trans (x y z : str) : part_of x y -> part_of y z -> part_of x z.
Proof.
  intros (b1 & a1 & ->) (b2 & a2 & ->).
  exists (b2 ++ b1), (a1 ++ a2). now rewrite <- !app_assoc.
Qed.

Lemma strip_part (x : str) : part_of (strip x) x.
Proof.
  assert (Hl : forall y, exists before, y = before ++ lstrip y).
  { induction y as [|c t [b IH]]; [now exists []|]. cbn [lstrip].
    destruct (isspace c); [|now exists []].
    exists (c :: b). cbn [app]. now f_equal. }
  assert (Hr : forall y, exists after, y = rstrip y ++ after).
  { induction y as [|c t [a IH]]; [now exists []|]. rewrite rstrip_cons.
    destruct (blank (c :: t)); [now exists (c :: t)|].
    exists a. cbn [app]. now f_equal. }
  unfold strip. destruct (Hl x) as [b Hb]. destruct (Hr (lstrip x)) as [a Ha].
  exists b, a. now rewrite <- Ha.
Qed.

Lemma existsb_rev_str (p : char -> bool) (x : str) : existsb p (rev x) = existsb p x.
Proof.
  induction x as [|c t IH]; [reflexivity|]. cbn [rev existsb].
  rewrite existsb_app, IH. cbn [existsb]. rewrite orb_false_r. apply orb_comm.
Qed.

(** The lines of [splitlines] hold no line boundary and are pieces of the
    text. *)
Lemma splitlines_from_lines (n : nat) :
  forall (x cur line : str),
    List.length x <= n ->
    existsb is_linebreak cur = false ->
    In line (splitlines_from cur x) ->
    existsb is_linebreak line = false /\ part_of line (rev cur ++ x).
Proof.
  induction n as [|n IH]; intros x cur line Hlen Hcur Hin.
  - destruct x; [|cbn in Hlen; lia]. cbn [splitlines_from] in Hin.
    destruct cur as [|c cur]; [contradiction|].
    destruct Hin as [<-|[]]. rewrite existsb_rev_str. split; [exact Hcur|].
    exists [], []. now rewrite !app_nil_r.
  - destruct x as [|c t].
    { cbn [splitlines_from] in Hin. destruct cur as [|c cur]; [contradiction|].
      destruct Hin as [<-|[]]. rewrite existsb_rev_str. split; [exact Hcur|].
      exists [], []. now rewrite !app_nil_r. }
    cbn [List.length] in Hlen. cbn [splitlines_from] in Hin.
    destruct (is_linebreak c) eqn:Hc.
    + destruct Hin as [<-|Hin].
      { rewrite existsb_rev_str. split; [exact Hcur|]. now exists [], (c :: t). }
      assert (Hrest : forall t', (exists skipped, c :: t = skipped ++ t') ->
                List.length t' <= n -> In line (splitlines_from [] t') ->
                existsb is_linebreak line = false /\ part_of line (rev cur ++ c :: t)).
      { intros t' [skipped Hsk] Hlen' Hin'.
        destruct (IH t' [] line Hlen' eq_refl Hin') as [Hline Hpart].
        split; [exact Hline|]. apply (part_of_trans _ _ _ Hpart).
        exists (rev cur ++ skipped), []. cbn [rev app].
        now rewrite app_nil_r, <- app_assoc, Hsk. }
      destruct (c =? 13)%N.
      * destruct t as [|c' t']; [apply (Hrest []); [now exists [c]|cbn; lia|exact Hin]|].
        cbn [List.length] in Hlen.
        destruct (c' =? 10)%N.
        -- apply (Hrest t'); [now exists [c; c']|lia|exact Hin].
        -- apply (Hrest (c' :: t')); [now exists [c]|cbn [List.length]; lia|exact Hin].
      * apply (Hrest t); [now exists [c]|lia|exact Hin].
    + assert (Hcur' : existsb is_linebreak (c :: cur) = false)
        by (cbn [existsb]; now rewrite Hc, Hcur).
      destruct (IH t (c :: cur) line ltac:(lia) Hcur' Hin) as [Hline Hpart].
      split; [exact Hline|]. cbn [rev] in Hpart. now rewrite <- app_assoc in Hpart.
Qed.

Lemma splitlines_plain (x cur : str) :
  existsb is_linebreak x = false ->
  splitlines_from cur x =
  match rev cur ++ x with
  | [] => []
  | _ :: _ => [rev cur ++ x]
  end.
Proof.
  revert cur. induction x as [|c t IH]; intros cur H.
  - cbn [splitlines_from]. rewrite app_nil_r. destruct cur as [|a cur]; [reflexivity|].
    cbn [rev]. destruct (rev cur ++ [a]) eqn:Hr; [|reflexivity].
    apply app_eq_nil in Hr. destruct Hr; discriminate.
  - cbn [existsb] in H. apply orb_false_iff in H. destruct H as [Hc Ht].
    cbn [splitlines_from]. rewrite Hc, (IH (c :: cur) Ht). cbn [rev].
    now rewrite <- app_assoc.
Qed.

Lemma first_stripped_line_of (lines : list str) :
  first_stripped_line lines = [] \/
  exists line, In line lines /\ first_stripped_line lines = strip line.
Proof.
  induction lines as [|line rest IH]; [now left|]. cbn [first_stripped_line].
  destruct (strip line) as [|c t] eqn:Hs.
  - destruct IH as [IH|(l & Hin & IH)]; [now left|].
    right. exists l. split; [now right|exact IH].
  - right. exists line. split; [now left|now symmetry].
Qed.

(** The name taken from a text has no white space at either end and no
    line boundary in it; it is a piece of the text; and it is its own
    name. *)
Theorem candidate_name_is_a_stripped_line (text : str) :
  let name := extract_candidate_name text in
  strip name = name /\
  existsb is_linebreak name = false /\
  part_of name text /\
  extract_candidate_name name = name.
Proof.
  cbv zeta.
  assert (Hname : extract_candidate_name text = [] \/
                  exists line, In line (splitlines text) /\
                               extract_candidate_name text = strip line)
    by apply first_stripped_line_of.
  destruct Hname as [->|(line & Hin & ->)].
  { split; [reflexivity|]. split; [reflexivity|]. split; [now exists [], text|].
    reflexivity. }
  destruct (splitlines_from_lines (List.length text) text [] line (le_n _) eq_refl Hin)
    as [Hline Hpart].
  assert (Hname : existsb is_linebreak (strip line) = false)
    by exact (part_of_existsb _ _ _ (strip_part line) Hline).
  split; [apply strip_strip|]. split; [exact Hname|]. split.
  - exact (part_of_trans _ _ _ (strip_part line) Hpart).
  - unfold extract_candidate_name, splitlines. rewrite (splitlines_plain _ [] Hname).
    cbn [rev app]. destruct (strip line) as [|c t] eqn:Hs; [reflexivity|].
    cbn [first_stripped_line]. rewrite <- Hs, strip_strip, Hs. reflexivity.
Qed.

(** ** Lengths *)

Lemma sub_whitespace_length (b : bool) (x : str) :
  List.length (sub_whitespace b x) <= List.length x.
Proof.
  revert b. induction x as [|c t IH]; intro b; [reflexivity|].
  pose proof (IH true) as IHt. pose proof (IH false) as IHf.
  cbn [sub_whitespace]. destruct (isspace c); [destruct b|]; cbn [List.length]; lia.
Qed.

Lemma strip_length (x : str) : List.length (strip x) <= List.length x.
Proof.
  unfold strip, rstrip. rewrite length_rev.
  pose proof (lstrip_length (rev (lstrip x))) as H. rewrite length_rev in H.
  pose proof (lstrip_length x). lia.
Qed.

Lemma despace_length (b : bool) (x : str) :
  List.length (despace b x) <= List.length x.
Proof.
  apply despace_ind with (P := fun _ x out => List.length out <= List.length x).
  - reflexivity.
  - intros m r _ IH. rewrite !length_app.
    apply Nat.add_le_mono; [apply filter_length_le|exact IH].
  - intros _ c t _ IH. cbn [List.length]. lia.
Qed.

(** Normalising never makes a text longer, and neither does taking the
    spaces out of spaced-out words. *)
Theorem normalization_never_lengthens (x : str) :
  List.length (remove_spaced_out_words x) <= List.length x /\
  List.length (normalize_text x) <= List.length (remove_spaced_out_words x).
Proof.
  split.
  - rewrite remove_spaced_out_words_despace. apply despace_length.
  - rewrite normalize_text_scan, remove_spaced_out_words_despace.
    pose proof (sub_whitespace_length false (strip (despace true x))).
    pose proof (strip_length (despace true x)). lia.
Qed.

(** ** Further runs on the sample data *)

Lemma pages_show_every_entry_once_witness :
  twelve_ranked <> [] /\
  EnhancedResumeRankerGUI.total_pages
    (EnhancedResumeRankerGUI.update_results_display weak twelve_ranked
       EnhancedResumeRankerGUI.init)
  = pages_needed (List.length twelve_ranked).
Proof.
  split; [discriminate|].
  apply (pages_show_every_entry_once weak twelve_ranked EnhancedResumeRankerGUI.init).
  discriminate.
Defined.

Lemma individual_worker_ranks_what_was_added_witness :
  let resumes :=
    IndividualResumeScreen.resume_list
      (IndividualResumeScreen.edits sample_env two_added IndividualResumeScreen.init) in
  List.map candidate_name resumes = [s "Ada"; s "Grace"] /\
  exists ranked,
    filter is_display
      (trace_of (IndividualResumeScreen.process_resumes_worker sample_env resumes
                   sample_role sample_description true))
    = [Display ranked] /\
    Permutation (List.map fst ranked) resumes.
Proof.
  cbv zeta. split; [reflexivity|].
  destruct (individual_worker_ranks_what_was_added sample_env two_added
              sample_role sample_description true) as (_ & _ & _ & Hshown).
  apply (Hshown tt); [vm_compute; discriminate|reflexivity|reflexivity].
Defined.

Lemma unreadable_model_directory_is_never_repaired_witness :
  let st_3 :=
    Nat.iter 3 (fun st => state_of (load_model unlucky_env (Some update_progress) st))
      true in
  result_of (load_model unlucky_env (Some update_progress) st_3)
  = inl (LibraryError (s "config.json not found")).
Proof.
  apply (unreadable_model_directory_is_never_repaired unlucky_env
           (Some update_progress) (LibraryError (s "config.json not found")) 3
           (or_intror eq_refl) eq_refl).
Defined.

Lemma failed_download_is_tried_again_witness :
  let st_2 :=
    Nat.iter 2 (fun st => state_of (load_model offline_env (Some update_progress) st))
      false in
  filter is_fetch (trace_of (load_model offline_env (Some update_progress) st_2))
  = [Fetch model_name].
Proof.
  apply (failed_download_is_tried_again offline_env (Some update_progress)
           (LibraryError (s "cannot reach the hub")) 2 (or_intror eq_refl) eq_refl).
Defined.

Lemma records_without_a_score_are_left_out_witness :
  exists ranked,
    result_of (rank_resumes short_env [named (s "A"); named (s "B"); named (s "C")]
                 (s "Job Role: Analyst") tt None true) = inr ranked /\
    List.length ranked = 1.
Proof.
  destruct (records_without_a_score_are_left_out short_env
              [named (s "A"); named (s "B"); named (s "C")]
              (s "Job Role: Analyst") tt None true tt
              [s "A"; s "B"; s "C"] [(1 # 100)%Q]
              (or_introl eq_refl) eq_refl eq_refl eq_refl)
    as (ranked & Hres & Hlen & _).
  exists ranked. split; [exact Hres|exact Hlen].
Defined.

Lemma displayed_records_come_from_the_selection_witness :
  forallb (displays (from_files five_files))
    (trace_of (process_resumes_worker sample_env (folder five_files)
                 sample_role sample_description true)) = true.
Proof.
  apply (displayed_records_come_from_the_selection sample_env (folder five_files)
           sample_role sample_description true eq_refl).
Defined.

(** ** Loading the candidates *)

Section VisualizationProps.
Import ResumeVisualizationApp.

Lemma lookup_assign_same (key : str) (v : json) (members : list (str * json)) :
  lookup key (assign key v members) = Some v.
Proof.
  induction members as [|[k w] members IH]; cbn [assign lookup].
  - now rewrite str_eqb_refl.
  - destruct (str_eqb k key) eqn:Hk; cbn [lookup]; rewrite Hk; [reflexivity|exact IH].
Qed.

Lemma lookup_assign_other (key other : str) (v : json) (members : list (str * json)) :
  str_eqb key other = false ->
  lookup other (assign key v members) = lookup other members.
Proof.
  intro Hne. induction members as [|[k w] members IH]; cbn [assign lookup].
  - now rewrite Hne.
  - destruct (str_eqb k key) eqn:Hk; cbn [lookup].
    + apply str_eqb_eq in Hk. subst k. now rewrite Hne.
    + now rewrite IH.
Qed.

Lemma update_eq (f : json -> error + json) (key : str) (item item' : json) :
  update f key item = inr item' ->
  exists members v v',
    item = JObj members /\ lookup key members = Some v /\ f v = inr v' /\
    item' = JObj (assign key v' members).
Proof.
  unfold update, getitem, setitem. destruct item as [| | | | |members]; try discriminate.
  destruct (lookup key members) as [v|] eqn:Hv; [|discriminate].
  destruct (f v) as [e|v'] eqn:Hf; [discriminate|].
  intro H. injection H as <-. now exists members, v, v'.
Qed.

Lemma clamp_percentage (x : Q) : percentage (JNum (min_100 (max_0 x))) = true.
Proof.
  unfold percentage, min_100, max_0. apply andb_true_iff.
  destruct (Qlt_bool 0 x) eqn:H0.
  - apply Qlt_bool_iff in H0.
    destruct (Qlt_bool x 100) eqn:H1.
    + apply Qlt_bool_iff in H1. split; apply Qle_bool_iff; now apply Qlt_le_weak.
    + split; reflexivity.
  - split; reflexivity.
Qed.

Lemma percent_percentage (v v' : json) : percent v = inr v' -> percentage v' = true.
Proof.
  unfold percent. destruct v; try discriminate; intro H; injection H as <-;
    apply clamp_percentage.
Qed.

Lemma truncate_short (v v' : json) : truncate v = inr v' -> short_name v' = true.
Proof.
  unfold truncate. destruct v as [| | |x|items|members]; try discriminate.
  - destruct (20 <? List.length x) eqn:Hlen; intro H.
    + assert (v' = JStr (firstn 20 x ++ s "...")) as -> by congruence.
      unfold short_name. apply Nat.ltb_lt in Hlen. apply Nat.leb_le.
      rewrite length_app, length_firstn. change (List.length (s "...")) with 3. lia.
    + assert (v' = JStr x) as -> by congruence.
      apply Nat.ltb_ge in Hlen. apply Nat.leb_le. lia.
  - destruct (20 <? List.length items) eqn:Hlen; [discriminate|].
    intros [= <-]. apply Nat.ltb_ge in Hlen. now apply Nat.leb_le.
  - destruct (20 <? List.length members) eqn:Hlen; [discriminate|].
    intros [= <-]. apply Nat.ltb_ge in Hlen. now apply Nat.leb_le.
Qed.

Lemma field_assign_same (P : json -> bool) (key : str) (v : json)
    (members : list (str * json)) :
  field P key (JObj (assign key v members)) = P v.
Proof. unfold field, getitem. now rewrite lookup_assign_same. Qed.

Lemma field_assign_other (P : json -> bool) (key other : str) (v : json)
    (members : list (str * json)) :
  str_eqb key other = false ->
  field P other (JObj (assign key v members)) = field P other (JObj members).
Proof. intro H. unfold field, getitem. now rewrite lookup_assign_other. Qed.

Lemma convert_converted (item item' : json) :
  convert item = inr item' -> converted item' = true.
Proof.
  unfold convert, and_then.
  destruct (update percent (s "transformer_score") item) as [e|i1] eqn:H1; [discriminate|].
  destruct (update percent (s "tfidf_score") i1) as [e|i2] eqn:H2; [discriminate|].
  destruct (update percent (s "section_score") i2) as [e|i3] eqn:H3; [discriminate|].
  destruct (update percent (s "combined_score") i3) as [e|i4] eqn:H4; [discriminate|].
  intro H5.
  destruct (update_eq _ _ _ _ H1) as (m0 & v1 & w1 & -> & _ & Hf1 & ->).
  destruct (update_eq _ _ _ _ H2) as (m1 & v2 & w2 & Hm1 & _ & Hf2 & ->).
  injection Hm1 as <-.
  destruct (update_eq _ _ _ _ H3) as (m2 & v3 & w3 & Hm2 & _ & Hf3 & ->).
  injection Hm2 as <-.
  destruct (update_eq _ _ _ _ H4) as (m3 & v4 & w4 & Hm3 & _ & Hf4 & ->).
  injection Hm3 as <-.
  destruct (update_eq _ _ _ _ H5) as (m4 & v5 & w5 & Hm4 & _ & Hf5 & ->).
  injection Hm4 as <-.
  apply percent_percentage in Hf1, Hf2, Hf3, Hf4. apply truncate_short in Hf5.
  unfold converted, score_keys. cbn [forallb].
  rewrite field_assign_same, Hf5.
  rewrite !(field_assign_other _ (s "candidate_name")) by reflexivity.
  rewrite field_assign_same, Hf4.
  rewrite !(field_assign_other _ (s "combined_score")) by reflexivity.
  rewrite field_assign_same, Hf3.
  rewrite !(field_assign_other _ (s "section_score")) by reflexivity.
  rewrite field_assign_same, Hf2.
  rewrite !(field_assign_other _ (s "tfidf_score")) by reflexivity.
  rewrite field_assign_same, Hf1.
  reflexivity.
Qed.

Lemma convert_all_converted (items items' : list json) :
  convert_all items = inr items' ->
  List.length items' = List.length items /\ forallb converted items' = true.
Proof.
  revert items'. induction items as [|item items IH]; intros items' H.
  - injection H as <-. now split.
  - cbn [convert_all] in H.
    destruct (convert item) as [e|item'] eqn:Hc; [discriminate|].
    destruct (convert_all items) as [e|rest'] eqn:Hr; [discriminate|].
    injection H as <-. destruct (IH rest' eq_refl) as [Hlen Hall].
    cbn [List.length forallb]. rewrite (convert_converted _ _ Hc), Hall, Hlen.
    now split.
Qed.

(** [load_data] keeps all the candidates or none: either the file is a
    list whose items all have the four scores as numbers (or booleans) and
    a name that can be measured, and then the window holds as many items,
    each with its four scores between 0 and 100 and its name cut; or the
    file holds nothing to iterate over (an empty dict or string), which is
    kept as it is; or anything at all goes wrong, from opening the file to
    the last item, and then the window holds the empty list and one error
    line. In each case one line is added to the panel and nothing else
    changes. *)
Theorem load_data_keeps_all_or_nothing (file : error + json) (self : window) :
  let after := load_data file self in
  (score_slider after = score_slider self /\ color_combo after = color_combo self /\
   search_input after = search_input self /\ scatter_pos after = scatter_pos self /\
   scatter_color after = scatter_color self) /\
  ((exists e,
      info_text after = info_text self ++ [ErrorLoading e] /\ data after = JArr [])
   \/
   (info_text after = info_text self ++ [Loaded (len (data after))] /\
    match data after with
    | JArr items' =>
        exists items,
          file = inr (JArr items) /\ convert_all items = inr items' /\
          List.length items' = List.length items /\
          forallb converted items' = true
    | loaded => file = inr loaded /\ len loaded = 0
    end)).
Proof.
  cbv zeta. unfold load_data.
  destruct file as [e|loaded]; [split; [now repeat split|left; now exists e]|].
  destruct loaded as [| | |x|items|members]; cbn [iterate];
    try (split; [now repeat split|left; now exists TypeError]).
  - (* a string *)
    destruct x as [|c x]; [split; [now repeat split|right; now split]|].
    cbn [List.map convert_all]. split; [now repeat split|]. left. now exists TypeError.
  - (* a list *)
    destruct (convert_all items) as [e|items'] eqn:Hc;
      [split; [now repeat split|left; now exists e]|].
    split; [now repeat split|]. right. cbn [data info_text set_data]. split; [reflexivity|].
    exists items. destruct (convert_all_converted _ _ Hc) as [Hlen Hall]. auto.
  - (* a dict *)
    destruct members as [|[k v] members]; [split; [now repeat split|right; now split]|].
    cbn [List.map convert_all fst]. split; [now repeat split|]. left. now exists TypeError.
Qed.

Lemma update_lookup (f : json -> error + json) (key : str) (item item' : json) :
  update f key item = inr item' ->
  f (value_of key item) = inr (value_of key item') /\
  (forall other, str_eqb key other = false -> getitem item' other = getitem item other).
Proof.
  intro H. destruct (update_eq _ _ _ _ H) as (members & v & v' & -> & Hv & Hf & ->).
  unfold value_of, getitem. rewrite Hv, lookup_assign_same. split; [exact Hf|].
  intros other Hne. now rewrite lookup_assign_other.
Qed.

Lemma update_value_of (f : json -> error + json) (key other : str)
    (item item' : json) :
  update f key item = inr item' -> str_eqb key other = false ->
  value_of other item' = value_of other item.
Proof.
  intros H Hne. unfold value_of.
  now rewrite (proj2 (update_lookup _ _ _ _ H) other Hne).
Qed.

(** The five assignments of the loop of [load_data] do not disturb each
    other. *)
Lemma convert_fields (item item' : json) :
  convert item = inr item' ->
  (forall key, In key score_keys ->
     percent (value_of key item) = inr (value_of key item')) /\
  truncate (value_of (s "candidate_name") item)
  = inr (value_of (s "candidate_name") item') /\
  (forall other, ~ In other (s "candidate_name" :: score_keys) ->
     getitem item' other = getitem item other).
Proof.
  unfold convert, and_then.
  destruct (update percent (s "transformer_score") item) as [e|i1] eqn:H1; [discriminate|].
  destruct (update percent (s "tfidf_score") i1) as [e|i2] eqn:H2; [discriminate|].
  destruct (update percent (s "section_score") i2) as [e|i3] eqn:H3; [discriminate|].
  destruct (update percent (s "combined_score") i3) as [e|i4] eqn:H4; [discriminate|].
  intro H5.
  destruct (update_lookup _ _ _ _ H1) as [P1 O1].
  destruct (update_lookup _ _ _ _ H2) as [P2 O2].
  destruct (update_lookup _ _ _ _ H3) as [P3 O3].
  destruct (update_lookup _ _ _ _ H4) as [P4 O4].
  destruct (update_lookup _ _ _ _ H5) as [P5 O5].
  split; [|split].
  - intros key [<-|[<-|[<-|[<-|[]]]]].
    + rewrite P1. f_equal.
      rewrite (update_value_of _ _ (s "transformer_score") _ _ H5 eq_refl).
      rewrite (update_value_of _ _ (s "transformer_score") _ _ H4 eq_refl).
      rewrite (update_value_of _ _ (s "transformer_score") _ _ H3 eq_refl).
      now rewrite (update_value_of _ _ (s "transformer_score") _ _ H2 eq_refl).
    + rewrite <- (update_value_of _ _ (s "tfidf_score") _ _ H1 eq_refl).
      rewrite P2. f_equal.
      rewrite (update_value_of _ _ (s "tfidf_score") _ _ H5 eq_refl).
      rewrite (update_value_of _ _ (s "tfidf_score") _ _ H4 eq_refl).
      now rewrite (update_value_of _ _ (s "tfidf_score") _ _ H3 eq_refl).
    + rewrite <- (update_value_of _ _ (s "section_score") _ _ H1 eq_refl).
      rewrite <- (update_value_of _ _ (s "section_score") _ _ H2 eq_refl).
      rewrite P3. f_equal.
      rewrite (update_value_of _ _ (s "section_score") _ _ H5 eq_refl).
      now rewrite (update_value_of _ _ (s "section_score") _ _ H4 eq_refl).
    + rewrite <- (update_value_of _ _ (s "combined_score") _ _ H1 eq_refl).
      rewrite <- (update_value_of _ _ (s "combined_score") _ _ H2 eq_refl).
      rewrite <- (update_value_of _ _ (s "combined_score") _ _ H3 eq_refl).
      rewrite P4. f_equal.
      now rewrite (update_value_of _ _ (s "combined_score") _ _ H5 eq_refl).
  - rewrite <- (update_value_of _ _ (s "candidate_name") _ _ H1 eq_refl).
    rewrite <- (update_value_of _ _ (s "candidate_name") _ _ H2 eq_refl).
    rewrite <- (update_value_of _ _ (s "candidate_name") _ _ H3 eq_refl).
    rewrite <- (update_value_of _ _ (s "candidate_name") _ _ H4 eq_refl).
    exact P5.
  - intros other Hother.
    assert (Hne : forall key, In key (s "candidate_name" :: score_keys) ->
                    str_eqb key other = false).
    { intros key Hkey. destruct (str_eqb key other) eqn:Heq; [|reflexivity].
      apply str_eqb_eq in Heq. now subst. }
    rewrite (O5 other) by (apply Hne; cbn; auto).
    rewrite (O4 other) by (apply Hne; cbn; auto 6).
    rewrite (O3 other) by (apply Hne; cbn; auto 6).
    rewrite (O2 other) by (apply Hne; cbn; auto 6).
    rewrite (O1 other) by (apply Hne; cbn; auto 6).
    reflexivity.
Qed.

Lemma convert_all_Forall2 (R : json -> json -> Prop) (items items' : list json) :
  (forall item item', convert item = inr item' -> R item item') ->
  convert_all items = inr items' -> Forall2 R items items'.
Proof.
  intro HR. revert items'. induction items as [|item items IH]; intros items' H.
  - assert (items' = []) as -> by (cbn in H; congruence). constructor.
  - cbn [convert_all] in H.
    destruct (convert item) as [e|item'] eqn:Hc; [discriminate|].
    destruct (convert_all items) as [e|rest'] eqn:Hr; [discriminate|].
    assert (items' = item' :: rest') as -> by congruence.
    constructor; [now apply HR|now apply IH].
Qed.

(** A list that is not empty is in the window only when the whole file
    went through the loop. *)
Lemma load_data_list (file : error + json) (self : window) (items' : list json) :
  data (load_data file self) = JArr items' -> items' <> [] ->
  exists items, file = inr (JArr items) /\ convert_all items = inr items'.
Proof.
  unfold load_data. intros Hdata Hne.
  destruct file as [e|loaded]; [cbn in Hdata; congruence|].
  destruct loaded as [| | |[|c x]|items|[|[k v] members]];
    try (cbn in Hdata; congruence).
  cbn [iterate] in Hdata.
  destruct (convert_all items) as [e|l] eqn:Hc; [cbn in Hdata; congruence|].
  exists items. cbn [data set_data] in Hdata. split; [reflexivity|congruence].
Qed.

(** When [load_data] has loaded candidates, each is the item of the file
    at the same place with five values replaced: each of the four scores
    by 100 times the score, brought to 0 when below and to 100 when above,
    and the name by its cut; every other key of the item is as in the
    file. *)
Theorem load_data_rewrites_five_values (file : error + json) (self : window)
    (items' : list json) :
  data (load_data file self) = JArr items' -> items' <> [] ->
  exists items,
    file = inr (JArr items) /\
    Forall2
      (fun item item' =>
         (forall key, In key score_keys ->
            percent (value_of key item) = inr (value_of key item')) /\
         truncate (value_of (s "candidate_name") item)
         = inr (value_of (s "candidate_name") item') /\
         (forall other, ~ In other (s "candidate_name" :: score_keys) ->
            getitem item' other = getitem item other))
      items items'.
Proof.
  intros Hdata Hne. destruct (load_data_list _ _ _ Hdata Hne) as (items & -> & Hc).
  exists items. split; [reflexivity|].
  apply (convert_all_Forall2 _ _ _ convert_fields Hc).
Qed.

(** A loaded candidate whose name in the file is a text of more than 20
    characters has as its name the first 20 characters and three dots, 23
    characters in all, so that a name of 21 or 22 characters gets longer;
    a shorter name is kept as it is. *)
Theorem long_names_are_cut_to_23_characters (file : error + json) (self : window)
    (items' : list json) :
  data (load_data file self) = JArr items' -> items' <> [] ->
  exists items,
    file = inr (JArr items) /\
    Forall2
      (fun item item' =>
         forall name, value_of (s "candidate_name") item = JStr name ->
           name_of item'
           = (if 20 <? List.length name then firstn 20 name ++ s "..." else name) /\
           List.length (name_of item')
           = (if 20 <? List.length name then 23 else List.length name) /\
           firstn 20 (name_of item') = firstn 20 name)
      items items'.
Proof.
  intros Hdata Hne. destruct (load_data_list _ _ _ Hdata Hne) as (items & -> & Hc).
  exists items. split; [reflexivity|].
  apply (convert_all_Forall2 _ _ _ (fun item item' H => proj1 (proj2 (convert_fields item item' H)))) in Hc.
  revert Hc. apply Forall2_impl. intros item item' Htr name Hname.
  rewrite Hname in Htr. unfold truncate in Htr. unfold name_of.
  destruct (20 <? List.length name) eqn:Hlen.
  - assert (value_of (s "candidate_name") item' = JStr (firstn 20 name ++ s "..."))
      as -> by congruence.
    apply Nat.ltb_lt in Hlen. split; [reflexivity|]. split.
    + rewrite length_app, length_firstn. change (List.length (s "...")) with 3. lia.
    + rewrite firstn_app, length_firstn, Nat.min_l by lia.
      rewrite Nat.sub_diag, firstn_O, app_nil_r.
      rewrite firstn_firstn. now rewrite Nat.min_id.
  - assert (value_of (s "candidate_name") item' = JStr name) as -> by congruence.
    now repeat split.
Qed.
End VisualizationProps.

(** ** Showing the candidates *)

Section ShowingProps.
Import ResumeVisualizationApp.
Variable lower : str -> str.

Lemma comprehension_filter (keep : json -> error + bool) (p : json -> bool)
    (items : list json) :
  (forall item, In item items -> keep item = inr (p item)) ->
  comprehension keep items = inr (filter p items).
Proof.
  induction items as [|item items IH]; intro H; [reflexivity|].
  cbn [comprehension filter]. rewrite (H item (or_introl eq_refl)).
  rewrite IH by (intros i Hi; apply H; now right). reflexivity.
Qed.

Lemma column_map (key : str) (f : json -> json) (items : list json) :
  (forall item, In item items -> getitem item key = inr (f item)) ->
  column key items = inr (List.map f items).
Proof.
  induction items as [|item items IH]; intro H; [reflexivity|].
  cbn [column List.map]. rewrite (H item (or_introl eq_refl)).
  rewrite IH by (intros i Hi; apply H; now right). reflexivity.
Qed.

Lemma array_map (g : json -> Q) (items : list json) :
  array (List.map (fun item => JNum (g item)) items) = Some (List.map g items).
Proof.
  induction items as [|item items IH]; [reflexivity|].
  cbn [List.map array number]. now rewrite IH.
Qed.

Lemma field_inv (P : json -> bool) (key : str) (item : json) :
  field P key item = true ->
  getitem item key = inr (value_of key item) /\ P (value_of key item) = true.
Proof.
  unfold field, value_of. destruct (getitem item key) as [e|v]; [discriminate|].
  now split.
Qed.

Lemma percentage_inv (v : json) :
  percentage v = true -> exists q, v = JNum q /\ (0 <= q /\ q <= 100)%Q.
Proof.
  destruct v as [| |q| | |]; try discriminate. cbn [percentage].
  intros [H0 H1]%andb_true_iff. apply Qle_bool_iff in H0, H1. now exists q.
Qed.

Lemma converted_score (item : json) (key : str) :
  converted item = true -> In key score_keys ->
  getitem item key = inr (JNum (number_of key item)) /\
  (0 <= number_of key item /\ number_of key item <= 100)%Q.
Proof.
  intros [Hs _]%andb_true_iff Hkey.
  rewrite forallb_forall in Hs. specialize (Hs key Hkey).
  apply field_inv in Hs. destruct Hs as [Hget Hp].
  apply percentage_inv in Hp. destruct Hp as (q & Hq & Hb).
  unfold number_of. rewrite Hget, Hq. now split.
Qed.

Lemma converted_name (item : json) :
  converted item = true ->
  getitem item (s "candidate_name") = inr (value_of (s "candidate_name") item).
Proof. intros [_ Hn]%andb_true_iff. now apply field_inv in Hn. Qed.

Lemma text_name (item : json) :
  field is_string (s "candidate_name") item = true ->
  getitem item (s "candidate_name") = inr (JStr (name_of item)).
Proof.
  intro H. apply field_inv in H. destruct H as [Hget Hs].
  unfold name_of. rewrite Hget.
  now destruct (value_of (s "candidate_name") item).
Qed.

Lemma color_metric_is_a_score (m : metric) : In (color_metric m) score_keys.
Proof. destruct m; cbn; auto. Qed.

Lemma rows_converted (items : list json) :
  forallb converted items = true ->
  exists entries, rows items = inr entries /\
    array3 entries = Some (List.map position items).
Proof.
  induction items as [|item items IH]; intro H; [now exists []|].
  cbn [forallb] in H. apply andb_true_iff in H. destruct H as [Hc Hrest].
  destruct (IH Hrest) as (entries & Hrows & Harr).
  cbn [rows].
  destruct (converted_score item (s "transformer_score") Hc) as [-> _]; [cbn; auto|].
  destruct (converted_score item (s "tfidf_score") Hc) as [-> _]; [cbn; auto|].
  destruct (converted_score item (s "section_score") Hc) as [-> _]; [cbn; auto|].
  rewrite Hrows. eexists. split; [reflexivity|].
  cbn [array3 number List.map]. now rewrite Harr.
Qed.

Lemma samples_converted (items : list json) :
  forallb converted items = true -> samples items = inr (List.map sample items).
Proof.
  induction items as [|item items IH]; intro H; [reflexivity|].
  cbn [forallb] in H. apply andb_true_iff in H. destruct H as [Hc Hrest].
  cbn [samples]. rewrite (converted_name item Hc).
  destruct (converted_score item (s "transformer_score") Hc) as [-> _]; [cbn; auto|].
  destruct (converted_score item (s "tfidf_score") Hc) as [-> _]; [cbn; auto|].
  destruct (converted_score item (s "section_score") Hc) as [-> _]; [cbn; auto|].
  destruct (converted_score item (s "combined_score") Hc) as [-> _]; [cbn; auto|].
  cbn [format_1f]. now rewrite (IH Hrest).
Qed.

Lemma forallb_filter_keeps {A : Type} (P p : A -> bool) (l : list A) :
  forallb P l = true -> forallb P (filter p l) = true.
Proof.
  rewrite !forallb_forall. intros H x [Hx _]%filter_In. now apply H.
Qed.

Lemma forallb_firstn {A : Type} (P : A -> bool) (n : nat) (l : list A) :
  forallb P l = true -> forallb P (firstn n l) = true.
Proof.
  revert n. induction l as [|x l IH]; intros [|n] H; try reflexivity.
  cbn [forallb firstn] in *. apply andb_true_iff in H. destruct H as [-> H].
  now rewrite IH.
Qed.

Lemma filter_filter {A : Type} (p q : A -> bool) (l : list A) :
  filter q (filter p l) = filter (fun x => p x && q x) l.
Proof.
  induction l as [|x l IH]; [reflexivity|]. cbn [filter].
  destruct (p x); cbn [filter andb]; [|exact IH]. now rewrite IH.
Qed.

(** The two filters on loaded candidates. *)
Lemma filtered_data_loaded (self : window) :
  forallb converted (candidates self) = true -> searchable lower self = true ->
  filtered_data lower (score_slider self) (lower (search_input self)) (candidates self)
  = inr (filter (passes lower self) (candidates self)).
Proof.
  intros Hc Hs. unfold filtered_data.
  rewrite (comprehension_filter _
             (fun item => Qle_bool (inject_Z (score_slider self))
                            (number_of (s "combined_score") item))).
  2:{ intros item Hin. unfold scores_enough.
      rewrite forallb_forall in Hc.
      destruct (converted_score item (s "combined_score") (Hc item Hin)) as [-> _];
        [cbn; auto|reflexivity]. }
  unfold passes, searchable in *.
  destruct (lower (search_input self)) as [|c term].
  - f_equal. apply filter_ext. intro item. now rewrite andb_true_r.
  - rewrite (comprehension_filter _
               (fun item => contains (c :: term) (lower (name_of item)))).
    + now rewrite filter_filter.
    + intros item [Hin _]%filter_In. unfold name_matches.
      rewrite forallb_forall in Hs. now rewrite (text_name item (Hs item Hin)).
Qed.

(** What [update_visualization] does on loaded candidates. *)
Lemma update_visualization_loaded (self : window) :
  well_loaded (data self) = true -> searchable lower self = true ->
  update_visualization lower self
  = Returns
      match filter (passes lower self) (candidates self) with
      | [] =>
          set_info_text
            (info_text self ++ [if falsy (data self) then NoData else NoMatch]) self
      | (_ :: _) as shown =>
          set_info_text (panel lower self shown)
            (set_scatter (List.map position shown)
               (List.map color_row
                  (normalized
                     (List.map (number_of (color_metric (color_combo self))) shown)))
               self)
      end.
Proof.
  intros Hw Hs. unfold update_visualization.
  assert (Hc : forallb converted (candidates self) = true).
  { unfold candidates. destruct (data self); try reflexivity. exact Hw. }
  destruct (falsy (data self)) eqn:Hf.
  { assert (candidates self = []) as ->; [|reflexivity].
    unfold candidates. destruct (data self) as [| | | |[|]|]; try reflexivity.
    discriminate. }
  assert (Hit : iterate (data self) = inr (candidates self)).
  { unfold candidates. destruct (data self) as [| | |[|]|items|[|[]]]; try discriminate.
    reflexivity. }
  cbv zeta. rewrite Hit, (filtered_data_loaded self Hc Hs).
  pose proof (forallb_filter_keeps converted (passes lower self) _ Hc) as Hshown.
  destruct (filter (passes lower self) (candidates self)) as [|item shown] eqn:Hfil;
    [reflexivity|].
  destruct (rows_converted _ Hshown) as (entries & -> & ->).
  rewrite (column_map _ (fun item => JNum (number_of (color_metric (color_combo self)) item))).
  2:{ intros i Hi. pose proof Hshown as Hall. rewrite forallb_forall in Hall.
      now destruct (converted_score i _ (Hall i Hi)
                      (color_metric_is_a_score (color_combo self))). }
  rewrite array_map.
  rewrite (samples_converted _ (forallb_firstn converted 5 _ Hshown)).
  unfold panel. now destruct (lower (search_input self)).
Qed.
End ShowingProps.

(** ** What the window shows *)

Section WindowProps.
Import ResumeVisualizationApp.
Variable lower : str -> str.

Lemma load_data_well_loaded (file : error + json) (self : window) :
  well_loaded (data (load_data file self)) = true.
Proof.
  unfold load_data. destruct file as [e|loaded]; [reflexivity|].
  destruct loaded as [| | |[|c x]|items|[|[k v] members]]; try reflexivity.
  cbn [iterate]. destruct (convert_all items) as [e|items'] eqn:Hc; [reflexivity|].
  destruct (convert_all_converted _ _ Hc) as [_ Hall]. exact Hall.
Qed.

Lemma minimum_spec (l : list Q) (first : Q) :
  In (minimum first l) (first :: l) /\
  forall q, In q (first :: l) -> (minimum first l <= q)%Q.
Proof.
  unfold minimum. revert first. induction l as [|x l IH]; intro first.
  - cbn. split; [now left|]. intros q [<-|[]]. apply Qle_refl.
  - cbn [fold_left]. destruct (Qlt_bool x first) eqn:Hlt.
    + apply Qlt_bool_iff in Hlt. destruct (IH x) as [Hin Hle]. split.
      * destruct Hin as [<-|Hin]; [right; now left|right; now right].
      * intros q [<-|[<-|Hq]].
        -- apply Qle_trans with x; [apply Hle; now left|now apply Qlt_le_weak].
        -- apply Hle. now left.
        -- apply Hle. now right.
    + apply Qlt_bool_false in Hlt. destruct (IH first) as [Hin Hle]. split.
      * destruct Hin as [<-|Hin]; [now left|right; now right].
      * intros q [<-|[<-|Hq]].
        -- apply Hle. now left.
        -- apply Qle_trans with first; [apply Hle; now left|exact Hlt].
        -- apply Hle. now right.
Qed.

Lemma maximum_spec (l : list Q) (first : Q) :
  In (maximum first l) (first :: l) /\
  forall q, In q (first :: l) -> (q <= maximum first l)%Q.
Proof.
  unfold maximum. revert first. induction l as [|x l IH]; intro first.
  - cbn. split; [now left|]. intros q [<-|[]]. apply Qle_refl.
  - cbn [fold_left]. destruct (Qlt_bool first x) eqn:Hlt.
    + apply Qlt_bool_iff in Hlt. destruct (IH x) as [Hin Hle]. split.
      * destruct Hin as [<-|Hin]; [right; now left|right; now right].
      * intros q [<-|[<-|Hq]].
        -- apply Qle_trans with x; [now apply Qlt_le_weak|apply Hle; now left].
        -- apply Hle. now left.
        -- apply Hle. now right.
    + apply Qlt_bool_false in Hlt. destruct (IH first) as [Hin Hle]. split.
      * destruct Hin as [<-|Hin]; [now left|right; now right].
      * intros q [<-|[<-|Hq]].
        -- apply Hle. now left.
        -- apply Qle_trans with first; [exact Hlt|apply Hle; now left].
        -- apply Hle. now right.
Qed.

Lemma quotient_in_unit (c lo hi : Q) :
  (lo <= c)%Q -> (c <= hi)%Q -> (lo < hi)%Q ->
  in_unit (Some ((c - lo) / (hi - lo))%Q).
Proof.
  intros Hlo Hhi Hlt. cbn [in_unit].
  assert (Hpos : (0 < hi - lo)%Q) by (unfold Qminus; apply (Qlt_minus_iff lo hi); exact Hlt).
  split.
  - apply Qle_shift_div_l; [exact Hpos|]. rewrite Qmult_0_l.
    unfold Qminus. apply (Qle_minus_iff lo c). exact Hlo.
  - apply Qle_shift_div_r; [exact Hpos|]. rewrite Qmult_1_l.
    unfold Qminus. apply Qplus_le_compat; [exact Hhi|apply Qle_refl].
Qed.

(** The colours of a list of values that is not empty. *)
Lemma normalized_map (value : json -> Q) (shown : list json) :
  shown <> [] ->
  ((forall a b, In a shown -> In b shown -> (value a == value b)%Q) /\
   normalized (List.map value shown) = List.map (fun _ => None) shown)
  \/
  (exists lo hi,
     In lo shown /\ In hi shown /\ (value lo < value hi)%Q /\
     (forall item, In item shown ->
        (value lo <= value item)%Q /\ (value item <= value hi)%Q) /\
     normalized (List.map value shown)
     = List.map (fun item =>
                   Some ((value item - value lo) / (value hi - value lo))%Q) shown).
Proof.
  destruct shown as [|first rest]; [congruence|]. intros _.
  cbn [List.map normalized].
  destruct (minimum_spec (List.map value rest) (value first)) as [Hmin Hle].
  destruct (maximum_spec (List.map value rest) (value first)) as [Hmax Hge].
  change (value first :: List.map value rest) with (List.map value (first :: rest)) in *.
  set (lo := minimum (value first) (List.map value rest)) in *.
  set (hi := maximum (value first) (List.map value rest)) in *.
  apply in_map_iff in Hmin, Hmax.
  destruct Hmin as (a & Ha & Hina). destruct Hmax as (b & Hb & Hinb).
  destruct (Qeq_bool hi lo) eqn:Heq.
  - left. apply Qeq_bool_iff in Heq. split; [|now rewrite map_map].
    assert (Hall : forall i, In i (first :: rest) -> (value i == lo)%Q).
    { intros i Hi. apply Qle_antisym.
      - rewrite <- Heq. apply Hge. now apply in_map.
      - apply Hle. now apply in_map. }
    intros i j Hi Hj. now rewrite (Hall i Hi), (Hall j Hj).
  - right. apply Qeq_bool_neq in Heq. exists a, b. rewrite Ha, Hb.
    split; [exact Hina|]. split; [exact Hinb|]. split; [|split].
    + assert (Hlohi : (lo <= hi)%Q).
      { apply Hle. rewrite <- Hb. now apply in_map. }
      apply Qle_lteq in Hlohi. destruct Hlohi as [Hlt|He]; [exact Hlt|].
      exfalso. apply Heq. now symmetry.
    + intros item Hitem. split; [apply Hle|apply Hge]; now apply in_map.
    + now rewrite map_map.
Qed.

(** Whatever the file holds and whatever the controls are set to later,
    [update_visualization] returns without an exception as long as a
    search is only made among names that are texts, and it shows the
    loaded candidates that pass the two filters, in the order of the file:
    [self] is the window at any time after [load_data], which is the only
    place where [data] is set. With nothing to show one line is added to
    the panel and the plot stays as it is. *)
Theorem loaded_candidates_are_filtered (file : error + json) (before self : window) :
  data self = data (load_data file before) ->
  searchable lower self = true ->
  let shown := filter (passes lower self) (candidates self) in
  exists after,
    update_visualization lower self = Returns after /\
    (data after = data self /\ score_slider after = score_slider self /\
     color_combo after = color_combo self /\ search_input after = search_input self) /\
    match shown with
    | [] =>
        scatter_pos after = scatter_pos self /\
        scatter_color after = scatter_color self /\
        info_text after
        = info_text self ++ [match candidates self with [] => NoData | _ :: _ => NoMatch end]
    | _ :: _ =>
        scatter_pos after = List.map position shown /\
        (exists colors,
           scatter_color after = Some colors /\ List.length colors = List.length shown) /\
        info_text after = panel lower self shown
    end.
Proof.
  intros Hdata Hs shown.
  assert (Hw : well_loaded (data self) = true)
    by (rewrite Hdata; apply load_data_well_loaded).
  rewrite (update_visualization_loaded lower self Hw Hs). fold shown.
  eexists. split; [reflexivity|].
  destruct shown as [|item rest] eqn:Hshown.
  - split; [now repeat split|]. split; [reflexivity|]. split; [reflexivity|].
    cbn [info_text set_info_text]. do 2 f_equal.
    unfold candidates in *. clear Hdata.
    destruct (data self) as [| | |[|c x]|[|i items]|[|[k v] members]]; try reflexivity;
      discriminate.
  - split; [now repeat split|]. split; [reflexivity|]. split; [|reflexivity].
    eexists. split; [reflexivity|].
    rewrite length_map.
    set (values := List.map _ (item :: rest)).
    assert (Hlen : List.length values = List.length (item :: rest))
      by apply length_map.
    clearbody values. destruct values as [|v values]; [discriminate|].
    unfold normalized. now rewrite length_map.
Qed.

(** The colours need two different values. When all the candidates shown
    have the same value of the colour metric, and so when a single
    candidate is shown, the red and the green of every point are 0/0, not
    a number. Otherwise the red of a point is a number from 0, for the
    smallest value shown, to 1, for the largest, and the green is 1 minus
    the red. *)
Theorem colours_need_two_different_values (file : error + json) (before self : window) :
  data self = data (load_data file before) ->
  searchable lower self = true ->
  let shown := filter (passes lower self) (candidates self) in
  let value := number_of (color_metric (color_combo self)) in
  shown <> [] ->
  exists after reds,
    update_visualization lower self = Returns after /\
    scatter_color after = Some (List.map color_row reds) /\
    ((forall a b, In a shown -> In b shown -> (value a == value b)%Q) /\
     reds = List.map (fun _ => None) shown
     \/
     exists lo hi,
       In lo shown /\ In hi shown /\ (value lo < value hi)%Q /\
       reds = List.map (fun item =>
                          Some ((value item - value lo) / (value hi - value lo))%Q)
                shown /\
       Forall in_unit reds).
Proof.
  intros Hdata Hs shown value Hne.
  assert (Hw : well_loaded (data self) = true)
    by (rewrite Hdata; apply load_data_well_loaded).
  rewrite (update_visualization_loaded lower self Hw Hs). fold shown.
  destruct shown as [|item rest] eqn:Hshown; [congruence|].
  eexists. exists (normalized (List.map value (item :: rest))).
  split; [reflexivity|]. split; [reflexivity|].
  destruct (normalized_map value (item :: rest) Hne)
    as [[Hsame Hnone]|(lo & hi & Hlo & Hhi & Hlt & Hbetween & Hreds)].
  - left. now split.
  - right. exists lo, hi. repeat (split; [assumption|]).
    rewrite Hreds. apply Forall_forall. intros c (i & <- & Hi)%in_map_iff.
    destruct (Hbetween i Hi). now apply quotient_in_unit.
Qed.

(** When the window opens it never raises, whatever the file holds, and
    it shows every candidate it has loaded: the slider is at 0, which no
    loaded score is below, and there is no search. With no candidate
    loaded, which includes every error of [load_data], the panel has the
    line of [load_data] and then that there are no data, and the plot is
    the single point it was built with. *)
Theorem opening_shows_every_loaded_candidate (file : error + json) :
  lower [] = [] ->
  exists after,
    init lower file = Returns after /\
    data after = data (load_data file widgets) /\
    match candidates after with
    | [] =>
        scatter_pos after = [(0, 0, 0)%Q] /\ scatter_color after = None /\
        exists loaded,
          info_text (load_data file widgets) = [loaded] /\
          info_text after = [loaded; NoData]
    | (_ :: _) as items =>
        scatter_pos after = List.map position items /\
        info_text after
        = [Displaying (List.length items); Threshold 0;
           ColorMetric (s "transformer_score"); SampleHeader]
          ++ List.map sample (firstn 5 items)
    end.
Proof.
  intro Hlower. unfold init. set (self := load_data file widgets).
  assert (Hw : well_loaded (data self) = true) by apply load_data_well_loaded.
  assert (Hcontrols : score_slider self = 0%Z /\ search_input self = [] /\
                      color_combo self = TransformerScore /\
                      scatter_pos self = [(0, 0, 0)%Q] /\ scatter_color self = None /\
                      exists loaded, info_text self = [loaded]).
  { unfold self, load_data.
    destruct file as [e|loaded]; [repeat split; now eexists|].
    destruct (iterate loaded) as [e|items]; [repeat split; now eexists|].
    destruct (convert_all items); repeat split; now eexists. }
  destruct Hcontrols as (Hslider & Hsearch & Hcombo & Hpos & Hcolor & loaded & Hinfo).
  assert (Hs : searchable lower self = true)
    by (unfold searchable; now rewrite Hsearch, Hlower).
  assert (Hc : forallb converted (candidates self) = true).
  { unfold candidates. destruct (data self); try reflexivity. exact Hw. }
  assert (Hall : filter (passes lower self) (candidates self) = candidates self).
  { apply forallb_filter_id. rewrite forallb_forall in *. intros item Hitem.
    unfold passes. rewrite Hslider, Hsearch, Hlower, andb_true_r.
    destruct (converted_score item (s "combined_score") (Hc item Hitem)) as [_ [H0 _]];
      [cbn; auto|]. now apply Qle_bool_iff. }
  rewrite (update_visualization_loaded lower self Hw Hs), Hall.
  eexists. split; [reflexivity|].
  destruct (candidates self) as [|item items] eqn:Hcand.
  - split; [reflexivity|].
    match goal with
    | |- context [candidates ?w] => change (candidates w) with (candidates self)
    end.
    rewrite Hcand.
    cbn [scatter_pos scatter_color info_text set_info_text].
    split; [exact Hpos|]. split; [exact Hcolor|].
    exists loaded. split; [exact Hinfo|]. rewrite Hinfo. cbn [app]. do 2 f_equal.
    unfold candidates in Hcand.
    destruct (data self) as [| | |[|c x]|[|i l]|[|[k v] members]]; try reflexivity;
      discriminate.
  - split; [reflexivity|].
    match goal with
    | |- context [candidates ?w] => change (candidates w) with (candidates self)
    end.
    rewrite Hcand.
    cbn [scatter_pos info_text set_info_text set_scatter]. split; [reflexivity|].
    unfold panel. now rewrite Hslider, Hsearch, Hlower, Hcombo.
Qed.
End WindowProps.

(** ** The 3D view on the sample file *)

Lemma load_data_rewrites_five_values_witness :
  let loaded :=
    candidates
      (ResumeVisualizationApp.load_data results_file ResumeVisualizationApp.widgets) in
  List.map (number_of (s "combined_score")) loaded
  = [(700 # 10)%Q; (7500 # 100)%Q; (300 # 10)%Q] /\
  exists items,
    results_file = inr (ResumeVisualizationApp.JArr items) /\
    Forall2
      (fun item item' =>
         (forall key, In key score_keys ->
            ResumeVisualizationApp.percent (value_of key item)
            = inr (value_of key item')) /\
         ResumeVisualizationApp.truncate (value_of (s "candidate_name") item)
         = inr (value_of (s "candidate_name") item') /\
         (forall other, ~ In other (s "candidate_name" :: score_keys) ->
            ResumeVisualizationApp.getitem item' other
            = ResumeVisualizationApp.getitem item other))
      items loaded.
Proof.
  cbv zeta. split; [vm_compute; reflexivity|].
  apply (load_data_rewrites_five_values results_file ResumeVisualizationApp.widgets);
    [reflexivity|vm_compute; discriminate].
Defined.

Lemma long_names_are_cut_to_23_characters_witness :
  let loaded :=
    candidates
      (ResumeVisualizationApp.load_data results_file ResumeVisualizationApp.widgets) in
  List.map name_of loaded
  = [s "Ada Lovelace"; s "Alan Mathison Turing..."; s "Grace Hopper"] /\
  exists items,
    results_file = inr (ResumeVisualizationApp.JArr items) /\
    Forall2
      (fun item item' =>
         forall name,
           value_of (s "candidate_name") item = ResumeVisualizationApp.JStr name ->
           name_of item'
           = (if 20 <? List.length name then firstn 20 name ++ s "..." else name) /\
           List.length (name_of item')
           = (if 20 <? List.length name then 23 else List.length name) /\
           firstn 20 (name_of item') = firstn 20 name)
      items loaded.
Proof.
  cbv zeta. split; [vm_compute; reflexivity|].
  apply (long_names_are_cut_to_23_characters results_file
           ResumeVisualizationApp.widgets);
    [reflexivity|vm_compute; discriminate].
Defined.

Lemma loaded_candidates_are_filtered_witness :
  List.map name_of (filter (passes ascii_lower searching) (candidates searching))
  = [s "Ada Lovelace"; s "Alan Mathison Turing..."] /\
  exists after,
    ResumeVisualizationApp.update_visualization ascii_lower searching
    = ResumeVisualizationApp.Returns after /\
    List.length (ResumeVisualizationApp.scatter_pos after) = 2.
Proof.
  split; [vm_compute; reflexivity|].
  destruct (loaded_candidates_are_filtered ascii_lower results_file
              ResumeVisualizationApp.widgets searching eq_refl eq_refl)
    as (after & Hreturns & _ & Hshown).
  exists after. split; [exact Hreturns|].
  cbv zeta in Hshown.
  assert (Htwo : exists a b,
             filter (passes ascii_lower searching) (candidates searching) = [a; b])
    by (vm_compute; eauto).
  destruct Htwo as (a & b & Htwo). rewrite Htwo in Hshown.
  destruct Hshown as [-> _]. reflexivity.
Defined.

Lemma colours_need_two_different_values_witness :
  filter (passes ascii_lower searching) (candidates searching) <> [] /\
  exists after reds,
    ResumeVisualizationApp.update_visualization ascii_lower searching
    = ResumeVisualizationApp.Returns after /\
    ResumeVisualizationApp.scatter_color after
    = Some (List.map ResumeVisualizationApp.color_row reds).
Proof.
  assert (Hshown : filter (passes ascii_lower searching) (candidates searching) <> [])
    by (vm_compute; discriminate).
  split; [exact Hshown|].
  destruct (colours_need_two_different_values ascii_lower results_file
              ResumeVisualizationApp.widgets searching eq_refl eq_refl Hshown)
    as (after & reds & Hreturns & Hcolor & _).
  exists after, reds. split; [exact Hreturns|exact Hcolor].
Defined.

Lemma opening_shows_every_loaded_candidate_witness :
  ascii_lower [] = [] /\
  exists after,
    ResumeVisualizationApp.init ascii_lower results_file
    = ResumeVisualizationApp.Returns after /\
    ResumeVisualizationApp.data after
    = ResumeVisualizationApp.data
        (ResumeVisualizationApp.load_data results_file ResumeVisualizationApp.widgets).
Proof.
  split; [reflexivity|].
  destruct (opening_shows_every_loaded_candidate ascii_lower results_file eq_refl)
    as (after & Hreturns & Hdata & _).
  exists after. split; [exact Hreturns|exact Hdata].
Defined.
